(** * Info Hunter: deduplication, ingestion, rate limiting, query
      construction, enrichment and question answering

    A shallow embedding of the core of the Info Hunter backend
    ([backend/app]) and the properties its specification states about it.

    Conventions of the embedding.
    - A Python [str] is a [string] whose characters are the code points
      U+0000..U+00FF; [str.lower], [str.strip] and the UTF-8 encoding are
      written out for that range.
    - A Python [float] is a binary64 [float]: a score, and a reading of
      [time.time()] where its sums and differences round
      ([AIRateLimiter64]). A [datetime], whose arithmetic is exact, is an
      integer number of ticks; so is the clock of [AIRateLimiter], which
      is the limiter on readings that are whole numbers.
    - [None] is [None]. A dictionary key that is absent is [None] as well
      where the keys that are present hold strings; the content hash,
      which writes a key that holds [None] and an absent key differently,
      is given on dictionaries too ([Dedupe.Dict]).
    - [hashlib.sha256] is SHA-256 as FIPS 180-4 defines it, on bytes held
      as [N]. *)

From Stdlib Require Import ZArith NArith Floats Ascii.
From stdpp Require Import base option list strings gmap.

(** ** Python string operations *)

Module PyStr.

Definition code (c : ascii) : N := N_of_ascii c.

(** [c.isupper()] for one code point below U+0100: A-Z, À-Ö, Ø-Þ. *)
Definition is_upper (c : ascii) : bool :=
  let n := code c in
  ((65 <=? n) && (n <=? 90) || (192 <=? n) && (n <=? 214)
   || (216 <=? n) && (n <=? 222))%N.

Definition lower_char (c : ascii) : ascii :=
  if is_upper c then ascii_of_N (code c + 32) else c.

(** [s.lower()] *)
Fixpoint lower (s : string) : string :=
  match s with
  | EmptyString => EmptyString
  | String c r => String (lower_char c) (lower r)
  end.

(** [c.isspace()] below U+0100: TAB..CR, FS..US, SPACE, NEL, NBSP. *)
Definition is_space (c : ascii) : bool :=
  let n := code c in
  ((9 <=? n) && (n <=? 13) || (28 <=? n) && (n <=? 32)
   || (n =? 133) || (n =? 160))%N.

Definition is_slash (c : ascii) : bool := (code c =? 47)%N.

(** [s.lstrip(chars)] and [s.rstrip(chars)], the character set given as a
    predicate. *)
Fixpoint lstrip_by (p : ascii → bool) (s : string) : string :=
  match s with
  | EmptyString => EmptyString
  | String c r => if p c then lstrip_by p r else s
  end.

Fixpoint rstrip_by (p : ascii → bool) (s : string) : string :=
  match s with
  | EmptyString => EmptyString
  | String c r =>
      match rstrip_by p r with
      | EmptyString => if p c then EmptyString else String c EmptyString
      | r' => String c r'
      end
  end.

(** [s.strip()] *)
Definition strip (s : string) : string := lstrip_by is_space (rstrip_by is_space s).

(** [s.replace(' ', '-')] *)
Fixpoint replace_space_hyphen (s : string) : string :=
  match s with
  | EmptyString => EmptyString
  | String c r =>
      String (if (code c =? 32)%N then "-"%char else c) (replace_space_hyphen r)
  end.

(** [s.startswith(p)] *)
Definition startswith (p s : string) : bool := String.prefix p s.

(** [sep.join(parts)] *)
Fixpoint join (sep : string) (parts : list string) : string :=
  match parts with
  | [] => ""
  | [p] => p
  | p :: rest => p +:+ sep +:+ join sep rest
  end.

(** [s.split('\n')]: never empty, one more part than there are newlines. *)
Fixpoint split_lines (s : string) : list string :=
  match s with
  | EmptyString => [""]
  | String c r =>
      if (code c =? 10)%N then "" :: split_lines r
      else match split_lines r with
           | [] => [String c ""]
           | l :: ls => String c l :: ls
           end
  end.

(** [s.encode()]: UTF-8, one byte below U+0080 and two from there on. *)
Fixpoint encode (s : string) : list N :=
  match s with
  | EmptyString => []
  | String c r =>
      let n := code c in
      (if (n <? 128)%N then [n] else [192 + n / 64; 128 + n mod 64])%N
      ++ encode r
  end.

(** [bool(s)] *)
Definition truthy (s : string) : bool :=
  match s with EmptyString => false | _ => true end.

End PyStr.

(** ** SHA-256 (FIPS 180-4), as [hashlib.sha256(b).hexdigest()] *)

Module Sha256.

#[local] Open Scope N_scope.

Definition mask32 : N := 4294967295.
Definition wrap (x : N) : N := N.land x mask32.
Definition add32 (x y : N) : N := wrap (x + y).
Definition rotr (n x : N) : N := N.lor (N.shiftr x n) (wrap (N.shiftl x (32 - n))).
Definition not32 (x : N) : N := N.lxor x mask32.

Definition choose (x y z : N) : N := N.lxor (N.land x y) (N.land (not32 x) z).
Definition majority (x y z : N) : N :=
  N.lxor (N.lxor (N.land x y) (N.land x z)) (N.land y z).
Definition big_sigma0 (x : N) : N := N.lxor (N.lxor (rotr 2 x) (rotr 13 x)) (rotr 22 x).
Definition big_sigma1 (x : N) : N := N.lxor (N.lxor (rotr 6 x) (rotr 11 x)) (rotr 25 x).
Definition small_sigma0 (x : N) : N := N.lxor (N.lxor (rotr 7 x) (rotr 18 x)) (N.shiftr x 3).
Definition small_sigma1 (x : N) : N := N.lxor (N.lxor (rotr 17 x) (rotr 19 x)) (N.shiftr x 10).

(** The first sixty-four primes. *)
Definition is_prime (n : nat) : bool :=
  forallb (λ d, negb (Nat.eqb (n mod d) 0)) (seq 2 (n - 2)).
Definition primes64 : list N :=
  Eval vm_compute in map N.of_nat (firstn 64 (List.filter is_prime (seq 2 400))).

(** Largest [x] with [x^3 <= n], found bit by bit from bit [k-1] down. *)
Fixpoint cube_root_bits (k : nat) (n acc : N) : N :=
  match k with
  | O => acc
  | S j =>
      let cand := acc + N.shiftl 1 (N.of_nat j) in
      cube_root_bits j n (if cand * cand * cand <=? n then cand else acc)
  end.

(** The round constants: the first 32 bits of the fractional parts of the
    cube roots of the first sixty-four primes. *)
Definition round_constants : list N :=
  Eval vm_compute in map (λ p, wrap (cube_root_bits 36 (p * 2 ^ 96) 0)) primes64.

(** The initial hash value: the first 32 bits of the fractional parts of
    the square roots of the first eight primes. *)
Definition initial_hash : list N :=
  Eval vm_compute in map (λ p, wrap (N.sqrt (p * 2 ^ 64))) (firstn 8 primes64).

(** Padding: a 1 bit, zeros up to 56 mod 64 bytes, the bit length on 8 bytes. *)
Definition be_bytes (k : nat) (x : N) : list N :=
  map (λ i, N.land (N.shiftr x (8 * N.of_nat i)) 255) (rev (seq 0 k)).

Definition pad (msg : list N) : list N :=
  let len := length msg in
  let zeros := ((64 - (len + 9) mod 64) mod 64)%nat in
  msg ++ [128] ++ repeat 0 zeros ++ be_bytes 8 (8 * N.of_nat len).

Fixpoint be_word (bs : list N) (acc : N) : N :=
  match bs with
  | [] => acc
  | b :: r => be_word r (acc * 256 + b)
  end.

(** The sixteen words of a 64-byte block. *)
Fixpoint block_words (k : nat) (bs : list N) : list N :=
  match k with
  | O => []
  | S j => be_word (firstn 4 bs) 0 :: block_words j (skipn 4 bs)
  end.

(** Message schedule: [w] holds the sixteen most recent words, oldest first. *)
Fixpoint schedule (k : nat) (w : list N) : list N :=
  match k with
  | O => []
  | S j =>
      let nw := add32 (add32 (small_sigma1 (nth 14 w 0)) (nth 9 w 0))
                      (add32 (small_sigma0 (nth 1 w 0)) (nth 0 w 0)) in
      nw :: schedule j (skipn 1 w ++ [nw])
  end.

Record state := State { sa : N; sb : N; sc : N; sd : N; se : N; sf : N; sg : N; sh : N }.

Definition round (s : state) (kw : N * N) : state :=
  let t1 := add32 (add32 (add32 (sh s) (big_sigma1 (se s)))
                         (add32 (choose (se s) (sf s) (sg s)) kw.1)) kw.2 in
  let t2 := add32 (big_sigma0 (sa s)) (majority (sa s) (sb s) (sc s)) in
  State (add32 t1 t2) (sa s) (sb s) (sc s) (add32 (sd s) t1) (se s) (sf s) (sg s).

Definition compress (h : state) (block : list N) : state :=
  let w16 := block_words 16 block in
  let w := w16 ++ schedule 48 w16 in
  let r := fold_left round (combine round_constants w) h in
  State (add32 (sa h) (sa r)) (add32 (sb h) (sb r)) (add32 (sc h) (sc r))
        (add32 (sd h) (sd r)) (add32 (se h) (se r)) (add32 (sf h) (sf r))
        (add32 (sg h) (sg r)) (add32 (sh h) (sh r)).

Fixpoint blocks (k : nat) (h : state) (bs : list N) : state :=
  match k with
  | O => h
  | S j => blocks j (compress h (firstn 64 bs)) (skipn 64 bs)
  end.

Definition start : state :=
  match initial_hash with
  | [a; b; c; d; e; f; g; h] => State a b c d e f g h
  | _ => State 0 0 0 0 0 0 0 0
  end.

Definition digest (msg : list N) : state :=
  let p := pad msg in blocks (length p / 64) start p.

Definition hex_digit (n : N) : ascii :=
  ascii_of_N (if n <? 10 then 48 + n else 87 + n).

(** Eight hexadecimal digits of a word, most significant first. *)
Definition hex_word (x : N) : string :=
  fold_right (λ i acc, String (hex_digit (N.land (N.shiftr x (4 * N.of_nat i)) 15)) acc)
             "" (rev (seq 0 8)).

Definition hexdigest (msg : list N) : string :=
  let s := digest msg in
  hex_word (sa s) +:+ hex_word (sb s) +:+ hex_word (sc s) +:+ hex_word (sd s) +:+
  hex_word (se s) +:+ hex_word (sf s) +:+ hex_word (sg s) +:+ hex_word (sh s).

End Sha256.

(** [hashlib.sha256(s.encode()).hexdigest()] *)
Definition sha256_hex (s : string) : string := Sha256.hexdigest (PyStr.encode s).


(** ** Deduplication keys and content hashes ([app/utils/dedupe.py]) *)

(** A code snippet dictionary as ingestion and enrichment handle it: the
    extractor's keys and the keys that enrichment adds, each of them
    absent ([None]) or holding a string (a list of strings, for the last
    two). *)
Record Snippet := mkSnippet {
  language : option string;
  code : option string;
  context : option string;
  intent : option string;
  dependencies : option (list string);
  pitfalls : option (list string)
}.

Module Dedupe.

Definition normalize_url (source_url : string) : string :=
  PyStr.lower (PyStr.rstrip_by PyStr.is_slash source_url).

Definition key_string (source_type source_url : string) : string :=
  source_type +:+ "::" +:+ normalize_url source_url.

Definition generate_dedupe_key (source_type source_url : string) : string :=
  let key_string := key_string source_type source_url in
  if decide (String.length key_string ≤ 500) then key_string
  else sha256_hex key_string.

(** [f"{snippet.get('language', '')}::{snippet.get('code', '')}"] on a
    snippet whose language and code are strings where it has them, as
    [process_item] hashes it; [Dict.snippet_str] below is the same line
    on any dictionary. *)
Definition snippet_str (snippet : Snippet) : string :=
  default "" (language snippet) +:+ "::" +:+ default "" (code snippet).

Definition content_parts (title body_text : option string)
    (code_snippets : option (list Snippet)) : list string :=
  [default "" title; default "" body_text]
  ++ map snippet_str (default [] code_snippets).

Definition content_string (title body_text : option string)
    (code_snippets : option (list Snippet)) : string :=
  PyStr.join "|||" (content_parts title body_text code_snippets).

Definition generate_content_hash (title body_text : option string)
    (code_snippets : option (list Snippet)) : string :=
  sha256_hex (content_string title body_text code_snippets).

(** [generate_content_hash] on the dictionaries that a caller may hand
    it: any keys, each holding [None] or a string. *)
Module Dict.

Inductive Value :=
  | NoneValue
  | StrValue (s : string).

(** [str(v)], which is what an f-string writes for [v]. *)
Definition str (v : Value) : string :=
  match v with
  | NoneValue => "None"
  | StrValue s => s
  end.

(** [snippet.get(key, '')] *)
Definition get (key : string) (snippet : gmap string Value) : Value :=
  default (StrValue "") (snippet !! key).

Definition snippet_str (snippet : gmap string Value) : string :=
  str (get "language" snippet) +:+ "::" +:+ str (get "code" snippet).

Definition content_parts (title body_text : option string)
    (code_snippets : option (list (gmap string Value))) : list string :=
  [default "" title; default "" body_text]
  ++ map snippet_str (default [] code_snippets).

Definition content_string (title body_text : option string)
    (code_snippets : option (list (gmap string Value))) : string :=
  PyStr.join "|||" (content_parts title body_text code_snippets).

Definition generate_content_hash (title body_text : option string)
    (code_snippets : option (list (gmap string Value))) : string :=
  sha256_hex (content_string title body_text code_snippets).

End Dict.

End Dedupe.

(** ** The stored record ([app/db/models.py]) *)

Record KnowledgeItem := mkItem {
  id : option N;
  source_type : string;
  source_name : string;
  source_url : string;
  title : string;
  summary : option string;
  body_text : option string;
  code_snippets : option (list Snippet);
  tags : list string;
  primary_language : option string;
  framework : option string;
  author : option string;
  licence : option string;
  published_at : option Z;
  found_at : option Z;
  updated_at : option Z;
  content_hash : string;
  dedupe_key : string;
  ai_summary : option string;
  ai_tags : option (list string);
  ai_primary_language : option string;
  ai_framework : option string;
  ai_quality_score : option float;
  ai_extracted_at : option Z;
  embedding : option (list float)
}.

(** ** Ingestion ([app/ingest/base.py]) *)

Module Ingest.

(** A raw item as a connector yields it; [None] is an absent key. *)
Record RawItem := mkRaw {
  raw_content : option string;
  raw_content_type : option string;
  raw_source_url : option string;
  raw_title : option string;
  raw_summary : option string;
  raw_tags : option (list string);
  raw_framework : option string;
  raw_author : option string;
  raw_licence : option string;
  raw_published_at : option Z
}.

(** What the content normalizer hands back for one document. *)
Record Extracted := mkExtracted {
  ex_snippets : list Snippet;
  ex_body_text : string;
  ex_summary : string
}.

(** The content normalizer and the connector's fetch, both outside the
    core. [None] stands for a raised exception. *)
Class Connector := {
  conn_source_name : string;
  conn_source_type : string;
  fetch_items : option (list RawItem);
  extract_markdown : string → option Extracted;
  extract_html : string → option Extracted;
  (** [normalize_language_name(detect_language_from_code(code, hint))] *)
  detect_language : string → option string → string;
  (** [max(set(languages), key=languages.count)] on a non-empty list *)
  most_common : list string → string
}.

Record Stats := mkStats {
  fetched : nat; processed : nat; stored : nat; indexed : nat; skipped : nat
}.

(** The session's table, the next primary key, the database's clock and
    the documents sent to the search index, oldest first. Adding,
    committing and indexing always succeed here: failures of the store
    itself are outside the embedding. *)
Record World := mkWorld {
  rows : list KnowledgeItem;
  next_id : N;
  db_now : Z;
  index_docs : list KnowledgeItem
}.

Section Connector.
Context `{Connector}.

Definition relabel (snippet : Snippet) : option Snippet :=
  c ← code snippet;
  Some (mkSnippet (Some (detect_language c (language snippet))) (code snippet)
          (context snippet) (intent snippet) (dependencies snippet) (pitfalls snippet)).

Definition primary_of (snippets : list Snippet) : option string :=
  let languages :=
    List.filter (λ l, negb (String.eqb l "text")) (omap language snippets) in
  match languages with
  | [] => None
  | _ => Some (most_common languages)
  end.

(** [a or b] on optional strings *)
Definition or_else (a b : option string) : option string :=
  match a with
  | Some s => if PyStr.truthy s then a else b
  | None => b
  end.

Definition process_item (raw_item : RawItem) : option KnowledgeItem :=
  let content := default "" (raw_content raw_item) in
  let content_type := default "html" (raw_content_type raw_item) in
  ex ← (if String.eqb content_type "markdown" then extract_markdown content
        else extract_html content);
  code_snippets ← mapM relabel (ex_snippets ex);
  let primary_language := primary_of code_snippets in
  source_url ← raw_source_url raw_item;
  let dedupe_key := Dedupe.generate_dedupe_key conn_source_type source_url in
  let content_hash :=
    Dedupe.generate_content_hash (Some (default "" (raw_title raw_item)))
      (Some (ex_body_text ex)) (Some code_snippets) in
  Some {|
    id := None;
    source_type := conn_source_type;
    source_name := conn_source_name;
    source_url := source_url;
    title := default "Untitled" (raw_title raw_item);
    summary := or_else (Some (ex_summary ex)) (raw_summary raw_item);
    body_text := Some (ex_body_text ex);
    code_snippets := Some code_snippets;
    tags := default [] (raw_tags raw_item);
    primary_language := primary_language;
    framework := raw_framework raw_item;
    author := raw_author raw_item;
    licence := raw_licence raw_item;
    published_at := raw_published_at raw_item;
    found_at := None;
    updated_at := None;
    content_hash := content_hash;
    dedupe_key := dedupe_key;
    ai_summary := None; ai_tags := None; ai_primary_language := None;
    ai_framework := None; ai_quality_score := None; ai_extracted_at := None;
    embedding := None
  |}.

(** [db_session.query(KnowledgeItem).filter(dedupe_key == k).first()] *)
Definition find_existing (k : string) (table : list KnowledgeItem)
    : option (nat * KnowledgeItem) :=
  list_find (λ r, dedupe_key r = k) table.

(** The update loop: every attribute the new object carries, [id] apart,
    is set on the existing row; the row's other columns stay, and
    [updated_at] is refreshed by the flush. *)
Definition overwrite (existing item : KnowledgeItem) (now : Z) : KnowledgeItem :=
  {|
    id := id existing;
    source_type := source_type item;
    source_name := source_name item;
    source_url := source_url item;
    title := title item;
    summary := summary item;
    body_text := body_text item;
    code_snippets := code_snippets item;
    tags := tags item;
    primary_language := primary_language item;
    framework := framework item;
    author := author item;
    licence := licence item;
    published_at := published_at item;
    found_at := found_at existing;
    updated_at := Some now;
    content_hash := content_hash item;
    dedupe_key := dedupe_key item;
    ai_summary := ai_summary existing;
    ai_tags := ai_tags existing;
    ai_primary_language := ai_primary_language existing;
    ai_framework := ai_framework existing;
    ai_quality_score := ai_quality_score existing;
    ai_extracted_at := ai_extracted_at existing;
    embedding := embedding existing
  |}.

(** [db_session.add(item)] and the flush: the defaults of the columns. *)
Definition fresh_row (item : KnowledgeItem) (key : N) (now : Z) : KnowledgeItem :=
  {|
    id := Some key;
    source_type := source_type item;
    source_name := source_name item;
    source_url := source_url item;
    title := title item;
    summary := summary item;
    body_text := body_text item;
    code_snippets := code_snippets item;
    tags := tags item;
    primary_language := primary_language item;
    framework := framework item;
    author := author item;
    licence := licence item;
    published_at := published_at item;
    found_at := Some now;
    updated_at := Some now;
    content_hash := content_hash item;
    dedupe_key := dedupe_key item;
    ai_summary := ai_summary item;
    ai_tags := ai_tags item;
    ai_primary_language := ai_primary_language item;
    ai_framework := ai_framework item;
    ai_quality_score := ai_quality_score item;
    ai_extracted_at := ai_extracted_at item;
    embedding := embedding item
  |}.

Definition bump_processed (s : Stats) : Stats :=
  mkStats (fetched s) (S (processed s)) (stored s) (indexed s) (skipped s).
Definition bump_skipped (s : Stats) : Stats :=
  mkStats (fetched s) (processed s) (stored s) (indexed s) (S (skipped s)).
Definition bump_stored (s : Stats) : Stats :=
  mkStats (fetched s) (processed s) (S (stored s)) (indexed s) (skipped s).
Definition bump_indexed (s : Stats) : Stats :=
  mkStats (fetched s) (processed s) (stored s) (S (indexed s)) (skipped s).

(** What the loop does with one processed item. *)
Inductive Action := Inserted | Skipped | Updated.

Definition store_item (item : KnowledgeItem) (w : World) : Action * World :=
  match find_existing (dedupe_key item) (rows w) with
  | Some (i, existing) =>
      if decide (content_hash existing = content_hash item) then (Skipped, w)
      else
        let row := overwrite existing item (db_now w) in
        (Updated,
         mkWorld (<[i := row]> (rows w)) (next_id w) (db_now w) (index_docs w ++ [row]))
  | None =>
      let row := fresh_row item (next_id w) (db_now w) in
      (Inserted,
       mkWorld (rows w ++ [row]) (N.succ (next_id w)) (db_now w) (index_docs w ++ [row]))
  end.

Definition count (a : Action) (s : Stats) : Stats :=
  match a with
  | Skipped => bump_skipped s
  | Inserted | Updated => bump_indexed (bump_stored s)
  end.

(** One turn of the loop over [raw_items]. *)
Definition ingest_step (acc : Stats * World) (raw_item : RawItem) : Stats * World :=
  match process_item raw_item with
  | None => acc
  | Some item =>
      let r := store_item item acc.2 in
      (count r.1 (bump_processed acc.1), r.2)
  end.

Definition ingest (w : World) : Stats * World :=
  let stats := mkStats 0 0 0 0 0 in
  match fetch_items with
  | None => (stats, w)
  | Some raw_items =>
      fold_left ingest_step raw_items
        (mkStats (length raw_items) 0 0 0 0, w)
  end.

End Connector.

End Ingest.

(** ** The AI rate limiter ([app/ai/rate_limit.py]) *)

(** The limiter on a clock of whole ticks: the readings, the window and
    the timestamps are integers, and their sums and differences are
    exact. [AIRateLimiter64] below is the limiter on the binary64
    readings of [time.time()]. *)
Module AIRateLimiter.

#[local] Open Scope Z_scope.

(** [self.lock] is an [asyncio.Lock]: [locked] says whether it is held. *)
Record Limiter := mkLimiter {
  max_requests : Z;
  window_seconds : Z;
  requests : list Z;
  locked : bool
}.

Definition with_requests (l : Limiter) (rs : list Z) : Limiter :=
  mkLimiter (max_requests l) (window_seconds l) rs (locked l).
Definition with_lock (l : Limiter) (b : bool) : Limiter :=
  mkLimiter (max_requests l) (window_seconds l) (requests l) b.

(** How a call of [acquire] ends: it returns, or it waits for ever for a
    lock that only its own caller can release. Both carry the limiter,
    the clock and the sleeps made so far. *)
Inductive Outcome :=
  | Returned (l : Limiter) (now : Z) (slept : list Z)
  | Blocked (l : Limiter) (now : Z) (slept : list Z)
  | OutOfFuel.

(** [min(xs)] of a non-empty list *)
Definition minimum (x : Z) (xs : list Z) : Z := foldr Z.min x xs.

(** [acquire()] called at clock [now]. [async with self.lock] is entered
    first; a sleep moves the clock on by its length; the retry is the
    call [await self.acquire()] made inside the [async with] block. *)
Fixpoint acquire (fuel : nat) (l : Limiter) (now : Z) (slept : list Z) : Outcome :=
  match fuel with
  | O => OutOfFuel
  | S fuel' =>
      if locked l then Blocked l now slept
      else
        let window_start := now - window_seconds l in
        let reqs := filter (λ req_time, window_start < req_time) (requests l) in
        if decide (Z.of_nat (length reqs) < max_requests l) then
          Returned (with_requests l (reqs ++ [now])) now slept
        else
          match reqs with
          | [] => Returned (with_requests l (reqs ++ [now])) now slept
          | r :: rest =>
              let oldest_request := minimum r rest in
              let wait_until := oldest_request + window_seconds l in
              let wait_seconds := Z.max 0 (wait_until - now) in
              if decide (0 < wait_seconds) then
                match acquire fuel' (with_lock (with_requests l reqs) true)
                        (now + wait_seconds) (slept ++ [wait_seconds]) with
                | Returned l' now' slept' => Returned (with_lock l' false) now' slept'
                | other => other
                end
              else Returned (with_requests l (reqs ++ [now])) now slept
          end
  end.

End AIRateLimiter.

(** The same limiter on the clock that the code reads: [time.time()]
    gives binary64 floats, the sums and differences of [acquire] round,
    and the timestamp that [acquire] appends on its last line is a second
    reading of the clock. *)
Module AIRateLimiter64.

(** [window_seconds] is the window as the float to which
    [now - self.window_seconds] converts it. *)
Record Limiter := mkLimiter {
  max_requests : Z;
  window_seconds : float;
  requests : list float;
  locked : bool
}.

Definition with_requests (l : Limiter) (rs : list float) : Limiter :=
  mkLimiter (max_requests l) (window_seconds l) rs (locked l).
Definition with_lock (l : Limiter) (b : bool) : Limiter :=
  mkLimiter (max_requests l) (window_seconds l) (requests l) b.

(** How a call of [acquire] ends: it returns, or it waits for ever for a
    lock that only its own caller can release. Both carry the limiter,
    the number of clock readings and the sleeps made so far. *)
Inductive Outcome :=
  | Returned (l : Limiter) (reads : nat) (slept : list float)
  | Blocked (l : Limiter) (reads : nat) (slept : list float)
  | OutOfFuel.

(** [min(xs)] of a non-empty list: the first element than which no later
    one is less. *)
Definition min (x : float) (xs : list float) : float :=
  fold_left (λ least t, if (t <? least)%float then t else least) xs x.

(** [max(a, b)]: [a], unless [b] is greater. *)
Definition max (a b : float) : float := if (a <? b)%float then b else a.

Section Clock.
(** [time.time()]: its readings, one after the other. *)
Variable time : nat → float.

(** [acquire()] when the clock has been read [reads] times. *)
Fixpoint acquire (fuel : nat) (l : Limiter) (reads : nat) (slept : list float) : Outcome :=
  match fuel with
  | O => OutOfFuel
  | S fuel' =>
      if locked l then Blocked l reads slept
      else
        let now := time reads in
        let window_start := (now - window_seconds l)%float in
        let reqs :=
          List.filter (λ req_time, (window_start <? req_time)%float) (requests l) in
        if decide (Z.of_nat (length reqs) < max_requests l)%Z then
          Returned (with_requests l (reqs ++ [now])) (S reads) slept
        else
          match reqs with
          | [] => Returned (with_requests l (reqs ++ [time (S reads)])) (S (S reads)) slept
          | r :: rest =>
              let oldest_request := min r rest in
              let wait_until := (oldest_request + window_seconds l)%float in
              let wait_seconds := max 0%float (wait_until - now)%float in
              if (0 <? wait_seconds)%float then
                match acquire fuel' (with_lock (with_requests l reqs) true)
                        (S reads) (slept ++ [wait_seconds]) with
                | Returned l' reads' slept' => Returned (with_lock l' false) reads' slept'
                | other => other
                end
              else
                Returned (with_requests l (reqs ++ [time (S reads)])) (S (S reads)) slept
          end
  end.

End Clock.

End AIRateLimiter64.

(** ** The per-domain rate limiter ([app/utils/rate_limit.py]) *)

Module RateLimiter.

#[local] Open Scope Z_scope.

Record Limiter := mkLimiter {
  max_requests : Z;
  window_seconds : Z;
  requests : gmap string (list Z)
}.

Section Domain.
(** [urlparse(url).netloc] *)
Variable netloc : string → string.

Definition _get_domain (url : string) : string := PyStr.lower (netloc url).

(** [can_make_request(url)] at clock [now]: the limiter with the domain's
    old timestamps dropped, the verdict and the wait. *)
Definition can_make_request (l : Limiter) (url : string) (now : Z)
    : Limiter * (bool * Z) :=
  let domain := _get_domain url in
  let window_start := now - window_seconds l in
  let reqs := filter (λ ts, window_start < ts) (default [] (requests l !! domain)) in
  let l' := mkLimiter (max_requests l) (window_seconds l) (<[domain := reqs]> (requests l)) in
  if decide (Z.of_nat (length reqs) < max_requests l) then (l', (true, 0))
  else
    match reqs with
    | [] => (l', (true, 0))
    | r :: rest =>
        let oldest_request := AIRateLimiter.minimum r rest in
        let wait_until := oldest_request + window_seconds l in
        (l', (false, Z.max 0 (wait_until - now)))
    end.

Definition record_request (l : Limiter) (url : string) (now : Z) : Limiter :=
  let domain := _get_domain url in
  mkLimiter (max_requests l) (window_seconds l)
    (<[domain := default [] (requests l !! domain) ++ [now]]> (requests l)).

(** [wait_if_needed(url)]: the limiter and the clock when it returns. *)
Definition wait_if_needed (l : Limiter) (url : string) (now : Z) : Limiter * Z :=
  let r := can_make_request l url now in
  if r.2.1 then (r.1, now) else (r.1, now + r.2.2).

End Domain.

End RateLimiter.

(** ** Query construction ([app/api/search.py]) *)

Module Search.

#[local] Open Scope Z_scope.

Inductive Clause :=
  | MatchAll
  | ScriptScore (query : Clause) (source : string) (query_vector : list float)
  | MultiMatch (query : string) (fields : list string) (type fuzziness : string)
  | Term (field value : string)
  | Terms (field : string) (values : list string)
  | RangeGte (field gte : string).

(** The ["bool"] object: a key is present exactly when its field is [Some]. *)
Record BoolQuery := mkBool {
  must : option (list Clause);
  should : option (list Clause);
  minimum_should_match : option Z;
  filter_ : option (list Clause)
}.

Inductive SortKey :=
  | SortField (field order missing : string)
  | SortScore.

(** One highlighted field with its [fragment_size] and [number_of_fragments]. *)
Record HighlightField := mkHighlight {
  hl_field : string;
  hl_options : option (Z * Z)
}.

Record SearchRequest := mkRequest {
  query : BoolQuery;
  from_ : Z;
  size_ : Z;
  sort : list SortKey;
  highlight : option (list HighlightField)
}.

Record Params := mkParams {
  q : option string;
  p_source_type : option string;
  p_primary_language : option string;
  p_framework : option string;
  p_tags : option (list string);
  from_date : option string;
  semantic : bool;
  hybrid : bool;
  query_embedding : option (list float);
  page : Z;
  size : Z
}.

(** Truth value of an optional string and of an optional list. *)
Definition given (s : option string) : option string :=
  match s with
  | Some v => if PyStr.truthy v then Some v else None
  | None => None
  end.

Definition given_list {A} (l : option (list A)) : option (list A) :=
  match l with
  | Some (x :: r) => Some (x :: r)
  | _ => None
  end.

(** [clauses if clauses else absent] *)
Definition present (cs : list Clause) : option (list Clause) :=
  match cs with [] => None | _ => Some cs end.

Definition vector_query (query_embedding : list float) : Clause :=
  ScriptScore MatchAll "cosineSimilarity(params.query_vector, 'embedding') + 1.0"
    query_embedding.

Definition keyword_query (q : string) : Clause :=
  MultiMatch q ["title^3"; "title.autocomplete^2"; "body_text"; "code_snippets.code"]
    "best_fields" "AUTO".

Definition is_keyword (c : Clause) : bool :=
  match c with MultiMatch _ _ _ _ => true | _ => false end.

Definition build_search_query (p : Params) : SearchRequest :=
  (* Semantic search (vector similarity) *)
  let '(must1, should1) :=
    if semantic p || hybrid p then
      match given_list (query_embedding p) with
      | Some v =>
          if semantic p && negb (hybrid p) then ([vector_query v], [])
          else if hybrid p then ([], [vector_query v])
          else ([], [])
      | None => ([], [])
      end
    else ([], []) in
  (* Keyword/text search query *)
  let '(must2, should2) :=
    match given (q p) with
    | Some text =>
        if semantic p && negb (hybrid p) then (must1, should1)
        else if hybrid p then (must1, should1 ++ [keyword_query text])
        else (must1 ++ [keyword_query text], should1)
    | None =>
        if negb (semantic p) then (must1 ++ [MatchAll], should1)
        else (must1, should1)
    end in
  (* Filters *)
  let filter_clauses :=
    match given (p_source_type p) with
    | Some v => [Term "source_type" v] | None => [] end
    ++ match given (p_primary_language p) with
       | Some v => [Term "primary_language" (PyStr.lower v)] | None => [] end
    ++ match given (p_framework p) with
       | Some v => [Term "framework" (PyStr.lower v)] | None => [] end
    ++ match given_list (p_tags p) with
       | Some v => [Terms "tags" v] | None => [] end
    ++ match given (from_date p) with
       | Some v => [RangeGte "published_at" v] | None => [] end in
  let query :=
    mkBool (present must2) (present should2)
      (match should2 with
       | [] => None
       | _ => Some (if hybrid p then 1 else 0)
       end)
      (present filter_clauses) in
  mkRequest query ((page p - 1) * size p) (size p)
    [SortField "published_at" "desc" "_last"; SortScore]
    (match given (q p) with
     | Some _ =>
         Some [mkHighlight "title" None;
               mkHighlight "body_text" (Some (150, 2));
               mkHighlight "code_snippets.code" (Some (200, 1))]
     | None => None
     end).

End Search.

(** ** Validation of AI responses ([app/ai/schemas.py]) *)

(** What [json.loads] returns. *)
#[local] Unset Elimination Schemes.
Inductive Json :=
  | JNull
  | JBool (b : bool)
  | JNum (x : float)
  | JStr (s : string)
  | JArr (items : list Json)
  | JObj (members : list (string * Json)).
#[local] Set Elimination Schemes.

(** The exceptions the handlers tell apart. [JSONDecodeError] and
    pydantic's [ValidationError] are subclasses of [ValueError]. *)
Inductive Exn :=
  | JSONDecodeError
  | ValidationError
  | ValueError
  | TypeError
  | UnboundLocalError
  | OtherError (message : string).

Definition is_value_error (e : Exn) : bool :=
  match e with
  | JSONDecodeError | ValidationError | ValueError => true
  | _ => false
  end.

Module Schemas.

(** The keyword arguments of [CodeSnippetEnrichment(...)], already of the
    field's type; [None] is an argument that was not given. *)
Record CodeSnippetInput := mkSnippetInput {
  in_intent : option string;
  in_dependencies : option (list string);
  in_pitfalls : option (list string)
}.

Record CodeSnippetEnrichment := mkSnippetEnrichment {
  e_intent : string;
  e_dependencies : list string;
  e_pitfalls : list string
}.

Record EnrichmentInput := mkEnrichmentInput {
  in_summary : option string;
  in_tags : option (list string);
  in_primary_language : option string;
  in_framework : option string;
  in_quality_score : option float;
  in_code_snippets : option (list CodeSnippetInput)
}.

Record KnowledgeItemEnrichment := mkEnrichment {
  e_summary : string;
  e_tags : list string;
  e_primary_language : option string;
  e_framework : option string;
  e_quality_score : float;
  e_code_snippets : list CodeSnippetEnrichment
}.

Record AskInput := mkAskInput {
  in_answer : option string;
  in_confidence : option float
}.

Record AskResponse := mkAskResponse {
  answer : string;
  confidence : float
}.

(** [ge=0.0, le=1.0] *)
Definition in_unit_interval (x : float) : bool :=
  (PrimFloat.leb 0 x && PrimFloat.leb x 1)%float.

Definition normalize_tag (tag : string) : string :=
  PyStr.replace_space_hyphen (PyStr.strip (PyStr.lower tag)).

(** The validator of [tags]. *)
Definition validate_tags (v : list string) : list string :=
  map normalize_tag (List.filter (λ tag, PyStr.truthy (PyStr.strip tag)) v).

Definition validate_snippet (i : CodeSnippetInput) : option CodeSnippetEnrichment :=
  intent ← in_intent i;
  Some (mkSnippetEnrichment intent (default [] (in_dependencies i))
          (default [] (in_pitfalls i))).

(** [KnowledgeItemEnrichment] built from keyword arguments: [None] is a [ValidationError]. The
    constraints of a field are checked before its validator runs. *)
Definition validate_enrichment (i : EnrichmentInput) : option KnowledgeItemEnrichment :=
  summary ← in_summary i;
  guard (String.length summary ≤ 500);;
  tags ← in_tags i;
  guard (length tags ≤ 15);;
  quality_score ← in_quality_score i;
  guard (in_unit_interval quality_score = true);;
  code_snippets ← mapM validate_snippet (default [] (in_code_snippets i));
  Some (mkEnrichment summary (validate_tags tags) (in_primary_language i)
          (in_framework i) quality_score code_snippets).

(** [AskResponse] built from keyword arguments *)
Definition validate_ask (i : AskInput) : option AskResponse :=
  answer ← in_answer i;
  confidence ← in_confidence i;
  guard (in_unit_interval confidence = true);;
  Some (mkAskResponse answer confidence).

(** The library side of parsing: [json.loads] ([None] is a
    [JSONDecodeError]) and the reading of an object's members as keyword
    arguments of the right types ([None] is a [ValidationError]). *)
Class JsonLib := {
  json_loads : string → option Json;
  enrichment_kwargs : list (string * Json) → option EnrichmentInput;
  ask_kwargs : list (string * Json) → option AskInput
}.

(** The removal of Markdown code fences around a response. *)
Definition strip_fences (response_text : string) : string :=
  let response_text := PyStr.strip response_text in
  if PyStr.startswith "```" response_text then
    PyStr.join (String "010"%char "")
      (List.filter (λ l, negb (PyStr.startswith "```" (PyStr.strip l)))
         (PyStr.split_lines response_text))
  else response_text.

Section Parsing.
Context `{JsonLib}.

(** A model built from the keyword arguments [json.loads(text)] unpacks
    to: unpacking anything but an object is a [TypeError]. *)
Definition construct {I M} (kwargs : list (string * Json) → option I)
    (validate : I → option M) (text : string) : Exn + M :=
  match json_loads text with
  | None => inl JSONDecodeError
  | Some (JObj members) =>
      match kwargs members ≫= validate with
      | Some m => inr m
      | None => inl ValidationError
      end
  | Some _ => inl TypeError
  end.

Definition parse_enrichment (response_text : string) : Exn + KnowledgeItemEnrichment :=
  construct enrichment_kwargs validate_enrichment (strip_fences response_text).

Definition parse_ask (response_text : string) : Exn + AskResponse :=
  construct ask_kwargs validate_ask (strip_fences response_text).

End Parsing.

End Schemas.

(** ** The enrichment task ([app/tasks/enrich.py]) *)

Module Enrich.

Import Schemas.

Inductive Status :=
  | StatusError (message : string)
  | StatusSuccess (item_id : N).

(** How one run of the task ends: it returns a status, asks the queue for
    a retry after [countdown] seconds, or fails with an exception. *)
Inductive TaskResult :=
  | Return (status : Status)
  | Retry (countdown : Z)
  | Raise (exc : Exn).

Definition max_retries : nat := 3.

(** What the run meets outside: the provider, the call that waits for the
    rate limiter and generates the text, the clock, and how many retries
    the queue has already made. *)
Record Env := mkEnv {
  provider_available : bool;
  call_result : Exn + string;
  utcnow : Z;
  retries : nat
}.

(** [self.retry(exc=e, countdown=60)] *)
Definition retry (env : Env) (e : Exn) (countdown : Z) : TaskResult :=
  if decide (retries env < max_retries) then Retry countdown else Raise e.

(** The merge of enrichment entries into the snippets, by position. *)
Fixpoint merge_snippets (snippets : list Snippet) (es : list CodeSnippetEnrichment)
    : list Snippet :=
  match snippets, es with
  | s :: ss, e :: es' =>
      mkSnippet (language s) (code s) (context s) (Some (e_intent e))
        (Some (e_dependencies e)) (Some (e_pitfalls e))
      :: merge_snippets ss es'
  | _, [] => snippets
  | [], _ => []
  end.

Definition apply_enrichment (item : KnowledgeItem) (e : KnowledgeItemEnrichment)
    (now : Z) : KnowledgeItem :=
  {|
    id := id item;
    source_type := source_type item;
    source_name := source_name item;
    source_url := source_url item;
    title := title item;
    summary := summary item;
    body_text := body_text item;
    code_snippets := Some (merge_snippets (default [] (code_snippets item)) (e_code_snippets e));
    tags := tags item;
    primary_language := primary_language item;
    framework := framework item;
    author := author item;
    licence := licence item;
    published_at := published_at item;
    found_at := found_at item;
    updated_at := Some now;
    content_hash := content_hash item;
    dedupe_key := dedupe_key item;
    ai_summary := Some (e_summary e);
    ai_tags := Some (e_tags e);
    ai_primary_language := e_primary_language e;
    ai_framework := e_framework e;
    ai_quality_score := Some (e_quality_score e);
    ai_extracted_at := Some now;
    embedding := embedding item
  |}.

Section Task.
Context `{JsonLib}.

(** [enrich_knowledge_item(item_id)] over the table [db]: the result and
    the table as the run leaves it. *)
Definition enrich_knowledge_item (env : Env) (db : list KnowledgeItem) (item_id : N)
    : TaskResult * list KnowledgeItem :=
  match list_find (λ r, id r = Some item_id) db with
  | None => (Return (StatusError "Item not found"), db)
  | Some (i, item) =>
      if negb (provider_available env) then
        (Return (StatusError "AI provider not configured"), db)
      else
        match call_result env with
        | inl e => (retry env e 60, db)
        | inr response_text =>
            match parse_enrichment response_text with
            | inl e =>
                if is_value_error e then
                  (Return (StatusError "Failed to parse AI response"), db)
                else (Raise e, db)
            | inr enrichment =>
                (Return (StatusSuccess item_id),
                 <[i := apply_enrichment item enrichment (utcnow env)]> db)
            end
        end
  end.

End Task.

End Enrich.

(** ** Question answering ([app/api/ask.py]) *)

Module Ask.

Import Schemas.

(** A search hit: the keys of the indexed document that [ask] reads. *)
Record Hit := mkHit {
  hit_title : option string;
  hit_source_url : option string;
  hit_source_name : option string;
  hit_id : option string
}.

Record Citation := mkCitation {
  number : nat;
  c_title : string;
  c_source_url : string;
  c_source_name : string;
  c_id : string
}.

Record Filters := mkFilters {
  f_source_type : option string;
  f_primary_language : option string;
  f_framework : option string;
  f_tags : option (list string)
}.

Record Answer := mkAnswer {
  a_answer : string;
  a_confidence : float;
  citations : list Citation;
  matched_items : list Hit
}.

(** The calls [ask_question] makes on its collaborators, in order. *)
Inductive Event :=
  | GenerateEmbedding (text : string)
  | SearchItems (p : Search.Params)
  | GenerateText (prompt : string).

(** The collaborators: the provider, the search ([None]: it raised) and
    the prompt builder. *)
Class Services := {
  provider_available : bool;
  generate_embedding : string → Exn + list float;
  search_knowledge_items : Search.Params → Exn + list Hit;
  get_ask_prompt : string → list Hit → string;
  generate_text : string → Exn + string
}.

Definition no_information : string :=
  "I couldn't find any relevant information to answer your question. Please try rephrasing or adjusting your search filters.".

Definition formatting_error : string :=
  "I found relevant information, but encountered an error formatting the response.".

Fixpoint build_citations (idx : nat) (items : list Hit) : list Citation :=
  match items with
  | [] => []
  | item :: rest =>
      mkCitation idx (default "Untitled" (hit_title item))
        (default "" (hit_source_url item)) (default "" (hit_source_name item))
        (default "" (hit_id item))
      :: build_citations (S idx) rest
  end.

Section Ask.
Context `{JsonLib} `{Services}.

Definition ask_question (question : string) (filters : option Filters)
    (top_k : nat) (semantic : bool) : list Event * (Exn + Answer) :=
  if negb provider_available then ([], inl ValueError)
  else
    let filters := default (mkFilters None None None None) filters in
    (* Generate query embedding for semantic search *)
    let '(trace, query_embedding, semantic) :=
      if semantic then
        match generate_embedding question with
        | inr v => ([GenerateEmbedding question], Some v, true)
        | inl _ => ([GenerateEmbedding question], None, false)
        end
      else ([], None, false) in
    (* Retrieve relevant items *)
    let params :=
      Search.mkParams (Some question) (f_source_type filters)
        (f_primary_language filters) (f_framework filters) (f_tags filters)
        None semantic semantic query_embedding 1 (Z.of_nat top_k) in
    let trace := trace ++ [SearchItems params] in
    match search_knowledge_items params with
    | inl e => (trace, inl e)
    | inr [] =>
        (trace, inr (mkAnswer no_information 0 [] []))
    | inr items =>
        let prompt := get_ask_prompt question items in
        let trace := trace ++ [GenerateText prompt] in
        let answer_obj :=
          match generate_text prompt with
          | inl e =>
              (* the handler of ValueError reads [response_text], which
                 was never bound *)
              if is_value_error e then inl UnboundLocalError else inl e
          | inr response_text =>
              match parse_ask response_text with
              | inr a => inr a
              | inl e =>
                  if is_value_error e then inr (mkAskResponse formatting_error 0.5)
                  else inl e
              end
          end in
        match answer_obj with
        | inl e => (trace, inl e)
        | inr a =>
            (trace,
             inr (mkAnswer (answer a) (confidence a) (build_citations 1 items)
                    (firstn top_k items)))
        end
    end.

End Ask.

End Ask.

(** ** A small feed, for examples *)

Module Feed.

(** A normalizer that takes the content as the body text and finds no
    snippet. *)
Definition plain (content : string) : option Ingest.Extracted :=
  Some (Ingest.mkExtracted [] content "").

Definition entry (url content : string) : Ingest.RawItem :=
  Ingest.mkRaw (Some content) None (Some url) (Some "A post") None None None None None None.

Definition connector (entries : list Ingest.RawItem) : Ingest.Connector :=
  {| Ingest.conn_source_name := "Feed";
     Ingest.conn_source_type := "rss";
     Ingest.fetch_items := Some entries;
     Ingest.extract_markdown := plain;
     Ingest.extract_html := plain;
     Ingest.detect_language := λ _ _, "text";
     Ingest.most_common := λ l, default "text" (head l) |}.

Definition empty_world : Ingest.World := Ingest.mkWorld [] 1 0 [].

(** Two posts at two addresses. *)
Definition two_posts : list Ingest.RawItem :=
  [entry "http://x.com/a/" "first"; entry "http://x.com/b" "second"].

(** One address, once with a trailing slash, with two contents. *)
Definition posted_twice : list Ingest.RawItem :=
  [entry "http://x.com/a/" "first"; entry "http://x.com/a" "second"].

End Feed.

(** ** A small JSON reader and provider, for examples *)

Module Replies.

Fixpoint member (key : string) (members : list (string * Json)) : option Json :=
  match members with
  | [] => None
  | (k, v) :: rest => if String.eqb k key then Some v else member key rest
  end.

(** A reader that takes a value of the field's own JSON type only. *)
Definition as_str (j : option Json) : option (option string) :=
  match j with
  | None => Some None
  | Some (JStr s) => Some (Some s)
  | Some _ => None
  end.

Definition as_num (j : option Json) : option (option float) :=
  match j with
  | None => Some None
  | Some (JNum x) => Some (Some x)
  | Some _ => None
  end.

Definition as_strs (j : option Json) : option (option (list string)) :=
  match j with
  | None => Some None
  | Some (JArr items) =>
      Some <$> mapM (λ i, match i with JStr s => Some s | _ => None end) items
  | Some _ => None
  end.

Definition ask_kwargs (members : list (string * Json)) : option Schemas.AskInput :=
  a ← as_str (member "answer" members);
  c ← as_num (member "confidence" members);
  Some (Schemas.mkAskInput a c).

Definition enrichment_kwargs (members : list (string * Json))
    : option Schemas.EnrichmentInput :=
  s ← as_str (member "summary" members);
  t ← as_strs (member "tags" members);
  l ← as_str (member "primary_language" members);
  f ← as_str (member "framework" members);
  q ← as_num (member "quality_score" members);
  Some (Schemas.mkEnrichmentInput s t l f q None).

(** A parser that knows four texts only. *)
Definition loads (text : string) : option Json :=
  if String.eqb text "[]" then Some (JArr [])
  else if String.eqb text "{}" then Some (JObj [])
  else if String.eqb text "null" then Some JNull
  else if String.eqb text "good"
  then Some (JObj [("summary", JStr "Async functions in Python");
                   ("tags", JArr [JStr "Python"; JStr "Async IO"]);
                   ("quality_score", JNum 0.75)])
  else None.

Definition lib : Schemas.JsonLib :=
  {| Schemas.json_loads := loads;
     Schemas.enrichment_kwargs := enrichment_kwargs;
     Schemas.ask_kwargs := ask_kwargs |}.

(** A stored item that has not been enriched. *)
Definition stored_item : KnowledgeItem :=
  {| id := Some 7%N; source_type := "rss"; source_name := "Feed";
     source_url := "http://x.com/a"; title := "A post"; summary := None;
     body_text := Some "first"; code_snippets := Some []; tags := [];
     primary_language := None; framework := None; author := None;
     licence := None; published_at := None; found_at := Some 0%Z;
     updated_at := Some 0%Z; content_hash := ""; dedupe_key := "rss::http://x.com/a";
     ai_summary := None; ai_tags := None; ai_primary_language := None;
     ai_framework := None; ai_quality_score := None; ai_extracted_at := None;
     embedding := None |}.

Definition hit : Ask.Hit :=
  Ask.mkHit (Some "A post") (Some "http://x.com/a") (Some "Feed") (Some "7").

(** A provider that answers every prompt with [reply], and a search that
    finds [hits]. *)
Definition services (hits : list Ask.Hit) (reply : Exn + string) : Ask.Services :=
  {| Ask.provider_available := true;
     Ask.generate_embedding := λ _, inl (OtherError "no embeddings");
     Ask.search_knowledge_items := λ _, inr hits;
     Ask.get_ask_prompt := λ question _, question;
     Ask.generate_text := λ _, reply |}.

End Replies.

(** ** The vocabulary of the specification *)

Module Spec.

(** Every character of [s] satisfies [p]. *)
Fixpoint all_chars (p : ascii → bool) (s : string) : bool :=
  match s with
  | EmptyString => true
  | String c r => p c && all_chars p r
  end.

(** [stem] is [url] with its trailing slashes stripped: what was cut off
    is slashes only, and [stem] does not end in one. *)
Definition stripped_of_slashes (url stem : string) : Prop :=
  (∃ t, url = stem +:+ t ∧ all_chars PyStr.is_slash t = true)
  ∧ ¬ ∃ s', stem = s' +:+ "/".

(** Two URLs differ only by trailing slashes or by letter case. *)
Inductive same_url : string → string → Prop :=
  | same_case s1 s2 : PyStr.lower s1 = PyStr.lower s2 → same_url s1 s2
  | same_slash s : same_url s (s +:+ "/")
  | same_sym s1 s2 : same_url s1 s2 → same_url s2 s1
  | same_trans s1 s2 s3 : same_url s1 s2 → same_url s2 s3 → same_url s1 s3.

(** The (language, code) pair of a snippet. *)
Definition pair_of (s : Snippet) : string * string :=
  (default "" (language s), default "" (code s)).

(** The dictionary holds under [language] and [code] what the snippet
    does. *)
Definition same_keys (d : gmap string Dedupe.Dict.Value) (s : Snippet) : Prop :=
  d !! "language" = Dedupe.Dict.StrValue <$> language s
  ∧ d !! "code" = Dedupe.Dict.StrValue <$> code s.

(** What the f-string writes for a snippet dictionary: its language and
    its code. *)
Definition written_pair (snippet : gmap string Dedupe.Dict.Value) : string * string :=
  (Dedupe.Dict.str (Dedupe.Dict.get "language" snippet),
   Dedupe.Dict.str (Dedupe.Dict.get "code" snippet)).

(** What the content string is built from: the title and the body text
    as [or ""] leaves them, and what is written for each snippet. *)
Definition written_fields (title body_text : option string)
    (code_snippets : option (list (gmap string Dedupe.Dict.Value)))
    : string * string * list (string * string) :=
  (default "" title, default "" body_text,
   map written_pair (default [] code_snippets)).

(** The parts of the content string, from the written fields. *)
Definition parts_of (fields : string * string * list (string * string)) : list string :=
  fields.1.1 :: fields.1.2 :: map (λ lc, lc.1 +:+ "::" +:+ lc.2) fields.2.

(** The written fields differ in one field and agree on all others. *)
Inductive one_field_apart :
    string * string * list (string * string) →
    string * string * list (string * string) → Prop :=
  | title_apart t t' b l :
      t ≠ t' → one_field_apart (t, b, l) (t', b, l)
  | body_text_apart t b b' l :
      b ≠ b' → one_field_apart (t, b, l) (t, b', l)
  | language_apart t b l l' x x' c :
      x ≠ x' → one_field_apart (t, b, l ++ (x, c) :: l') (t, b, l ++ (x', c) :: l')
  | code_apart t b l l' x c c' :
      c ≠ c' → one_field_apart (t, b, l ++ (x, c) :: l') (t, b, l ++ (x, c') :: l').

(** [sep in s] *)
Fixpoint holds (sep s : string) : bool :=
  String.prefix sep s
  || match s with
     | EmptyString => false
     | String _ r => holds sep r
     end.

(** [s.endswith(c)] for one character [c] *)
Fixpoint ends_with (c : ascii) (s : string) : bool :=
  match s with
  | EmptyString => false
  | String d EmptyString => Ascii.eqb d c
  | String _ r => ends_with c r
  end.

(** [c] repeated [n] times *)
Fixpoint run (c : ascii) (n : nat) : string :=
  match n with
  | O => ""
  | S n => String c (run c n)
  end.

(** The written fields can be read back from the content string: no part
    holds the [|||] that joins the parts, none but the last ends with a
    [|], and no language holds the [::] that follows it or ends with a
    [:]. *)
Definition unambiguous (fields : string * string * list (string * string)) : Prop :=
  Forall (λ p, holds "|||" p = false) (parts_of fields)
  ∧ Forall (λ p, ends_with "|" p = false) (removelast (parts_of fields))
  ∧ Forall (λ lc : string * string, holds "::" lc.1 = false ∧ ends_with ":" lc.1 = false)
      fields.2.

(** No character of [s] satisfies [p]. *)
Definition free_of (p : ascii → bool) (s : string) : Prop :=
  all_chars (λ c, negb (p c)) s = true.

(** The row carries the content and metadata of the processed item: every
    attribute that [process_item] sets. *)
Definition same_content (row item : KnowledgeItem) : Prop :=
  source_type row = source_type item ∧ source_name row = source_name item
  ∧ source_url row = source_url item ∧ title row = title item
  ∧ summary row = summary item ∧ body_text row = body_text item
  ∧ code_snippets row = code_snippets item ∧ tags row = tags item
  ∧ primary_language row = primary_language item ∧ framework row = framework item
  ∧ author row = author item ∧ licence row = licence item
  ∧ published_at row = published_at item
  ∧ content_hash row = content_hash item ∧ dedupe_key row = dedupe_key item.

(** [existing], at position [i], is the record the query for the key [k]
    returns: the first row of the table that has the key. *)
Definition existing_record (table : list KnowledgeItem) (k : string)
    (i : nat) (existing : KnowledgeItem) : Prop :=
  table !! i = Some existing ∧ dedupe_key existing = k
  ∧ ∀ j row, table !! j = Some row → j < i → dedupe_key row ≠ k.

(** The content hash stored under a dedupe key. *)
Definition hash_of (table : list KnowledgeItem) (k : string) : option string :=
  (λ p, content_hash p.2) <$> Ingest.find_existing k table.

(** The loop of [ingest] over the items that [process_item] accepts. *)
Definition item_step (acc : Ingest.Stats * Ingest.World) (item : KnowledgeItem)
    : Ingest.Stats * Ingest.World :=
  let r := Ingest.store_item item acc.2 in
  (Ingest.count r.1 (Ingest.bump_processed acc.1), r.2).

(** Items that share a dedupe key share their content hash. *)
Definition consistent (items : list KnowledgeItem) : Prop :=
  ∀ a b, a ∈ items → b ∈ items → dedupe_key a = dedupe_key b →
         content_hash a = content_hash b.

(** The event is a call of the generative provider. *)
Definition is_generate (e : Ask.Event) : bool :=
  match e with Ask.GenerateText _ => true | _ => false end.

(** Every clause of a bool query, whatever its role. *)
Definition clauses (b : Search.BoolQuery) : list Search.Clause :=
  default [] (Search.must b) ++ default [] (Search.should b)
  ++ default [] (Search.filter_ b).

Definition first_char (s : string) : option ascii :=
  match s with
  | EmptyString => None
  | String c _ => Some c
  end.

Fixpoint last_char (s : string) : option ascii :=
  match s with
  | EmptyString => None
  | String c EmptyString => Some c
  | String _ r => last_char r
  end.

(** A tag in normal form: not empty, no upper-case letter, no space, and
    no whitespace at either end. *)
Definition clean_tag (tag : string) : Prop :=
  tag ≠ ""
  ∧ free_of PyStr.is_upper tag
  ∧ free_of (λ c, (PyStr.code c =? 32)%N) tag
  ∧ (∀ c, first_char tag = Some c → PyStr.is_space c = false)
  ∧ (∀ c, last_char tag = Some c → PyStr.is_space c = false).

(** The AI fields of a row: all unset, or all set from one validated
    enrichment at one time. The two optional fields of the enrichment
    may be set to [None]. *)
Definition ai_unset (r : KnowledgeItem) : Prop :=
  ai_summary r = None ∧ ai_tags r = None ∧ ai_primary_language r = None
  ∧ ai_framework r = None ∧ ai_quality_score r = None ∧ ai_extracted_at r = None.

Definition ai_set_from (r : KnowledgeItem) (e : Schemas.KnowledgeItemEnrichment)
    (now : Z) : Prop :=
  ai_summary r = Some (Schemas.e_summary e) ∧ ai_tags r = Some (Schemas.e_tags e)
  ∧ ai_primary_language r = Schemas.e_primary_language e
  ∧ ai_framework r = Schemas.e_framework e
  ∧ ai_quality_score r = Some (Schemas.e_quality_score e)
  ∧ ai_extracted_at r = Some now.

Definition ai_set_together (r : KnowledgeItem) : Prop := ∃ e now, ai_set_from r e now.

Definition all_or_nothing (r : KnowledgeItem) : Prop := ai_unset r ∨ ai_set_together r.

End Spec.

(** ** More Python string operations *)

Module PyText.

(** [needle in hay] *)
Fixpoint contains (needle hay : string) : bool :=
  String.prefix needle hay
  || match hay with
     | EmptyString => false
     | String _ r => contains needle r
     end.

(** [s[:n]] for [n >= 0] *)
Fixpoint take (n : nat) (s : string) : string :=
  match n, s with
  | S k, String c r => String c (take k r)
  | _, _ => EmptyString
  end.

(** [s.endswith(p)] *)
Fixpoint endswith (p s : string) : bool :=
  String.eqb p s
  || match s with
     | EmptyString => false
     | String _ r => endswith p r
     end.

Definition is_dot (c : ascii) : bool := (PyStr.code c =? 46)%N.
Definition is_comma (c : ascii) : bool := (PyStr.code c =? 44)%N.

(** [s.strip('.')] *)
Definition strip_dots (s : string) : string :=
  PyStr.lstrip_by is_dot (PyStr.rstrip_by is_dot s).

(** [s.split(',')]: never empty, one more part than there are commas. *)
Fixpoint split_commas (s : string) : list string :=
  match s with
  | EmptyString => [""]
  | String c r =>
      if is_comma c then "" :: split_commas r
      else match split_commas r with
           | [] => [String c ""]
           | l :: ls => String c l :: ls
           end
  end.

(** The double quote. *)
Definition dquote : string := String (ascii_of_N 34) "".

End PyText.

(** ** Language detection ([app/extract/language_detect.py]) *)

Module LanguageDetect.

(** The dictionary, in the order of its keys. *)
Definition LANGUAGE_PATTERNS : list (string * list string) :=
  [("python", [".py"; "python"]);
   ("javascript", [".js"; ".jsx"; "javascript"; "js"]);
   ("typescript", [".ts"; ".tsx"; "typescript"; "ts"]);
   ("java", [".java"; "java"]);
   ("cpp", [".cpp"; ".cc"; ".cxx"; "cpp"; "c++"]);
   ("c", [".c"; "c"]);
   ("go", [".go"; "go"; "golang"]);
   ("rust", [".rs"; "rust"]);
   ("php", [".php"; "php"]);
   ("ruby", [".rb"; "ruby"]);
   ("swift", [".swift"; "swift"]);
   ("kotlin", [".kt"; "kotlin"]);
   ("scala", [".scala"; "scala"]);
   ("html", [".html"; ".htm"; "html"]);
   ("css", [".css"; "css"]);
   ("sql", [".sql"; "sql"]);
   ("json", [".json"; "json"]);
   ("xml", [".xml"; "xml"]);
   ("yaml", [".yaml"; ".yml"; "yaml"; "yml"]);
   ("bash", [".sh"; ".bash"; "bash"; "shell"; "sh"]);
   ("powershell", [".ps1"; "powershell"; "ps1"]);
   ("dockerfile", ["dockerfile"; "docker"]);
   ("markdown", [".md"; ".markdown"; "md"; "markdown"])].

Definition alias_map : list (string * string) :=
  [("js", "javascript"); ("ts", "typescript"); ("py", "python"); ("rb", "ruby");
   ("sh", "bash"); ("shell", "bash"); ("golang", "go"); ("c++", "cpp");
   ("c#", "csharp")].

(** [any(f(x) for x in xs)] *)
Definition any {A} (f : A → bool) (xs : list A) : bool := existsb f xs.

(** The first language of the dictionary one of whose patterns satisfies [f]. *)
Definition first_language (f : string → bool) : option string :=
  fst <$> List.find (λ entry, any f entry.2) LANGUAGE_PATTERNS.

(** [alias_map.get(key)] *)
Fixpoint lookup_alias (key : string) (m : list (string * string)) : option string :=
  match m with
  | [] => None
  | (k, v) :: rest => if String.eqb k key then Some v else lookup_alias key rest
  end.

Section Detect.
(** Whether [json.loads(code)] succeeds. *)
Variable json_valid : string → bool.

Definition detect_language_from_code (code : string) (hint : option string) : string :=
  let code_lower := PyStr.strip (PyStr.lower code) in
  let head := PyText.take 200 code_lower in
  let has := λ pattern, PyText.contains pattern code_lower in
  let by_hint :=
    match hint with
    | Some h =>
        if PyStr.truthy h then
          let hint_lower := PyStr.strip (PyText.strip_dots (PyStr.lower h)) in
          first_language
            (λ pattern, String.eqb pattern hint_lower || PyText.endswith pattern hint_lower)
        else None
    | None => None
    end in
  match by_hint with
  | Some lang => lang
  | None =>
      if any (λ pattern, PyText.contains pattern head)
           ["def "; "import "; "from "; "if __name__"; "print("]
         && (has "def " || has "import ")
      then "python"
      else if any (λ pattern, PyText.contains pattern head)
                ["function "; "const "; "let "; "var "; "=>"; "console.log"]
      then
        if has "export " || has "require(" then "javascript"
        else if has "interface " || has ": string" || has ": number" then "typescript"
        else "javascript"
      else if has "public class" || has "public static void main" || has "package "
      then "java"
      else if has "#include" then
        if any has ["std::"; "namespace "; "cout"; "using namespace"] then "cpp" else "c"
      else if has "package main" || has "func main()" || has "import (" then "go"
      else if has "fn main()" && has "let " || has "use " then "rust"
      else if any (λ pattern, PyText.contains pattern head)
                ["select "; "from "; "where "; "insert into"; "create table"]
      then "sql"
      else if PyStr.startswith "<!doctype" (PyStr.strip code_lower)
              || PyStr.startswith "<html" (PyStr.strip code_lower)
      then "html"
      else if (PyStr.startswith "{" (PyStr.strip code_lower)
               || PyStr.startswith "[" (PyStr.strip code_lower))
              && has PyText.dquote && json_valid code
      then "json"
      else if has "{" && has ":" && any has [";"; "}"; "@media"] then "css"
      else if PyStr.startswith "#!/bin/" code_lower
              || PyStr.startswith "#!/usr/bin/" code_lower
      then "bash"
      else "text"
  end.

End Detect.

Definition normalize_language_name (lang : string) : string :=
  if negb (PyStr.truthy lang) then "text"
  else
    let lang_lower := PyStr.strip (PyStr.lower lang) in
    match first_language (String.eqb lang_lower) with
    | Some standard_name => standard_name
    | None => default lang_lower (lookup_alias lang_lower alias_map)
    end.

End LanguageDetect.

(** ** The embedding task ([app/tasks/embed.py]) *)

Module Embed.

(** [bool(s)] for an optional string: [None] and the empty string are
    false. *)
Definition given (s : option string) : bool := PyStr.truthy (default "" s).

(** The separator of the parts: two newlines. *)
Definition blank_line : string := String "010"%char (String "010"%char "").

(** [f"Code ({lang}): {code}"] for one snippet, the code cut to 500
    characters. *)
Definition code_part (snippet : Snippet) : string :=
  "Code (" +:+ default "" (language snippet) +:+ "): "
  +:+ PyText.take 500 (default "" (code snippet)).

Definition parts (item : KnowledgeItem) : list string :=
  (if PyStr.truthy (title item) then ["Title: " +:+ title item] else [])
  ++ (if given (ai_summary item) then ["Summary: " +:+ default "" (ai_summary item)]
      else if given (summary item) then ["Summary: " +:+ default "" (summary item)]
      else [])
  ++ (if given (body_text item)
      then ["Content: " +:+ PyText.take 2000 (default "" (body_text item))]
      else [])
  ++ map code_part (firstn 3 (default [] (code_snippets item))).

Definition build_embedding_text (item : KnowledgeItem) : string :=
  PyStr.join blank_line (parts item).

Inductive Status :=
  | StatusError (message : string)
  | StatusSkipped (reason : string)
  | StatusSuccess (item_id : N) (embedding_dim : nat).

(** How one run of the task ends: it returns a status, asks the queue for
    a retry after [countdown] seconds, or fails with an exception. *)
Inductive TaskResult :=
  | Return (status : Status)
  | Retry (countdown : Z)
  | Raise (exc : Exn).

Definition max_retries : nat := 3.

(** What the run meets outside: the provider, the call that waits for the
    rate limiter and generates the embedding of a text, the database's
    clock at the flush, and how many retries the queue has already
    made. *)
Record Env := mkEnv {
  provider_available : bool;
  generate_embedding : string → Exn + list float;
  db_now : Z;
  retries : nat
}.

(** [self.retry(exc=e, countdown=60)] *)
Definition retry (env : Env) (e : Exn) (countdown : Z) : TaskResult :=
  if decide (retries env < max_retries) then Retry countdown else Raise e.

(** [item.embedding = embedding] and the commit; the flush refreshes
    [updated_at]. *)
Definition with_embedding (item : KnowledgeItem) (v : list float) (now : Z)
    : KnowledgeItem :=
  {|
    id := id item;
    source_type := source_type item;
    source_name := source_name item;
    source_url := source_url item;
    title := title item;
    summary := summary item;
    body_text := body_text item;
    code_snippets := code_snippets item;
    tags := tags item;
    primary_language := primary_language item;
    framework := framework item;
    author := author item;
    licence := licence item;
    published_at := published_at item;
    found_at := found_at item;
    updated_at := Some now;
    content_hash := content_hash item;
    dedupe_key := dedupe_key item;
    ai_summary := ai_summary item;
    ai_tags := ai_tags item;
    ai_primary_language := ai_primary_language item;
    ai_framework := ai_framework item;
    ai_quality_score := ai_quality_score item;
    ai_extracted_at := ai_extracted_at item;
    embedding := Some v
  |}.

(** The outcome of a run: the result, the table as the run leaves it, and
    the partial updates sent to the search index, each the id of a
    document and its new embedding. Whether the index accepts an update
    does not change the outcome: its failure is logged only. *)
Record Outcome := mkOutcome {
  result : TaskResult;
  table : list KnowledgeItem;
  index_updates : list (N * list float)
}.

(** [embed_knowledge_item(item_id)] over the table [db] *)
Definition embed_knowledge_item (env : Env) (db : list KnowledgeItem) (item_id : N)
    : Outcome :=
  match list_find (λ r, id r = Some item_id) db with
  | None => mkOutcome (Return (StatusError "Item not found")) db []
  | Some (i, item) =>
      if negb (provider_available env) then
        mkOutcome (Return (StatusError "AI provider not configured")) db []
      else
        let embedding_text := build_embedding_text item in
        if negb (PyStr.truthy (PyStr.strip embedding_text)) then
          mkOutcome (Return (StatusSkipped "No text content")) db []
        else
          match generate_embedding env embedding_text with
          | inl e => mkOutcome (retry env e 60) db []
          | inr v =>
              mkOutcome (Return (StatusSuccess item_id (length v)))
                (<[i := with_embedding item v (db_now env)]> db)
                [(item_id, v)]
          end
  end.

End Embed.

(** ** Running a search ([app/api/search.py], [search_knowledge_items]) *)

Module SearchRun.

#[local] Open Scope Z_scope.

(** What the function can raise: the client's own error, the missing
    [_source] of a hit, or the division by a page size of zero. *)
Inductive SearchError :=
  | ClientError (e : Exn)
  | KeyError
  | ZeroDivisionError.

Section Run.
(** The indexed document and the highlight of a hit, as the engine
    returns them. *)
Variables Doc Highlight : Type.

Record EsHit := mkEsHit {
  _source : option Doc;
  hit_highlight : option Highlight;
  _score : option float
}.

(** [hits.total]: an object with an optional [value], or a bare number. *)
Inductive Total :=
  | TotalObject (value : option Z)
  | TotalNumber (n : Z).

Record Hits := mkHits {
  hits_total : option Total;
  hits_hits : option (list EsHit)
}.

(** The response; [None] is a response without the key [hits]. *)
Definition Response := option Hits.

(** A returned item: the document with its highlight and score added. *)
Record Item := mkItem {
  item_source : Doc;
  item_highlight : option Highlight;
  item_score : float
}.

Record Results := mkResults {
  items : list Item;
  total : Z;
  page : Z;
  size : Z;
  total_pages : Z
}.

(** [es.search(index=INDEX_NAME, body=search_request)] *)
Variable es_search : Search.SearchRequest → Exn + Response.

Definition total_of (hits : Hits) : Z :=
  match hits_total hits with
  | Some (TotalObject value) => default 0 value
  | Some (TotalNumber n) => n
  | None => 0
  end.

Definition format_hit (hit : EsHit) : option Item :=
  source ← _source hit;
  Some (mkItem source (hit_highlight hit) (default 0%float (_score hit))).

Definition search_knowledge_items (p : Search.Params) : SearchError + Results :=
  let search_request := Search.build_search_query p in
  match es_search search_request with
  | inl e => inl (ClientError e)
  | inr response =>
      let hits := default (mkHits None None) response in
      let total := total_of hits in
      match mapM format_hit (default [] (hits_hits hits)) with
      | None => inl KeyError
      | Some items =>
          if decide (Search.size p = 0) then inl ZeroDivisionError
          else inr (mkResults items total (Search.page p) (Search.size p)
                      ((total + Search.size p - 1) `div` Search.size p))
      end
  end.

End Run.

End SearchRun.

(** ** The search route ([app/api/routes.py], [search]) *)

Module Routes.

(** [tag_list]: the parts of the [tags] parameter between commas,
    stripped, without the blank ones; [None] when the parameter is
    absent or empty. *)
Definition tag_list (tags : option string) : option (list string) :=
  match tags with
  | Some tags =>
      if PyStr.truthy tags then
        Some (map PyStr.strip
                (List.filter (λ t, PyStr.truthy (PyStr.strip t)) (PyText.split_commas tags)))
      else None
  | None => None
  end.

(** What a route answers: the value it returns, an [HTTPException] with
    its status code (the detail text is not modelled), or the 422 with
    which FastAPI answers, before the body of the route runs, a request
    of which a parameter is outside its declared bounds. *)
Inductive Response (A : Type) :=
  | Ok (value : A)
  | HTTPException (status_code : Z)
  | RequestValidationError.
Arguments Ok {A} value.
Arguments HTTPException {A} status_code.
Arguments RequestValidationError {A}.

(** The query parameters of [GET /search], as FastAPI has parsed them. *)
Record Query := mkQuery {
  q : option string;
  source_type : option string;
  primary_language : option string;
  framework : option string;
  tags : option string;
  from_date : option string;
  semantic : bool;
  hybrid : bool;
  page : Z;
  size : Z
}.

(** [page: int = Query(1, ge=1)] and [size: int = Query(20, ge=1,
    le=100)]: the bounds that FastAPI checks. *)
Definition within_bounds (r : Query) : bool :=
  (1 <=? page r)%Z && (1 <=? size r)%Z && (size r <=? 100)%Z.

(** [asyncio.run(coroutine)] where an event loop is running, as one is
    around every [async def] route: it raises a [RuntimeError] and never
    runs the coroutine. *)
Definition asyncio_run {A : Type} (coroutine : Exn + A) : Exn + A :=
  inl (OtherError "asyncio.run() cannot be called from a running event loop").

Section Search.
(** The provider ([is_available], and what awaiting
    [generate_embedding(q)] would give) and the search engine behind
    [search_knowledge_items]. *)
Variables Doc Highlight : Type.
Variable provider_available : bool.
Variable generate_embedding : string → Exn + list float.
Variable es_search : Search.SearchRequest → Exn + SearchRun.Response Doc Highlight.

(** The body of the first [try]: it ends with the embedding, with an
    exception, or with the [HTTPException] it raises itself. *)
Definition embedding_attempt (text : string) : (Exn + Z) + list float :=
  if provider_available then
    match asyncio_run (generate_embedding text) with
    | inr v => inr v
    | inl e => inl (inl e)
    end
  else inl (inr 400%Z).

Definition params (r : Query) (query_embedding : option (list float)) : Search.Params :=
  Search.mkParams (q r) (source_type r) (primary_language r) (framework r)
    (tag_list (tags r)) (from_date r) (semantic r) (hybrid r) query_embedding
    (page r) (size r).

Definition search (r : Query) : Response (SearchRun.Results Doc Highlight) :=
  if within_bounds r then
    let query_embedding :=
      if (semantic r || hybrid r) && PyStr.truthy (default "" (q r)) then
        match embedding_attempt (default "" (q r)) with
        | inr v => inr (Some v)
        (* [except Exception]: whatever the block raised becomes a 500 *)
        | inl _ => inl 500%Z
        end
      else inr None in
    match query_embedding with
    | inl status_code => HTTPException status_code
    | inr query_embedding =>
        match SearchRun.search_knowledge_items Doc Highlight es_search
                (params r query_embedding) with
        | inr results => Ok results
        | inl _ => HTTPException 500
        end
    end
  else RequestValidationError.

End Search.

End Routes.

(** ** The choice of the provider ([app/ai/provider.py]) *)

Module Provider.

(** The settings that the choice reads. *)
Record Settings := mkSettings {
  ai_provider : string;
  openai_api_key : option string;
  anthropic_api_key : option string
}.

Inductive Kind := OpenAI | Anthropic.

(** A provider object: its class and its [api_key]. *)
Record AIProvider := mkProvider {
  kind : Kind;
  api_key : option string
}.

(** [OpenAIProvider()] and [AnthropicProvider()]: with no argument the
    key is the one of the settings. *)
Definition OpenAIProvider (settings : Settings) : AIProvider :=
  mkProvider OpenAI (openai_api_key settings).

Definition AnthropicProvider (settings : Settings) : AIProvider :=
  mkProvider Anthropic (anthropic_api_key settings).

(** [self.api_key is not None] *)
Definition is_available (p : AIProvider) : bool :=
  match api_key p with Some _ => true | None => false end.

Definition get_ai_provider (settings : Settings) : AIProvider :=
  let provider_name := PyStr.lower (ai_provider settings) in
  if String.eqb provider_name "anthropic"
     && is_available (AnthropicProvider settings)
  then AnthropicProvider settings
  else OpenAIProvider settings.

(** [_get_client()] with the client package installed: the exception it
    raises, if any. *)
Definition _get_client (p : AIProvider) : option Exn :=
  if negb (PyStr.truthy (default "" (api_key p))) then Some ValueError else None.

(** What [generate_text] raises before it calls the API, if anything. *)
Definition generate_text_guard (p : AIProvider) : option Exn :=
  if negb (is_available p) then Some ValueError else _get_client p.

(** What [generate_embedding] raises before it calls the API, if
    anything: the Anthropic provider hands over to a new OpenAI
    provider. *)
Definition generate_embedding_guard (settings : Settings) (p : AIProvider) : option Exn :=
  match kind p with
  | OpenAI => generate_text_guard p
  | Anthropic =>
      let embedding_provider := OpenAIProvider settings in
      if negb (is_available embedding_provider) then Some ValueError
      else generate_text_guard embedding_provider
  end.

(** The global limiters of [app/ai/rate_limit.py], and the one that the
    enrichment task and [ask_question] take. *)
Definition openai_rate_limiter : AIRateLimiter.Limiter :=
  AIRateLimiter.mkLimiter 60 60 [] false.

Definition anthropic_rate_limiter : AIRateLimiter.Limiter :=
  AIRateLimiter.mkLimiter 50 60 [] false.

Definition rate_limiter_kind (settings : Settings) : Kind :=
  if String.eqb (PyStr.lower (ai_provider settings)) "openai" then OpenAI else Anthropic.

Definition rate_limiter (settings : Settings) : AIRateLimiter.Limiter :=
  match rate_limiter_kind settings with
  | OpenAI => openai_rate_limiter
  | Anthropic => anthropic_rate_limiter
  end.

End Provider.

(** ** The indexed documents ([_index_item] of [app/ingest/base.py], and
       the index writes of the enrichment and embedding tasks) *)

Module Index.

(** The values of a document's keys. [VId] stands for [str(item.id)] and
    [VTime] for the ISO text of a timestamp. *)
Inductive Value :=
  | VNone
  | VId (id : option N)
  | VStr (s : string)
  | VStrs (l : list string)
  | VSnippets (l : list Snippet)
  | VTime (t : Z)
  | VFloats (l : list float).

Definition of_str (s : option string) : Value :=
  match s with Some s => VStr s | None => VNone end.

(** [t.isoformat() if t else None] *)
Definition of_time (t : option Z) : Value :=
  match t with Some t => VTime t | None => VNone end.

Definition of_floats (v : option (list float)) : Value :=
  match v with Some v => VFloats v | None => VNone end.

(** A document is a dictionary from keys to values, [gmap string Value]. *)

(** The document that [_index_item] builds. *)
Definition index_doc (item : KnowledgeItem) : gmap string Value :=
  list_to_map
    [("id", VId (id item));
     ("source_type", VStr (source_type item));
     ("source_name", VStr (source_name item));
     ("source_url", VStr (source_url item));
     ("title", VStr (title item));
     ("summary", of_str (summary item));
     ("ai_summary", of_str (ai_summary item));
     ("body_text", of_str (body_text item));
     ("code_snippets", VSnippets (default [] (code_snippets item)));
     ("tags", VStrs (tags item));
     ("ai_tags", VStrs (default [] (ai_tags item)));
     ("primary_language", of_str (primary_language item));
     ("ai_primary_language", of_str (ai_primary_language item));
     ("framework", of_str (framework item));
     ("ai_framework", of_str (ai_framework item));
     ("author", of_str (author item));
     ("licence", of_str (licence item));
     ("published_at", of_time (published_at item));
     ("found_at", of_time (found_at item));
     ("updated_at", of_time (updated_at item));
     ("embedding", of_floats (embedding item))].

(** The document that the enrichment task builds for its re-index. *)
Definition enrich_doc (item : KnowledgeItem) : gmap string Value :=
  list_to_map
    [("id", VId (id item));
     ("source_type", VStr (source_type item));
     ("source_name", VStr (source_name item));
     ("source_url", VStr (source_url item));
     ("title", VStr (title item));
     ("summary", of_str (summary item));
     ("ai_summary", of_str (ai_summary item));
     ("body_text", of_str (body_text item));
     ("code_snippets", VSnippets (default [] (code_snippets item)));
     ("tags", VStrs (tags item));
     ("ai_tags", VStrs (default [] (ai_tags item)));
     ("primary_language", of_str (primary_language item));
     ("ai_primary_language", of_str (ai_primary_language item));
     ("framework", of_str (framework item));
     ("ai_framework", of_str (ai_framework item));
     ("author", of_str (author item));
     ("licence", of_str (licence item));
     ("published_at", of_time (published_at item));
     ("found_at", of_time (found_at item));
     ("updated_at", of_time (updated_at item))].

(** The [doc] of the embedding task's update. *)
Definition embedding_doc (v : list float) : gmap string Value := {["embedding" := VFloats v]}.

(** The index holds documents by id: [gmap N (gmap string Value)]. *)

(** [es.index(index, id, body)]: the document under the id is replaced. *)
Definition es_index (store : gmap N (gmap string Value)) (doc_id : N) (doc : gmap string Value) : gmap N (gmap string Value) :=
  <[doc_id := doc]> store.

(** [es.update(index, id, body={"doc": partial, "doc_as_upsert": True})]:
    the keys of [partial] are set on the document under the id, which is
    created when it is missing. *)
Definition es_update (store : gmap N (gmap string Value)) (doc_id : N) (partial : gmap string Value) : gmap N (gmap string Value) :=
  <[doc_id := partial ∪ default ∅ (store !! doc_id)]> store.

(** The index after a run of the enrichment task that ended with [r]:
    a run that succeeded re-indexes the row it enriched; [es_ok] says
    whether that write goes through (its failure is logged only). *)
Definition enrich_reindex (es_ok : bool) (r : Enrich.TaskResult * list KnowledgeItem)
    (item_id : N) (store : gmap N (gmap string Value)) : gmap N (gmap string Value) :=
  match r.1 with
  | Enrich.Return (Enrich.StatusSuccess _) =>
      match list_find (λ row, id row = Some item_id) r.2 with
      | Some (_, item) => if es_ok then es_index store item_id (enrich_doc item) else store
      | None => store
      end
  | _ => store
  end.

(** The index after a run of the embedding task with the outcome [o]. *)
Definition embed_reindex (es_ok : bool) (o : Embed.Outcome) (store : gmap N (gmap string Value)) : gmap N (gmap string Value) :=
  foldl (λ st u, if es_ok then es_update st u.1 (embedding_doc u.2) else st)
    store (Embed.index_updates o).

End Index.

(** ** Fetching with retries ([app/utils/http_client.py]) *)

Module HttpClient.

#[local] Open Scope Z_scope.

(** How [requests.get] ends: with a response and its status code, with a
    [RequestException] (a connection error or a timeout), or with
    another exception. *)
Inductive Reply :=
  | Response (status_code : Z)
  | RequestException
  | OtherException (e : Exn).

(** How a call of the decorated [fetch_url] ends: it returns the
    response, the retrying gives up with its [RetryError], or an
    exception that is not retried leaves it. *)
Inductive Result :=
  | Returned (status_code : Z)
  | RetryError
  | Raised (e : Exn).

(** [response.raise_for_status()] raises an [HTTPError], which is a
    [RequestException], on a client or server error status. *)
Definition raise_for_status (status_code : Z) : bool :=
  bool_decide (400 ≤ status_code < 600).

(** The outcome of a call: the result, the global limiter and the clock
    afterwards, and the number of requests made. *)
Record Outcome := mkOutcome {
  result : Result;
  limiter : RateLimiter.Limiter;
  clock : Z;
  attempts : nat
}.

Section Fetch.
Variable netloc : string → string.
(** The reply to the [n]th request of the call and the time it takes, and
    the wait of the [wait_exponential] policy after the [n]th attempt. *)
Variable get : nat → Reply * Z.
Variable backoff : nat → Z.

(** The body of [fetch_url], run as attempt [n]: [None] is a
    [RequestException] that leaves it. *)
Definition attempt (url : string) (n : nat) (l : RateLimiter.Limiter) (now : Z)
    : (Exn + option Z) * RateLimiter.Limiter * Z :=
  let waited := RateLimiter.wait_if_needed netloc l url now in
  let finished := waited.2 + (get n).2 in
  match (get n).1 with
  | Response status_code =>
      if raise_for_status status_code then (inr None, waited.1, finished)
      else (inr (Some status_code),
            RateLimiter.record_request netloc waited.1 url finished, finished)
  | RequestException => (inr None, waited.1, finished)
  | OtherException e => (inl e, waited.1, finished)
  end.

(** The [retry] decorator with [stop_after_attempt]: attempt [n] with
    [remaining] attempts left after it. Only a [RequestException] is
    retried. *)
Fixpoint retrying (url : string) (remaining n : nat) (l : RateLimiter.Limiter) (now : Z)
    : Outcome :=
  let r := attempt url n l now in
  match r.1.1 with
  | inr (Some status_code) => mkOutcome (Returned status_code) r.1.2 r.2 n
  | inl e => mkOutcome (Raised e) r.1.2 r.2 n
  | inr None =>
      match remaining with
      | O => mkOutcome RetryError r.1.2 r.2 n
      | S remaining' => retrying url remaining' (S n) r.1.2 (r.2 + backoff n)
      end
  end.

(** [fetch_url(url)] on the limiter [l] at the clock [now]:
    [stop_after_attempt(3)]. *)
Definition fetch_url (url : string) (l : RateLimiter.Limiter) (now : Z) : Outcome :=
  retrying url 2 1 l now.

End Fetch.

End HttpClient.

(** ** Saved search alerts ([app/tasks/ingestion.py],
       [run_saved_search_alerts]) *)

Module Alerts.

(** A saved search ([app/db/models.py]); its id and the two timestamps
    that the task does not read are left out. *)
Record SavedSearch := mkSaved {
  name : string;
  query : option string;
  source_type : option string;
  primary_language : option string;
  framework : option string;
  tags : option (list string);
  last_run_at : option Z;
  match_count : option Z
}.

Section Run.
(** The search engine behind [search_knowledge_items], and the reading
    of [datetime.utcnow()] in the turn of the loop for the saved search
    at position [i]. *)
Variables Doc Highlight : Type.
Variable es_search : Search.SearchRequest → Exn + SearchRun.Response Doc Highlight.
Variable utcnow : nat → Z.

(** [search_params]: the other parameters take their defaults. *)
Definition search_params (saved_search : SavedSearch) : Search.Params :=
  Search.mkParams (Some (default "" (query saved_search))) (source_type saved_search)
    (primary_language saved_search) (framework saved_search) (tags saved_search)
    None false false None 1 10.

(** One turn of the loop: a search that raises leaves the saved search
    as it was. *)
Definition run_one (i : nat) (saved_search : SavedSearch) : SavedSearch :=
  match SearchRun.search_knowledge_items Doc Highlight es_search
          (search_params saved_search) with
  | inr results =>
      mkSaved (name saved_search) (query saved_search) (source_type saved_search)
        (primary_language saved_search) (framework saved_search) (tags saved_search)
        (Some (utcnow i)) (Some (SearchRun.total Doc Highlight results))
  | inl _ => saved_search
  end.

(** The table of saved searches after the task. *)
Definition run_saved_search_alerts (saved_searches : list SavedSearch)
    : list SavedSearch :=
  imap run_one saved_searches.

End Run.

End Alerts.

(** ** More vocabulary *)

Module Facts.

(** The timestamps of a domain that lie in the window that ends at [now]. *)
Definition recent (l : RateLimiter.Limiter) (domain : string) (now : Z) : list Z :=
  filter (λ t, (now - RateLimiter.window_seconds l < t)%Z)
    (default [] (RateLimiter.requests l !! domain)).

(** The clause constrains without scoring: a term, terms or range clause. *)
Definition is_filter_clause (c : Search.Clause) : bool :=
  match c with
  | Search.Term _ _ | Search.Terms _ _ | Search.RangeGte _ _ => true
  | _ => false
  end.

(** The extractor's keys of a snippet. *)
Definition snippet_source (s : Snippet) : option string * option string * option string :=
  (language s, code s, context s).

(** The columns of a row that hold what was ingested, with its id, its
    [found_at] and its embedding: everything but the AI fields, the
    enrichment keys of the snippets and [updated_at]. *)
Definition row_source (r : KnowledgeItem) :=
  (id r, source_type r, source_name r, source_url r, title r, summary r, body_text r,
   map snippet_source (default [] (code_snippets r)), tags r, primary_language r,
   framework r, author r, licence r, published_at r, found_at r, content_hash r,
   dedupe_key r, embedding r).

(** What [store_item] decides from the hash stored under the item's key. *)
Definition decision (stored_hash : option string) (item : KnowledgeItem) : Ingest.Action :=
  match stored_hash with
  | None => Ingest.Inserted
  | Some h => if decide (h = content_hash item) then Ingest.Skipped else Ingest.Updated
  end.

Definition is_newline (c : ascii) : bool := (PyStr.code c =? 10)%N.

Definition newline : string := String "010"%char "".

(** A line that the fence removal drops: it starts, after stripping,
    with three backquotes. *)
Definition fence_line (l : string) : bool := PyStr.startswith "```" (PyStr.strip l).

(** The payload inside a Markdown code fence with the info string [tag]. *)
Definition fenced (tag payload : string) : string :=
  "```" +:+ tag +:+ newline +:+ payload +:+ newline +:+ "```".

(** The event is a search. *)
Definition is_search (e : Ask.Event) : bool :=
  match e with Ask.SearchItems _ => true | _ => false end.

(** Every column of a row but its embedding and [updated_at]. *)
Definition row_but_embedding (r : KnowledgeItem) :=
  (id r, source_type r, source_name r, source_url r, title r, summary r, body_text r,
   code_snippets r, tags r, primary_language r, framework r, author r, licence r,
   published_at r, found_at r, content_hash r, dedupe_key r, ai_summary r, ai_tags r,
   ai_primary_language r, ai_framework r, ai_quality_score r, ai_extracted_at r).

(** What the embedding text is built from: the title, the summary that
    is used, the first 2000 characters of the body text, and the
    language and the first 500 characters of the code of the first three
    snippets. *)
Definition embedding_view (r : KnowledgeItem) :=
  (title r,
   if Embed.given (ai_summary r) then default "" (ai_summary r)
   else default "" (summary r),
   PyText.take 2000 (default "" (body_text r)),
   map (λ s, (default "" (language s), PyText.take 500 (default "" (code s))))
     (firstn 3 (default [] (code_snippets r)))).

(** The row has nothing to embed: no title, no summary of either kind,
    no body text and no snippet. *)
Definition nothing_to_embed (r : KnowledgeItem) : Prop :=
  title r = "" ∧ Embed.given (ai_summary r) = false ∧ Embed.given (summary r) = false
  ∧ Embed.given (body_text r) = false ∧ default [] (code_snippets r) = [].

(** A comma-separated part that is not blank. *)
Definition names_tag (part : string) : bool := PyStr.truthy (PyStr.strip part).

(** The [n]th request of a call fails in a way that is retried: a
    [RequestException], or a response with an error status. *)
Definition retried (get : nat → HttpClient.Reply * Z) (n : nat) : Prop :=
  (get n).1 = HttpClient.RequestException
  ∨ ∃ status_code, (get n).1 = HttpClient.Response status_code
                   ∧ HttpClient.raise_for_status status_code = true.

(** What a saved search is, apart from the record of its last run. *)
Definition saved_query (s : Alerts.SavedSearch) :=
  (Alerts.name s, Alerts.query s, Alerts.source_type s, Alerts.primary_language s,
   Alerts.framework s, Alerts.tags s).

(** The timestamps that [acquire] keeps at the reading [now]. *)
Definition kept (l : AIRateLimiter64.Limiter) (now : float) : list float :=
  List.filter (λ t, (now - AIRateLimiter64.window_seconds l <? t)%float)
    (AIRateLimiter64.requests l).

(** The [wait_seconds] that [acquire] computes at the reading [now] over
    the timestamps it kept; none when it kept none. *)
Definition computed_wait (l : AIRateLimiter64.Limiter) (now : float) : option float :=
  match kept l now with
  | [] => None
  | r :: rest =>
      Some (AIRateLimiter64.max 0%float
              (AIRateLimiter64.min r rest + AIRateLimiter64.window_seconds l - now)%float)
  end.

End Facts.

(** * Properties *)

(** ** Strings *)

Section StringFacts.

Lemma app_empty (t : string) : "" +:+ t = t.
Proof. reflexivity. Qed.

Lemma app_String (c : ascii) (s t : string) : String c s +:+ t = String c (s +:+ t).
Proof. reflexivity. Qed.

Lemma app_empty_r (s : string) : s +:+ "" = s.
Proof. induction s as [|c s IH]; [done|]. by rewrite app_String, IH. Qed.

Lemma app_assoc_str (s t u : string) : (s +:+ t) +:+ u = s +:+ t +:+ u.
Proof. induction s as [|c s IH]; [done|]. by rewrite !app_String, IH. Qed.

Lemma length_app_str (s t : string) :
  String.length (s +:+ t) = String.length s + String.length t.
Proof. induction s as [|c s IH]; [done|]. rewrite app_String. simpl. by rewrite IH. Qed.

End StringFacts.

Example sha256_empty :
  sha256_hex "" = "e3b0c44298fc1c149afbf4c8996fb92427ae41e4649b934ca495991b7852b855".
Proof. vm_compute. reflexivity. Qed.

Example sha256_abc :
  sha256_hex "abc" = "ba7816bf8f01cfea414140de5dae2223b00361a396177a9cb410ff61f20015ad".
Proof. vm_compute. reflexivity. Qed.

Example sha256_two_byte_characters :
  sha256_hex (String.concat "" (replicate 60 (String (ascii_of_N 233) "")))
  = "f989aaf52260aef87908350aa746652652166f9013d42e9149d924b4b8be014f".
Proof. vm_compute. reflexivity. Qed.

Lemma hex_word_length (x : N) : String.length (Sha256.hex_word x) = 8.
Proof. reflexivity. Qed.

Lemma sha256_hex_length (s : string) : String.length (sha256_hex s) = 64.
Proof.
  unfold sha256_hex, Sha256.hexdigest.
  rewrite !length_app_str, !hex_word_length. reflexivity.
Qed.

(** ** Deduplication keys *)

Section DedupeKey.

Import Spec.

Lemma is_slash_char (c : ascii) : PyStr.is_slash c = true ↔ c = "/"%char.
Proof.
  unfold PyStr.is_slash, PyStr.code. rewrite N.eqb_eq. split.
  - intros Hc. rewrite <- (ascii_N_embedding c), Hc. reflexivity.
  - intros ->. reflexivity.
Qed.

Lemma is_slash_lower (c : ascii) : PyStr.is_slash (PyStr.lower_char c) = PyStr.is_slash c.
Proof. destruct c as [[] [] [] [] [] [] [] []]; reflexivity. Qed.

Lemma rstrip_by_all (p : ascii → bool) (t : string) :
  all_chars p t = true → PyStr.rstrip_by p t = "".
Proof.
  induction t as [|c t IH]; [done|]. simpl. intros [Hc Ht]%andb_prop.
  by rewrite (IH Ht), Hc.
Qed.

Lemma rstrip_by_app (p : ascii → bool) (s t : string) :
  all_chars p t = true → PyStr.rstrip_by p (s +:+ t) = PyStr.rstrip_by p s.
Proof.
  intros Ht. induction s as [|c s IH].
  - rewrite app_empty. by apply rstrip_by_all.
  - rewrite app_String. simpl. by rewrite IH.
Qed.

Lemma rstrip_by_cut (p : ascii → bool) (s : string) :
  ∃ t, s = PyStr.rstrip_by p s +:+ t ∧ all_chars p t = true.
Proof.
  induction s as [|c s (t & Hs & Ht)]; [by exists ""|].
  simpl. destruct (PyStr.rstrip_by p s) as [|c' r] eqn:Hr.
  - destruct (p c) eqn:Hc.
    + exists (String c t). rewrite app_empty. split; [by rewrite Hs at 1|].
      simpl. by rewrite Hc.
    + exists t. split; [|done]. rewrite app_String. by rewrite Hs at 1.
  - exists t. split; [|done]. rewrite app_String. by rewrite Hs at 1.
Qed.

Lemma rstrip_by_last (p : ascii → bool) (s s' : string) (c : ascii) :
  PyStr.rstrip_by p s = s' +:+ String c "" → p c = false.
Proof.
  revert s'. induction s as [|a s IH]; intros s'; simpl.
  - destruct s'; discriminate.
  - destruct (PyStr.rstrip_by p s) as [|c' r] eqn:Hr.
    + destruct (p a) eqn:Ha; [destruct s'; discriminate|].
      destruct s' as [|b [|? ?]]; rewrite ?app_String, ?app_empty; congruence.
    + destruct s' as [|b s'']; rewrite ?app_String, ?app_empty.
      * discriminate.
      * intros [= _ Hs]. by apply (IH s'').
Qed.

Lemma rstrip_stripped (url : string) :
  stripped_of_slashes url (PyStr.rstrip_by PyStr.is_slash url).
Proof.
  split; [apply rstrip_by_cut|].
  intros [s' Hs']. apply rstrip_by_last in Hs'. discriminate.
Qed.

Lemma lower_rstrip (s : string) :
  PyStr.lower (PyStr.rstrip_by PyStr.is_slash s)
  = PyStr.rstrip_by PyStr.is_slash (PyStr.lower s).
Proof.
  induction s as [|c s IH]; [done|]. simpl. rewrite <- IH, is_slash_lower.
  destruct (PyStr.rstrip_by PyStr.is_slash s); [|done].
  by destruct (PyStr.is_slash c).
Qed.

Lemma normalize_url_same (url1 url2 : string) :
  same_url url1 url2 → Dedupe.normalize_url url1 = Dedupe.normalize_url url2.
Proof.
  unfold Dedupe.normalize_url. induction 1 as [s1 s2 Hl|s|s1 s2 _ IH|s1 s2 s3 _ IH1 _ IH2].
  - by rewrite !lower_rstrip, Hl.
  - by rewrite rstrip_by_app.
  - done.
  - congruence.
Qed.

(** C1. [generate_dedupe_key] returns [source_type ++ "::" ++ n], where [n]
    is the URL with its trailing slashes stripped, lower-cased, unless
    that string is longer than 500 characters, in which case it returns
    the SHA-256 hex digest of it; and two URLs that differ only by
    trailing slashes or letter case get the same key. *)
Theorem generate_dedupe_key_normalizes (source_type url1 url2 : string) :
  (∃ stem, stripped_of_slashes url1 stem ∧
     let key_string := source_type +:+ "::" +:+ PyStr.lower stem in
     Dedupe.generate_dedupe_key source_type url1
     = if decide (String.length key_string ≤ 500) then key_string
       else sha256_hex key_string)
  ∧ (same_url url1 url2 →
     Dedupe.generate_dedupe_key source_type url1
     = Dedupe.generate_dedupe_key source_type url2).
Proof.
  split.
  - exists (PyStr.rstrip_by PyStr.is_slash url1). split; [apply rstrip_stripped|done].
  - intros Hsame. unfold Dedupe.generate_dedupe_key, Dedupe.key_string.
    by rewrite (normalize_url_same _ _ Hsame).
Qed.

Lemma generate_dedupe_key_normalizes_witness :
  Spec.same_url "http://x.com/a/" "HTTP://X.com/a"
  ∧ Dedupe.generate_dedupe_key "rss" "http://x.com/a/" = "rss::http://x.com/a"
  ∧ Dedupe.generate_dedupe_key "rss" "HTTP://X.com/a" = "rss::http://x.com/a".
Proof.
  assert (Hs : Spec.same_url "http://x.com/a/" "HTTP://X.com/a").
  { apply Spec.same_trans with "http://x.com/a".
    - apply Spec.same_sym, (Spec.same_slash "http://x.com/a").
    - apply Spec.same_case. reflexivity. }
  split; [exact Hs|].
  pose proof (generate_dedupe_key_normalizes "rss" "http://x.com/a/" "HTTP://X.com/a")
    as [_ Heq].
  rewrite <- (Heq Hs). split; reflexivity.
Defined.

(** C10. The key is never longer than the 500 characters of the
    [dedupe_key] column: it is the key string when that has at most 500
    characters, and a digest of 64 characters otherwise. *)
Theorem generate_dedupe_key_fits_column (source_type source_url : string) :
  String.length (Dedupe.generate_dedupe_key source_type source_url) ≤ 500
  ∧ (Dedupe.generate_dedupe_key source_type source_url
       = Dedupe.key_string source_type source_url
     ∧ String.length (Dedupe.key_string source_type source_url) ≤ 500
     ∨ Dedupe.generate_dedupe_key source_type source_url
       = sha256_hex (Dedupe.key_string source_type source_url)
     ∧ String.length (Dedupe.generate_dedupe_key source_type source_url) = 64
     ∧ 500 < String.length (Dedupe.key_string source_type source_url)).
Proof.
  unfold Dedupe.generate_dedupe_key.
  destruct (decide (String.length (Dedupe.key_string source_type source_url) ≤ 500))
    as [Hle|Hgt].
  - split; [done|]. by left.
  - rewrite sha256_hex_length. split; [lia|]. right. repeat split; lia.
Qed.

End DedupeKey.

(** ** Content hashes *)

Section ContentHash.

Import Spec.

Lemma all_chars_app (p : ascii → bool) (s t : string) :
  all_chars p (s +:+ t) = all_chars p s && all_chars p t.
Proof.
  induction s as [|c s IH]; [done|].
  rewrite app_String. simpl. by rewrite IH, andb_assoc.
Qed.

Lemma join_cons (sep a b : string) (l : list string) :
  PyStr.join sep (a :: b :: l) = a +:+ sep +:+ PyStr.join sep (b :: l).
Proof. reflexivity. Qed.

Lemma string_app_inv_tail (a b z : string) : a +:+ z = b +:+ z → a = b.
Proof.
  assert (Hlen : ∀ s t, String.length (s +:+ t) = String.length s + String.length t).
  { intros s t. induction s as [|c s IH]; [done|]. rewrite app_String. simpl. by rewrite IH. }
  revert b. induction a as [|c a IH]; intros [|d b] Heq.
  - done.
  - apply (f_equal String.length) in Heq. rewrite app_empty, Hlen in Heq. simpl in Heq. lia.
  - apply (f_equal String.length) in Heq. rewrite app_empty, Hlen in Heq. simpl in Heq. lia.
  - rewrite !app_String in Heq. injection Heq as -> Heq. f_equal. by apply IH.
Qed.

Lemma string_prefix_app (s x : string) : String.prefix s (s +:+ x) = true.
Proof.
  induction s as [|c s IH]; [by destruct x|].
  rewrite app_String. simpl. by destruct (ascii_dec c c).
Qed.

(** A string that does not start with a run of [c] and does not end with
    [c] does not start with the run however it is continued. *)
Lemma prefix_run_app (c : ascii) (n : nat) (a x : string) :
  a ≠ "" → ends_with c a = false → String.prefix (run c n) a = false →
  String.prefix (run c n) (a +:+ x) = false.
Proof.
  revert a. induction n as [|n IH]; intros [|d a] Ha He Hp; try done.
  rewrite app_String. simpl in *. destruct (ascii_dec c d) as [->|]; [|done].
  destruct a as [|e a].
  - by rewrite Ascii.eqb_refl in He.
  - by apply IH.
Qed.

Lemma holds_tail (sep : string) (d : ascii) (a : string) :
  holds sep (String d a) = false → holds sep a = false.
Proof. simpl. by intros [_ ?]%orb_false_elim. Qed.

Lemma holds_prefix (sep a : string) : holds sep a = false → String.prefix sep a = false.
Proof. destruct a; simpl; by intros [? _]%orb_false_elim. Qed.

Lemma ends_with_tail (c d : ascii) (a : string) :
  ends_with c (String d a) = false → ends_with c a = false.
Proof. by destruct a. Qed.

Lemma holds_app (sep b z : string) : holds sep (b +:+ sep +:+ z) = true.
Proof.
  induction b as [|d b IH].
  - rewrite app_empty. pose proof (string_prefix_app sep z) as Hp.
    destruct (sep +:+ z); cbn [holds]; by rewrite Hp.
  - rewrite app_String. simpl. rewrite IH. by rewrite orb_true_r.
Qed.

(** The first run of [a +:+ run c n +:+ x] is the one after [a], when [a]
    holds no run and does not end with [c]. *)
Lemma cut_run (c : ascii) (n : nat) (a b x y : string) :
  holds (run c n) a = false → ends_with c a = false →
  holds (run c n) b = false → ends_with c b = false →
  a +:+ run c n +:+ x = b +:+ run c n +:+ y → a = b ∧ x = y.
Proof.
  revert b. induction a as [|d a IH]; intros [|e b] Ha Ea Hb Eb Heq.
  - rewrite !app_empty in Heq. by apply String.app_inj in Heq.
  - exfalso. rewrite app_empty in Heq.
    pose proof (string_prefix_app (run c n) x) as Hp. rewrite Heq in Hp.
    rewrite prefix_run_app in Hp; [done|done|done|by apply holds_prefix].
  - exfalso. rewrite app_empty in Heq.
    pose proof (string_prefix_app (run c n) y) as Hp. rewrite <- Heq in Hp.
    rewrite prefix_run_app in Hp; [done|done|done|by apply holds_prefix].
  - rewrite !app_String in Heq. injection Heq as -> Heq.
    destruct (IH b) as [-> ->]; eauto using holds_tail, ends_with_tail.
Qed.

(** Parts that do not hold the separator, and of which none but the last
    ends with its character, are read back from their join. *)
Lemma join_run_inj (c : ascii) (n : nat) (a b : string) (l l' : list string) :
  Forall (λ p, holds (run c n) p = false) (a :: l) →
  Forall (λ p, ends_with c p = false) (removelast (a :: l)) →
  Forall (λ p, holds (run c n) p = false) (b :: l') →
  Forall (λ p, ends_with c p = false) (removelast (b :: l')) →
  PyStr.join (run c n) (a :: l) = PyStr.join (run c n) (b :: l') → a :: l = b :: l'.
Proof.
  revert a b l'. induction l as [|x l IH]; intros a b [|y l'] Hl El Hl' El'.
  - simpl. by intros ->.
  - rewrite join_cons. cbn [PyStr.join]. intros ->. exfalso.
    inversion Hl as [|? ? Ha _]; subst. by rewrite holds_app in Ha.
  - rewrite join_cons. cbn [PyStr.join]. intros <-. exfalso.
    inversion Hl' as [|? ? Hb _]; subst. by rewrite holds_app in Hb.
  - rewrite !join_cons. intros Heq.
    inversion Hl as [|? ? Ha Hl0]; subst. inversion Hl' as [|? ? Hb Hl0']; subst.
    change (removelast (a :: x :: l)) with (a :: removelast (x :: l)) in El.
    change (removelast (b :: y :: l')) with (b :: removelast (y :: l')) in El'.
    inversion El as [|? ? Ea El0]; subst. inversion El' as [|? ? Eb El0']; subst.
    apply cut_run in Heq as [-> Heq]; try done.
    f_equal. by apply IH.
Qed.

(** One part between the same parts is read back from the join. *)
Lemma join_middle_inj (sep x y : string) (l l' : list string) :
  PyStr.join sep (l ++ x :: l') = PyStr.join sep (l ++ y :: l') → x = y.
Proof.
  induction l as [|p l IH].
  - destruct l' as [|q l']; [done|]. simpl app. rewrite !join_cons. apply string_app_inv_tail.
  - assert (Hc : ∀ z, PyStr.join sep ((p :: l) ++ z :: l')
                      = p +:+ sep +:+ PyStr.join sep (l ++ z :: l')).
    { intros z. by destruct l. }
    rewrite !Hc. intros Heq. do 2 apply String.app_inj in Heq. by apply IH.
Qed.

(** The content string is the join of the parts of the written fields. *)
Lemma content_string_parts (title body_text : option string)
    (code_snippets : option (list (gmap string Dedupe.Dict.Value))) :
  Dedupe.Dict.content_string title body_text code_snippets
  = PyStr.join "|||" (parts_of (written_fields title body_text code_snippets)).
Proof.
  unfold Dedupe.Dict.content_string, Dedupe.Dict.content_parts, parts_of, written_fields.
  simpl. by rewrite map_map.
Qed.

Lemma parts_of_middle (t b : string) (l l' : list (string * string)) (lc : string * string) :
  parts_of (t, b, l ++ lc :: l')
  = (t :: b :: map (λ lc, lc.1 +:+ "::" +:+ lc.2) l)
    ++ (lc.1 +:+ "::" +:+ lc.2) :: map (λ lc, lc.1 +:+ "::" +:+ lc.2) l'.
Proof. unfold parts_of. simpl. by rewrite map_app. Qed.

(** A change to one written field changes the join of the parts. *)
Lemma one_field_apart_parts (f g : string * string * list (string * string)) :
  one_field_apart f g → PyStr.join "|||" (parts_of f) ≠ PyStr.join "|||" (parts_of g).
Proof.
  intros [t t' b l Hne|t b b' l Hne|t b l l' x x' c Hne|t b l l' x c c' Hne] Heq; apply Hne.
  - by apply (join_middle_inj "|||" t t' []) in Heq.
  - by apply (join_middle_inj "|||" b b' [t]) in Heq.
  - rewrite !parts_of_middle in Heq. apply join_middle_inj in Heq.
    by apply string_app_inv_tail in Heq.
  - rewrite !parts_of_middle in Heq. apply join_middle_inj in Heq.
    by do 2 apply String.app_inj in Heq.
Qed.

(** Languages that hold no [::] and do not end with a [:] are read back,
    with their codes, from what is written for the snippets. *)
Lemma written_snippets_inj (l l' : list (string * string)) :
  Forall (λ lc : string * string, holds "::" lc.1 = false ∧ ends_with ":" lc.1 = false) l →
  Forall (λ lc : string * string, holds "::" lc.1 = false ∧ ends_with ":" lc.1 = false) l' →
  map (λ lc : string * string, lc.1 +:+ "::" +:+ lc.2) l
  = map (λ lc : string * string, lc.1 +:+ "::" +:+ lc.2) l' →
  l = l'.
Proof.
  revert l'. induction l as [|[x c] l IH]; intros [|[x' c'] l'] Hl Hl'; simpl; try done.
  intros [= Hs Hrest].
  inversion Hl as [|? ? [Hx Ex] Hl0]; subst. inversion Hl' as [|? ? [Hx' Ex'] Hl0']; subst.
  apply (cut_run ":" 2) in Hs as [-> ->]; try done.
  f_equal. by apply IH.
Qed.

(** Unambiguous written fields are read back from the join of their
    parts. *)
Lemma unambiguous_parts_inj (f g : string * string * list (string * string)) :
  unambiguous f → unambiguous g →
  PyStr.join "|||" (parts_of f) = PyStr.join "|||" (parts_of g) → f = g.
Proof.
  destruct f as [[t b] l], g as [[t' b'] l']. intros (Hf & Ef & Lf) (Hg & Eg & Lg) Heq.
  apply (join_run_inj "|" 3) in Heq; try done.
  injection Heq as -> -> Hs. f_equal. by apply written_snippets_inj.
Qed.

(** On snippets whose language and code are strings where they have
    them, the hash of the records is the hash of the dictionaries. *)
Lemma generate_content_hash_dicts (title body_text : option string)
    (snippets : list Snippet) (dicts : list (gmap string Dedupe.Dict.Value)) :
  Forall2 same_keys dicts snippets →
  Dedupe.generate_content_hash title body_text (Some snippets)
  = Dedupe.Dict.generate_content_hash title body_text (Some dicts)
  ∧ (snippets = [] →
     Dedupe.generate_content_hash title body_text None
     = Dedupe.Dict.generate_content_hash title body_text None).
Proof.
  intros Hsame. split; [|done].
  unfold Dedupe.generate_content_hash, Dedupe.Dict.generate_content_hash,
    Dedupe.content_string, Dedupe.Dict.content_string,
    Dedupe.content_parts, Dedupe.Dict.content_parts.
  do 3 f_equal. simpl.
  induction Hsame as [|d s dicts snippets [Hl Hc] _ IH]; [done|]. simpl. f_equal; [|done].
  unfold Dedupe.snippet_str, Dedupe.Dict.snippet_str, Dedupe.Dict.get. rewrite Hl, Hc.
  by destruct (language s), (code s).
Qed.

(** C2, as stated, fails: fields that hold a delimiter can differ and hash
    alike. A title and a body can trade the text around a [|||], and one
    snippet's language and code can trade a [:] around the [::]. *)
Lemma content_hash_delimiter_collision :
  (Some "a" ≠ Some "a|||b"
   ∧ Dedupe.generate_content_hash (Some "a") (Some "b|||c") None
     = Dedupe.generate_content_hash (Some "a|||b") (Some "c") None)
  ∧ (pair_of (mkSnippet (Some "a:") (Some ":b") None None None None)
     ≠ pair_of (mkSnippet (Some "a") (Some "::b") None None None None)
     ∧ Dedupe.generate_content_hash (Some "t") (Some "x")
         (Some [mkSnippet (Some "a:") (Some ":b") None None None None])
       = Dedupe.generate_content_hash (Some "t") (Some "x")
           (Some [mkSnippet (Some "a") (Some "::b") None None None None])).
Proof.
  split; (split; [discriminate|]); unfold Dedupe.generate_content_hash; f_equal.
Qed.

(** C2 fails beyond the delimiters too: what is written alike hashes
    alike. A title that is [None] and an empty title, no list of
    snippets and an empty list, a snippet without a language and one
    with an empty language, and a language that is [None] and the
    language ["None"] give the same digest. *)
Lemma content_hash_written_alike :
  Dedupe.Dict.generate_content_hash None (Some "b") None
  = Dedupe.Dict.generate_content_hash (Some "") (Some "b") (Some [])
  ∧ Dedupe.Dict.generate_content_hash (Some "t") (Some "b")
      (Some [{[ "code" := Dedupe.Dict.StrValue "x" ]}])
    = Dedupe.Dict.generate_content_hash (Some "t") (Some "b")
        (Some [{[ "language" := Dedupe.Dict.StrValue "";
                  "code" := Dedupe.Dict.StrValue "x" ]}])
  ∧ Dedupe.Dict.generate_content_hash (Some "t") (Some "b")
      (Some [{[ "language" := Dedupe.Dict.NoneValue;
                "code" := Dedupe.Dict.StrValue "x" ]}])
    = Dedupe.Dict.generate_content_hash (Some "t") (Some "b")
        (Some [{[ "language" := Dedupe.Dict.StrValue "None";
                  "code" := Dedupe.Dict.StrValue "x" ]}]).
Proof. repeat split; unfold Dedupe.Dict.generate_content_hash; f_equal. Qed.

(** What [unambiguous] excludes collides: fields in which a [|||] or a
    [::] only arises at the join, from a part that ends with a [|] or a
    language that ends with a [:], hash like fields that hold no
    delimiter. *)
Lemma content_hash_boundary_collision :
  Dedupe.Dict.generate_content_hash (Some "a|") (Some "b") None
  = Dedupe.Dict.generate_content_hash (Some "a") (Some "|b") None
  ∧ Dedupe.Dict.generate_content_hash (Some "t") (Some "b")
      (Some [{[ "language" := Dedupe.Dict.StrValue "a:";
                "code" := Dedupe.Dict.StrValue "b" ]}])
    = Dedupe.Dict.generate_content_hash (Some "t") (Some "b")
        (Some [{[ "language" := Dedupe.Dict.StrValue "a";
                  "code" := Dedupe.Dict.StrValue ":b" ]}]).
Proof. split; unfold Dedupe.Dict.generate_content_hash; f_equal. Qed.

(** C2, amended. The digest is the SHA-256 of a content string built from
    what is written for the title, the body text and each snippet's
    language and code, and from nothing else: inputs that agree on what
    is written get the same digest, whatever other keys the snippets
    hold. A change to what is written for one field alone always changes
    the content string; and so does every change between inputs whose
    written fields are unambiguous. *)
Theorem generate_content_hash_fields
    (t1 b1 t2 b2 : option string) (s1 s2 : option (list (gmap string Dedupe.Dict.Value))) :
  Dedupe.Dict.generate_content_hash t1 b1 s1
  = sha256_hex (Dedupe.Dict.content_string t1 b1 s1)
  ∧ (written_fields t1 b1 s1 = written_fields t2 b2 s2 →
     Dedupe.Dict.generate_content_hash t1 b1 s1
     = Dedupe.Dict.generate_content_hash t2 b2 s2)
  ∧ (one_field_apart (written_fields t1 b1 s1) (written_fields t2 b2 s2) →
     Dedupe.Dict.content_string t1 b1 s1 ≠ Dedupe.Dict.content_string t2 b2 s2)
  ∧ (unambiguous (written_fields t1 b1 s1) →
     unambiguous (written_fields t2 b2 s2) →
     written_fields t1 b1 s1 ≠ written_fields t2 b2 s2 →
     Dedupe.Dict.content_string t1 b1 s1 ≠ Dedupe.Dict.content_string t2 b2 s2).
Proof.
  split; [done|]. unfold Dedupe.Dict.generate_content_hash.
  rewrite !content_string_parts. split; [|split].
  - by intros ->.
  - apply one_field_apart_parts.
  - intros H1 H2 Hne Heq. apply Hne. by apply unambiguous_parts_inj.
Qed.

Lemma generate_content_hash_fields_witness :
  Dedupe.Dict.generate_content_hash (Some "Async") (Some "How to await")
    (Some [{[ "language" := Dedupe.Dict.StrValue "python";
              "code" := Dedupe.Dict.StrValue "await f()";
              "context" := Dedupe.Dict.StrValue "intro" ]}])
  = Dedupe.Dict.generate_content_hash (Some "Async") (Some "How to await")
      (Some [{[ "language" := Dedupe.Dict.StrValue "python";
                "code" := Dedupe.Dict.StrValue "await f()";
                "context" := Dedupe.Dict.NoneValue;
                "intent" := Dedupe.Dict.StrValue "awaiting" ]}])
  ∧ Dedupe.Dict.content_string (Some "a|||b") (Some "c")
      (Some [{[ "language" := Dedupe.Dict.NoneValue ]}])
    ≠ Dedupe.Dict.content_string (Some "a|||b") (Some "c")
        (Some [{[ "language" := Dedupe.Dict.StrValue "none" ]}])
  ∧ Dedupe.Dict.content_string (Some "Async") (Some "How to await|") None
    ≠ Dedupe.Dict.content_string (Some "Sync") (Some "How to wait|") None.
Proof.
  split; [|split].
  - destruct (generate_content_hash_fields (Some "Async") (Some "How to await")
                (Some "Async") (Some "How to await")
                (Some [{[ "language" := Dedupe.Dict.StrValue "python";
                          "code" := Dedupe.Dict.StrValue "await f()";
                          "context" := Dedupe.Dict.StrValue "intro" ]}])
                (Some [{[ "language" := Dedupe.Dict.StrValue "python";
                          "code" := Dedupe.Dict.StrValue "await f()";
                          "context" := Dedupe.Dict.NoneValue;
                          "intent" := Dedupe.Dict.StrValue "awaiting" ]}]))
      as (_ & Hsame & _).
    apply Hsame. reflexivity.
  - destruct (generate_content_hash_fields (Some "a|||b") (Some "c") (Some "a|||b") (Some "c")
                (Some [{[ "language" := Dedupe.Dict.NoneValue ]}])
                (Some [{[ "language" := Dedupe.Dict.StrValue "none" ]}]))
      as (_ & _ & Hone & _).
    apply Hone. apply (language_apart "a|||b" "c" [] [] "None" "none" ""). discriminate.
  - destruct (generate_content_hash_fields (Some "Async") (Some "How to await|")
                (Some "Sync") (Some "How to wait|") None None) as (_ & _ & _ & Hall).
    apply Hall.
    + repeat split; repeat constructor.
    + repeat split; repeat constructor.
    + discriminate.
Defined.

End ContentHash.

(** ** Ingestion *)

Section IngestFacts.

Import Spec Ingest.
Context `{Connector}.

Lemma find_existing_record (table : list KnowledgeItem) (k : string) i existing :
  find_existing k table = Some (i, existing) ↔ existing_record table k i existing.
Proof.
  unfold find_existing, existing_record.
  by rewrite (list_find_Some (λ r, dedupe_key r = k)).
Qed.

Lemma find_existing_none (table : list KnowledgeItem) (k : string) :
  find_existing k table = None ↔ Forall (λ row, dedupe_key row ≠ k) table.
Proof. unfold find_existing. by rewrite (list_find_None (λ r, dedupe_key r = k)). Qed.

Lemma overwrite_content (existing item : KnowledgeItem) (now : Z) :
  same_content (overwrite existing item now) item.
Proof. by repeat split. Qed.

Lemma fresh_row_content (item : KnowledgeItem) (key : N) (now : Z) :
  same_content (fresh_row item key now) item.
Proof. by repeat split. Qed.

(** C3. One processed item is handled by the decision table: no record
    with its dedupe key, and it is inserted and counted as stored; a
    record with an equal content hash, and nothing is written and it is
    counted as skipped; a record with another content hash, and that
    record takes the item's content and metadata in place, keeping its
    id (and its [found_at], AI fields and embedding), and the item is
    counted as stored. *)
Theorem ingest_decision_table (stats : Stats) (w : World)
    (raw_item : RawItem) (item : KnowledgeItem) :
  process_item raw_item = Some item →
  let r := ingest_step (stats, w) raw_item in
  processed r.1 = S (processed stats)
  ∧ (Forall (λ row, dedupe_key row ≠ dedupe_key item) (rows w) →
     (∃ row, rows r.2 = rows w ++ [row] ∧ same_content row item
             ∧ id row = Some (next_id w))
     ∧ stored r.1 = S (stored stats) ∧ skipped r.1 = skipped stats)
  ∧ (∀ i existing,
       existing_record (rows w) (dedupe_key item) i existing →
       content_hash existing = content_hash item →
       r.2 = w ∧ skipped r.1 = S (skipped stats) ∧ stored r.1 = stored stats)
  ∧ (∀ i existing,
       existing_record (rows w) (dedupe_key item) i existing →
       content_hash existing ≠ content_hash item →
       (∃ row, rows r.2 = <[i := row]> (rows w) ∧ same_content row item
               ∧ id row = id existing ∧ found_at row = found_at existing
               ∧ ai_summary row = ai_summary existing ∧ ai_tags row = ai_tags existing
               ∧ ai_primary_language row = ai_primary_language existing
               ∧ ai_framework row = ai_framework existing
               ∧ ai_quality_score row = ai_quality_score existing
               ∧ ai_extracted_at row = ai_extracted_at existing
               ∧ embedding row = embedding existing)
       ∧ length (rows r.2) = length (rows w)
       ∧ stored r.1 = S (stored stats) ∧ skipped r.1 = skipped stats).
Proof.
  intros Hitem r. subst r. unfold ingest_step. rewrite Hitem. simpl.
  unfold store_item. split; [|split; [|split]].
  - destruct (find_existing _ _) as [[i ex]|]; [case_decide|]; done.
  - intros Hnone. apply find_existing_none in Hnone. rewrite Hnone. simpl.
    split; [|done]. eexists. split; [done|]. split; [apply fresh_row_content|done].
  - intros i existing Hex Heq. apply find_existing_record in Hex.
    rewrite Hex. by rewrite decide_True.
  - intros i existing Hex Hne. apply find_existing_record in Hex.
    rewrite Hex. rewrite decide_False by done. simpl.
    split; [|split; [apply length_insert|done]].
    eexists. split; [done|]. split; [apply overwrite_content|]. by repeat split.
Qed.

Lemma hash_of_cons (r : KnowledgeItem) (table : list KnowledgeItem) (k : string) :
  hash_of (r :: table) k
  = if decide (dedupe_key r = k) then Some (content_hash r) else hash_of table k.
Proof.
  unfold hash_of, find_existing. simpl. case_decide; [done|].
  by destruct (list_find _ table) as [[i x]|].
Qed.

(** The table after [store_item], row by row. *)
Lemma store_item_rows_cons (item r : KnowledgeItem) (table : list KnowledgeItem)
    (n : N) (t : Z) (d : list KnowledgeItem) :
  rows (store_item item (mkWorld (r :: table) n t d)).2
  = if decide (dedupe_key r = dedupe_key item) then
      if decide (content_hash r = content_hash item) then r :: table
      else overwrite r item t :: table
    else r :: rows (store_item item (mkWorld table n t d)).2.
Proof.
  unfold store_item, find_existing. simpl. case_decide as Hk.
  - by case_decide.
  - destruct (list_find _ table) as [[i x]|]; simpl; [|done]. by case_decide.
Qed.

Lemma hash_of_store_item (item : KnowledgeItem) (w : World) (k : string) :
  hash_of (rows (store_item item w).2) k
  = if decide (dedupe_key item = k) then Some (content_hash item)
    else hash_of (rows w) k.
Proof.
  destruct w as [table n t d]. simpl. induction table as [|r table IH].
  - unfold store_item. simpl. by rewrite hash_of_cons.
  - rewrite store_item_rows_cons. rewrite (hash_of_cons r table).
    repeat case_decide; rewrite ?hash_of_cons; simpl;
      repeat case_decide; try done; try congruence.
Qed.

Lemma store_item_skips (item : KnowledgeItem) (w : World) :
  hash_of (rows w) (dedupe_key item) = Some (content_hash item) →
  store_item item w = (Skipped, w).
Proof.
  unfold hash_of, store_item. destruct (find_existing _ _) as [[i ex]|]; [|done].
  simpl. intros [= Heq]. by rewrite decide_True.
Qed.

Lemma ingest_steps_items (raw_items : list RawItem) (acc : Stats * World) :
  fold_left ingest_step raw_items acc
  = fold_left item_step (omap process_item raw_items) acc.
Proof.
  revert acc. induction raw_items as [|raw l IH]; intros acc; [done|].
  simpl. unfold ingest_step at 2. destruct (process_item raw); simpl; apply IH.
Qed.

Lemma fold_keeps_hash (items : list KnowledgeItem) (acc : Stats * World)
    (k h : string) :
  hash_of (rows acc.2) k = Some h →
  (∀ b, b ∈ items → dedupe_key b = k → content_hash b = h) →
  hash_of (rows (fold_left item_step items acc).2) k = Some h.
Proof.
  revert acc. induction items as [|a items IH]; intros acc Hk Hall; [done|].
  simpl. apply IH.
  - unfold item_step. simpl. rewrite hash_of_store_item. case_decide as Ha; [|done].
    f_equal. apply Hall; [left|done].
  - intros b Hb. apply Hall. by right.
Qed.

Lemma fold_records_hashes (items : list KnowledgeItem) (acc : Stats * World) :
  consistent items →
  ∀ a, a ∈ items →
    hash_of (rows (fold_left item_step items acc).2) (dedupe_key a)
    = Some (content_hash a).
Proof.
  revert acc. induction items as [|x items IH]; intros acc Hc a Ha.
  - by apply elem_of_nil in Ha.
  - simpl. apply elem_of_cons in Ha as [->|Ha].
    + apply fold_keeps_hash.
      * unfold item_step. simpl. rewrite hash_of_store_item. by rewrite decide_True.
      * intros b Hb Hkey. apply Hc; [by right|left|done].
    + apply IH; [|done]. intros b c Hb Hc'. apply Hc; by right.
Qed.

Lemma item_step_skips (item : KnowledgeItem) (s : Stats) (w : World) :
  hash_of (rows w) (dedupe_key item) = Some (content_hash item) →
  item_step (s, w) item = (bump_skipped (bump_processed s), w).
Proof. intros Hh. unfold item_step. simpl. by rewrite store_item_skips. Qed.

Lemma fold_all_skipped (items : list KnowledgeItem) (s : Stats) (w : World) :
  (∀ a, a ∈ items → hash_of (rows w) (dedupe_key a) = Some (content_hash a)) →
  let r := fold_left item_step items (s, w) in
  r.2 = w ∧ stored r.1 = stored s ∧ fetched r.1 = fetched s
  ∧ skipped r.1 = skipped s + length items
  ∧ processed r.1 = processed s + length items.
Proof.
  revert s. induction items as [|a items IH]; intros s Hall; simpl.
  - repeat split; (done || lia).
  - rewrite item_step_skips by (apply Hall; left).
    destruct (IH (bump_skipped (bump_processed s))) as (-> & Hs & Hf & Hk & Hp).
    { intros b Hb. apply Hall. by right. }
    simpl in *. repeat split; (done || lia).
Qed.

(** No run gives a dedupe key a second row. *)
Lemma store_item_keys_unique (item : KnowledgeItem) (w : World) :
  NoDup (map dedupe_key (rows w)) →
  NoDup (map dedupe_key (rows (store_item item w).2)).
Proof.
  intros Hnd. unfold store_item.
  destruct (find_existing _ _) as [[i ex]|] eqn:Hfind; simpl.
  - case_decide; [done|]. simpl.
    apply find_existing_record in Hfind as (Hi & Hk & _).
    change (NoDup (dedupe_key <$> <[i:=overwrite ex item (db_now w)]> (rows w))).
    rewrite list_fmap_insert. simpl. rewrite <- Hk.
    rewrite list_insert_id; [done|]. by rewrite list_lookup_fmap, Hi.
  - apply find_existing_none in Hfind. rewrite map_app. simpl.
    apply NoDup_app. split; [done|]. split; [|apply NoDup_singleton].
    intros k Hk Hk'. apply list_elem_of_singleton in Hk' as ->.
    apply list_elem_of_In, in_map_iff in Hk as (row & Hrow & Hin).
    apply list_elem_of_In in Hin.
    by apply (proj1 (Forall_forall _ _) Hfind row Hin).
Qed.

(** Ingestion leaves the AI fields alone: a processed item has none, an
    inserted row takes the item's, and an updated row keeps its own. *)
Lemma process_item_ai_unset (raw_item : RawItem) (item : KnowledgeItem) :
  process_item raw_item = Some item → ai_unset item.
Proof.
  unfold process_item. intros Hitem.
  destruct (if String.eqb _ _ then _ else _) as [ex|]; [|done]. simpl in Hitem.
  destruct (mapM relabel _) as [sn|]; [|done]. simpl in Hitem.
  destruct (raw_source_url raw_item) as [url|]; [|done]. simpl in Hitem.
  injection Hitem as <-. by repeat split.
Qed.

Lemma store_item_all_or_nothing (item : KnowledgeItem) (w : World) :
  all_or_nothing item → Forall all_or_nothing (rows w) →
  Forall all_or_nothing (rows (store_item item w).2).
Proof.
  intros Hitem Hrows. unfold store_item.
  destruct (find_existing _ _) as [[i ex]|] eqn:Hfind; simpl.
  - case_decide; [done|]. simpl. apply Forall_insert; [done|].
    apply find_existing_record in Hfind as (Hi & _).
    apply (Forall_lookup_1 _ _ _ _ Hrows) in Hi. exact Hi.
  - apply Forall_app. split; [done|]. constructor; [exact Hitem|constructor].
Qed.

(** C4, amended. When the items of a source that share a dedupe key share
    their content hash, a second run over the same fetched items stores
    nothing and skips every item that [process_item] accepts, leaving
    the table as the first run left it. *)
Theorem ingest_twice_skips (w : World) (raw_items : list RawItem) :
  fetch_items = Some raw_items →
  consistent (omap process_item raw_items) →
  let first := ingest w in
  let second := ingest first.2 in
  stored second.1 = 0
  ∧ skipped second.1 = length (omap process_item raw_items)
  ∧ processed second.1 = length (omap process_item raw_items)
  ∧ fetched second.1 = length raw_items
  ∧ second.2 = first.2.
Proof.
  intros Hfetch Hcons first second. subst first second. unfold ingest.
  rewrite Hfetch. rewrite !ingest_steps_items.
  set (items := omap process_item raw_items) in *.
  set (acc1 := fold_left item_step items (_, w)).
  pose proof (fold_all_skipped items (mkStats (length raw_items) 0 0 0 0) acc1.2) as Hskip.
  destruct Hskip as (Hw & Hs & Hf & Hk & Hp).
  { intros a Ha. by apply fold_records_hashes. }
  simpl in *. by repeat split.
Qed.

End IngestFacts.

Section IngestExamples.

Import Spec Ingest.

Lemma ingest_decision_table_witness :
  processed (@ingest_step (Feed.connector []) (mkStats 0 0 0 0 0, Feed.empty_world)
               (Feed.entry "http://x.com/a/" "first")).1 = 1.
Proof.
  destruct (@process_item (Feed.connector []) (Feed.entry "http://x.com/a/" "first"))
    as [item|] eqn:Hitem.
  - exact (proj1 (@ingest_decision_table (Feed.connector []) (mkStats 0 0 0 0 0)
                    Feed.empty_world _ item Hitem)).
  - vm_compute in Hitem. discriminate.
Defined.

(** The scenario of the specification: the second of two items whose
    URLs differ by a trailing slash meets the record of the first, and
    is an update, not a second insert. *)
Example ingest_trailing_slash_scenario :
  map dedupe_key (rows (@ingest (Feed.connector Feed.posted_twice) Feed.empty_world).2)
  = ["rss::http://x.com/a"].
Proof. vm_compute. reflexivity. Qed.

(** C4, as stated, fails: a source that yields one dedupe key with two
    contents is stored again, item by item, on every run. *)
Lemma ingest_twice_stores_again :
  fetched (@ingest (Feed.connector Feed.posted_twice)
             (@ingest (Feed.connector Feed.posted_twice) Feed.empty_world).2).1 = 2
  ∧ stored (@ingest (Feed.connector Feed.posted_twice)
              (@ingest (Feed.connector Feed.posted_twice) Feed.empty_world).2).1 = 2
  ∧ skipped (@ingest (Feed.connector Feed.posted_twice)
               (@ingest (Feed.connector Feed.posted_twice) Feed.empty_world).2).1 = 0.
Proof. vm_compute. repeat split. Qed.

Lemma two_posts_consistent :
  consistent (omap (@process_item (Feed.connector Feed.two_posts)) Feed.two_posts).
Proof.
  let l := eval vm_compute in
    (omap (@process_item (Feed.connector Feed.two_posts)) Feed.two_posts) in
  change (consistent l).
  intros a b Ha Hb Hk.
  apply elem_of_cons in Ha as [->|Ha]; [|apply list_elem_of_singleton in Ha as ->];
    (apply elem_of_cons in Hb as [->|Hb]; [|apply list_elem_of_singleton in Hb as ->]);
    first [reflexivity | vm_compute in Hk; discriminate].
Defined.

Lemma ingest_twice_skips_witness :
  stored (@ingest (Feed.connector Feed.two_posts)
            (@ingest (Feed.connector Feed.two_posts) Feed.empty_world).2).1 = 0
  ∧ skipped (@ingest (Feed.connector Feed.two_posts)
               (@ingest (Feed.connector Feed.two_posts) Feed.empty_world).2).1
    = length (omap (@process_item (Feed.connector Feed.two_posts)) Feed.two_posts).
Proof.
  pose proof (@ingest_twice_skips (Feed.connector Feed.two_posts) Feed.empty_world
                Feed.two_posts eq_refl two_posts_consistent) as (Hs & Hk & _).
  exact (conj Hs Hk).
Defined.

End IngestExamples.

(** ** Rate limiting *)

Section RateLimitFacts.

#[local] Open Scope Z_scope.

Import AIRateLimiter.

Lemma minimum_above (bound r : Z) (rest : list Z) :
  Forall (λ t, bound < t) (r :: rest) → bound < minimum r rest.
Proof.
  intros Hall. apply Forall_cons in Hall as [Hr Hrest]. unfold minimum.
  induction Hrest as [|x l Hx _ IH]; simpl; [done|]. lia.
Qed.

Lemma minimum_member (r : Z) (rest : list Z) : minimum r rest ∈ r :: rest.
Proof.
  unfold minimum. induction rest as [|x l IH]; simpl; [left|].
  destruct (Z.min_spec x (foldr Z.min r l)) as [[_ ->]|[_ ->]].
  - right. left.
  - apply elem_of_cons in IH as [->|IH]; [left|right; by right].
Qed.

Lemma minimum_least (r : Z) (rest : list Z) :
  Forall (λ t, minimum r rest ≤ t) (r :: rest).
Proof.
  unfold minimum. induction rest as [|x l IH]; simpl.
  - by repeat constructor.
  - apply Forall_cons in IH as [Hr Hl]. repeat constructor; [lia|lia|].
    eapply Forall_impl; [exact Hl|]. simpl. lia.
Qed.

Lemma recent_above (bound : Z) (l : list Z) :
  Forall (λ t, bound < t) (filter (λ t, bound < t) l).
Proof. apply Forall_forall. intros t Ht. by apply list_elem_of_filter in Ht as [? _]. Qed.

(** A slot is free: the call records the clock and returns at once. *)
Lemma acquire_free_slot (fuel : nat) (l : Limiter) (now : Z) (slept : list Z) :
  locked l = false →
  Z.of_nat (length (filter (λ t, now - window_seconds l < t) (requests l)))
    < max_requests l →
  acquire (S fuel) l now slept
  = Returned (with_requests l
                (filter (λ t, now - window_seconds l < t) (requests l) ++ [now]))
      now slept.
Proof. intros Hl Hfree. simpl. rewrite Hl. by rewrite decide_True. Qed.

(** No slot is free: the call sleeps for [oldest + window - now], a
    positive time, and then calls itself while it still holds the lock,
    which it can only wait for. *)
Lemma acquire_saturated_blocks (fuel : nat) (l : Limiter) (now : Z) (slept : list Z) :
  locked l = false →
  let reqs := filter (λ t, now - window_seconds l < t) (requests l) in
  max_requests l ≤ Z.of_nat (length reqs) →
  reqs ≠ [] →
  ∃ oldest wait,
    oldest ∈ reqs ∧ Forall (λ t, oldest ≤ t) reqs
    ∧ wait = oldest + window_seconds l - now ∧ 0 < wait
    ∧ acquire (S (S fuel)) l now slept
      = Blocked (with_lock (with_requests l reqs) true) (now + wait) (slept ++ [wait]).
Proof.
  intros Hl reqs Hfull Hne.
  pose proof (recent_above (now - window_seconds l) (requests l)) as Hrecent.
  fold reqs in Hrecent.
  destruct reqs as [|r rest] eqn:Hreqs; [done|].
  exists (minimum r rest), (minimum r rest + window_seconds l - now).
  pose proof (minimum_above _ _ _ Hrecent) as Hmin.
  split; [apply minimum_member|]. split; [apply minimum_least|].
  split; [done|]. split; [lia|].
  cbn [acquire]. rewrite Hl. fold reqs. rewrite Hreqs.
  rewrite decide_False by (simpl in *; lia).
  rewrite Z.max_r by lia. rewrite decide_True by lia. reflexivity.
Qed.

(** C5 at its failing input: one request per 60 ticks, a request made at
    tick 100, and a second [acquire()] at tick 130. The call sleeps the 30
    ticks that are left of the window and then waits for its own lock: it
    never returns, however long it is run. *)
Theorem acquire_second_call_never_returns (fuel : nat) :
  acquire (S (S fuel)) (mkLimiter 1 60 [100] false) 130 []
  = Blocked (mkLimiter 1 60 [100] true) 160 [30]
  ∧ ∀ l now slept,
      acquire fuel (mkLimiter 1 60 [100] false) 130 [] ≠ Returned l now slept.
Proof.
  split; [reflexivity|]. intros l now slept.
  destruct fuel as [|[|fuel]]; discriminate.
Qed.

End RateLimitFacts.

Section DomainRateLimitFacts.

#[local] Open Scope Z_scope.

Import RateLimiter.
Variable netloc : string → string.

Lemma length_filter_drop (b x : Z) (l : list Z) :
  x ∈ l → x ≤ b → (length (filter (λ t, (b < t)%Z) l) < length l)%nat.
Proof.
  intros Hx Hb. induction l as [|y l IH]; [by apply elem_of_nil in Hx|].
  rewrite filter_cons. apply elem_of_cons in Hx as [<-|Hx].
  - rewrite decide_False by lia. pose proof (length_filter (λ t, b < t) l). simpl. lia.
  - specialize (IH Hx). case_decide; simpl; lia.
Qed.

(** The sibling limiter does what [acquire] misses: at a full window of
    one domain [wait_if_needed] sleeps the positive time left until the
    oldest request leaves the window and returns, and a request can then
    be made. *)
Lemma wait_if_needed_proceeds (l : Limiter) (url : string) (now : Z) :
  let reqs := filter (λ t, now - window_seconds l < t)
                (default [] (requests l !! _get_domain netloc url)) in
  Z.of_nat (length reqs) = max_requests l →
  reqs ≠ [] →
  let r := wait_if_needed netloc l url now in
  now < r.2 ∧ (can_make_request netloc r.1 url r.2).2 = (true, 0).
Proof.
  intros reqs Hfull Hne r. subst r. unfold wait_if_needed, can_make_request.
  fold reqs. rewrite decide_False by lia.
  pose proof (recent_above (now - window_seconds l)
                (default [] (requests l !! _get_domain netloc url))) as Hrecent.
  fold reqs in Hrecent.
  destruct reqs as [|r0 rest] eqn:Hreqs; [done|]. cbn [fst snd].
  pose proof (minimum_above _ _ _ Hrecent) as Hmin.
  pose proof (minimum_member r0 rest) as Hmem.
  rewrite Z.max_r by lia. split; [lia|].
  cbn [requests max_requests window_seconds]. rewrite lookup_insert_eq. cbn [default].
  rewrite decide_True; [done|].
  pose proof (length_filter_drop
    (now + (AIRateLimiter.minimum r0 rest + window_seconds l - now) - window_seconds l)
    (AIRateLimiter.minimum r0 rest) (r0 :: rest) Hmem) as Hdrop.
  rewrite <- Hfull. apply Nat2Z.inj_lt. apply Hdrop. lia.
Qed.

End DomainRateLimitFacts.

(** ** Query construction *)

Section SearchFacts.

Import Search.

Lemma present_default (cs : list Clause) : default [] (present cs) = cs.
Proof. by destruct cs. Qed.

(** C6. In semantic-only mode with a query embedding the one required
    clause is the script score [cosineSimilarity(query_vector, doc_vector)
    + 1.0] over all documents; there is no optional clause, and no
    clause of the query is a keyword match, whatever the text query is.
    Without an embedding the mode builds no scoring clause at all. *)
Theorem semantic_only_query (p : Params) :
  semantic p = true → hybrid p = false →
  let b := query (build_search_query p) in
  (∀ v, query_embedding p = Some v → v ≠ [] →
     must b
     = Some [ScriptScore MatchAll
               "cosineSimilarity(params.query_vector, 'embedding') + 1.0" v])
  ∧ (query_embedding p = None ∨ query_embedding p = Some [] → must b = None)
  ∧ should b = None ∧ minimum_should_match b = None
  ∧ Forall (λ c, is_keyword c = false) (Spec.clauses b).
Proof.
  intros Hs Hh b. subst b. unfold build_search_query, Spec.clauses.
  rewrite Hs, Hh. simpl.
  destruct (given_list (query_embedding p)) as [v|] eqn:Hv;
    destruct (given (q p)) as [text|]; simpl; rewrite ?present_default.
  all: split;
    [intros v' Hv' Hne; rewrite Hv' in Hv; destruct v'; [done|];
     simpl in Hv; by try injection Hv as <-|].
  all: split;
    [intros [Hv'|Hv']; rewrite Hv' in Hv; by simpl in Hv|].
  all: repeat (split; [done|]).
  all: destruct (given (p_source_type p)), (given (p_primary_language p)),
         (given (p_framework p)), (given_list (p_tags p)), (given (from_date p));
       simpl; by repeat constructor.
Qed.

Lemma semantic_only_query_witness :
  must (query (build_search_query
    (mkParams (Some "python async") None (Some "Python") None None None
       true false (Some [0.5%float; 0.25%float]) 1 20)))
  = Some [ScriptScore MatchAll
            "cosineSimilarity(params.query_vector, 'embedding') + 1.0"
            [0.5%float; 0.25%float]].
Proof.
  apply (semantic_only_query
    (mkParams (Some "python async") None (Some "Python") None None None
       true false (Some [0.5%float; 0.25%float]) 1 20) eq_refl eq_refl).
  - reflexivity.
  - discriminate.
Defined.

(** Hybrid mode, by contrast, offers both clauses as alternatives. *)
Example hybrid_query_clauses :
  should (query (build_search_query
    (mkParams (Some "python") None None None None None
       true true (Some [0.5%float]) 1 20)))
  = Some [vector_query [0.5%float]; keyword_query "python"].
Proof. reflexivity. Qed.

End SearchFacts.

(** ** The enrichment schema *)

Section SchemaFacts.

Import Spec Schemas.

Lemma lower_char_not_upper (c : ascii) : PyStr.is_upper (PyStr.lower_char c) = false.
Proof. destruct c as [[] [] [] [] [] [] [] []]; reflexivity. Qed.

Lemma lower_char_space (c : ascii) : PyStr.is_space (PyStr.lower_char c) = PyStr.is_space c.
Proof. destruct c as [[] [] [] [] [] [] [] []]; reflexivity. Qed.

Lemma hyphen_for_space (c : ascii) :
  let c' := if (PyStr.code c =? 32)%N then "-"%char else c in
  (PyStr.code c' =? 32)%N = false
  ∧ (PyStr.is_upper c = false → PyStr.is_upper c' = false)
  ∧ (PyStr.is_space c = false → c' = c).
Proof. destruct c as [[] [] [] [] [] [] [] []]; repeat split; done. Qed.

Lemma lower_free_of_upper (s : string) : free_of PyStr.is_upper (PyStr.lower s).
Proof.
  unfold free_of. induction s as [|c s IH]; [done|]. simpl.
  by rewrite lower_char_not_upper, IH.
Qed.

Lemma lstrip_by_all_chars (p q : ascii → bool) (s : string) :
  all_chars q s = true → all_chars q (PyStr.lstrip_by p s) = true.
Proof.
  induction s as [|c s IH]; [done|]. simpl. intros [Hc Hs]%andb_prop.
  destruct (p c); [by apply IH|]. simpl. by rewrite Hc, Hs.
Qed.

Lemma rstrip_by_all_chars (p q : ascii → bool) (s : string) :
  all_chars q s = true → all_chars q (PyStr.rstrip_by p s) = true.
Proof.
  induction s as [|c s IH]; [done|]. simpl. intros [Hc Hs]%andb_prop.
  specialize (IH Hs). destruct (PyStr.rstrip_by p s).
  - destruct (p c); [done|]. simpl. by rewrite Hc.
  - simpl in *. by rewrite Hc, IH.
Qed.

Lemma strip_all_chars (q : ascii → bool) (s : string) :
  all_chars q s = true → all_chars q (PyStr.strip s) = true.
Proof. intros Hs. by apply lstrip_by_all_chars, rstrip_by_all_chars. Qed.

Lemma lstrip_by_first (p : ascii → bool) (s : string) (c : ascii) :
  first_char (PyStr.lstrip_by p s) = Some c → p c = false.
Proof.
  induction s as [|a s IH]; [done|]. simpl. destruct (p a) eqn:Ha; [done|].
  simpl. by intros [= <-].
Qed.

Lemma last_char_app (s : string) (c : ascii) : last_char (s +:+ String c "") = Some c.
Proof.
  induction s as [|a s IH]; [done|]. rewrite app_String. simpl.
  destruct (s +:+ String c "") eqn:Hs; [by destruct s|done].
Qed.

Lemma last_char_cut (s : string) (c : ascii) :
  last_char s = Some c → ∃ s', s = s' +:+ String c "".
Proof.
  induction s as [|a s IH]; [done|]. simpl. destruct s as [|b s].
  - intros [= <-]. by exists "".
  - intros Hl. destruct (IH Hl) as [s' Hs']. exists (String a s').
    by rewrite app_String, <- Hs'.
Qed.

Lemma rstrip_by_last_char (p : ascii → bool) (s : string) (c : ascii) :
  last_char (PyStr.rstrip_by p s) = Some c → p c = false.
Proof. intros [s' Hs']%last_char_cut. by apply rstrip_by_last in Hs'. Qed.

Lemma lstrip_by_last_char (p : ascii → bool) (s : string) (c : ascii) :
  last_char (PyStr.lstrip_by p s) = Some c → last_char s = Some c.
Proof.
  induction s as [|a s IH]; [done|]. simpl. destruct (p a); [|done].
  intros Hl. specialize (IH Hl). destruct s; [done|done].
Qed.

Lemma replace_first (s : string) (c : ascii) :
  (∀ a, first_char s = Some a → PyStr.is_space a = false) →
  first_char (PyStr.replace_space_hyphen s) = Some c → PyStr.is_space c = false.
Proof.
  destruct s as [|a s]; [done|]. simpl. intros Ha [= <-].
  destruct (hyphen_for_space a) as (_ & _ & Hsame). simpl in Hsame.
  rewrite Hsame; by apply Ha.
Qed.

Lemma replace_last (s : string) (c : ascii) :
  (∀ a, last_char s = Some a → PyStr.is_space a = false) →
  last_char (PyStr.replace_space_hyphen s) = Some c → PyStr.is_space c = false.
Proof.
  induction s as [|a s IH]; [done|]. simpl. destruct s as [|b s].
  - simpl. intros Ha [= <-].
    destruct (hyphen_for_space a) as (_ & _ & Hsame). simpl in Hsame.
    rewrite Hsame; by apply Ha.
  - intros Ha Hl. apply IH; [|done]. intros a' Ha'. by apply Ha.
Qed.

Lemma replace_free (s : string) :
  free_of (λ c, (PyStr.code c =? 32)%N) (PyStr.replace_space_hyphen s)
  ∧ (free_of PyStr.is_upper s → free_of PyStr.is_upper (PyStr.replace_space_hyphen s)).
Proof.
  unfold free_of. induction s as [|a s [IH1 IH2]]; [done|]. simpl.
  destruct (hyphen_for_space a) as (Hsp & Hup & _). simpl in Hsp, Hup.
  split.
  - by rewrite Hsp, IH1.
  - intros [Ha Hs]%andb_prop. apply negb_true_iff in Ha.
    by rewrite (Hup Ha), (IH2 Hs).
Qed.

Lemma lower_strip (s : string) : PyStr.strip (PyStr.lower s) = PyStr.lower (PyStr.strip s).
Proof.
  unfold PyStr.strip.
  assert (Hr : ∀ s, PyStr.rstrip_by PyStr.is_space (PyStr.lower s)
                    = PyStr.lower (PyStr.rstrip_by PyStr.is_space s)).
  { clear. induction s as [|c s IH]; [done|]. simpl. rewrite IH, lower_char_space.
    destruct (PyStr.rstrip_by PyStr.is_space s); [|done].
    by destruct (PyStr.is_space c). }
  rewrite Hr. generalize (PyStr.rstrip_by PyStr.is_space s). clear.
  induction s as [|c s IH]; [done|]. simpl. rewrite lower_char_space.
  by destruct (PyStr.is_space c).
Qed.

(** What the validator makes of one tag that it keeps. *)
Lemma normalize_tag_clean (tag : string) :
  PyStr.truthy (PyStr.strip tag) = true → clean_tag (normalize_tag tag).
Proof.
  intros Hkeep. unfold normalize_tag. repeat split.
  - rewrite lower_strip. destruct (PyStr.strip tag); [done|]. done.
  - apply replace_free, strip_all_chars, lower_free_of_upper.
  - apply replace_free.
  - intros c. apply replace_first. intros a. apply lstrip_by_first.
  - intros c. apply replace_last. intros a Ha.
    apply lstrip_by_last_char in Ha. by apply rstrip_by_last_char in Ha.
Qed.

(** C8. The schema accepts its input exactly when the summary is there
    with at most 500 characters, the tags are there with at most 15
    entries, the quality score is there and lies in [0.0, 1.0], and every
    snippet entry names its intent. The tags it then holds are the input
    tags, blank ones dropped, each lower-cased, trimmed and with hyphens
    for its spaces: not empty, without upper-case letters or spaces, and
    without whitespace at either end. *)
Theorem enrichment_schema (i : EnrichmentInput) :
  (is_Some (validate_enrichment i) ↔
     (∃ summary, in_summary i = Some summary ∧ String.length summary ≤ 500)
     ∧ (∃ tags, in_tags i = Some tags ∧ length tags ≤ 15)
     ∧ (∃ score, in_quality_score i = Some score
                 ∧ PrimFloat.leb 0 score = true ∧ PrimFloat.leb score 1 = true)
     ∧ Forall (λ s, is_Some (in_intent s)) (default [] (in_code_snippets i)))
  ∧ (∀ e, validate_enrichment i = Some e →
       in_summary i = Some (e_summary e)
       ∧ in_quality_score i = Some (e_quality_score e)
       ∧ (∃ tags, in_tags i = Some tags
            ∧ e_tags e
              = map (λ tag, PyStr.replace_space_hyphen (PyStr.strip (PyStr.lower tag)))
                  (List.filter (λ tag, negb (String.eqb (PyStr.strip tag) "")) tags))
       ∧ Forall clean_tag (e_tags e)).
Proof.
  unfold validate_enrichment, in_unit_interval. split; [split|].
  - intros [e He].
    destruct (in_summary i) as [summary|]; [|done]. simpl in He.
    case_guard; [|done]. simpl in He.
    destruct (in_tags i) as [tags|]; [|done]. simpl in He.
    case_guard; [|done]. simpl in He.
    destruct (in_quality_score i) as [score|]; [|done]. simpl in He.
    case_guard as Hscore; [|done]. simpl in He.
    apply andb_prop in Hscore as [Hlo Hhi].
    destruct (mapM validate_snippet _) as [sn|] eqn:Hsn; [|done].
    repeat split; eauto.
    assert (Hall : is_Some (mapM validate_snippet (default [] (in_code_snippets i))))
      by (by rewrite Hsn).
    apply mapM_is_Some in Hall. eapply Forall_impl; [exact Hall|].
    intros s [x Hx]. simpl in Hx. unfold validate_snippet in Hx.
    destruct (in_intent s); [by eexists|done].
  - intros ((summary & -> & Hlen) & (tags & -> & Htags) & (score & -> & Hlo & Hhi) & Hsn).
    simpl. rewrite option_guard_True by done. simpl.
    rewrite option_guard_True by done. simpl.
    rewrite option_guard_True by (by rewrite Hlo, Hhi). simpl.
    assert (Hall : is_Some (mapM validate_snippet (default [] (in_code_snippets i)))).
    { apply mapM_is_Some. eapply Forall_impl; [exact Hsn|].
      intros s [x Hx]. simpl. unfold validate_snippet. rewrite Hx. by eexists. }
    destruct Hall as [sn ->]. by eexists.
  - intros e He.
    destruct (in_summary i) as [summary|]; [|done]. simpl in He.
    case_guard; [|done]. simpl in He.
    destruct (in_tags i) as [tags|]; [|done]. simpl in He.
    case_guard; [|done]. simpl in He.
    destruct (in_quality_score i) as [score|]; [|done]. simpl in He.
    case_guard; [|done]. simpl in He.
    destruct (mapM validate_snippet _) as [sn|]; [|done].
    simpl in He. injection He as <-. simpl. repeat split.
    + exists tags. split; [done|]. unfold validate_tags, normalize_tag.
      f_equal. induction tags as [|t tags IH]; [done|]. simpl.
      rewrite <- IH by (simpl in *; lia). by destruct (PyStr.strip t).
    + unfold validate_tags. apply Forall_forall. intros tag Htag.
      apply list_elem_of_In, in_map_iff in Htag as (t & <- & Ht).
      apply filter_In in Ht as [_ Ht]. by apply normalize_tag_clean.
Qed.

(** The examples of the specification and of the tests. *)
Example schema_rejects_score_above_one :
  validate_enrichment (mkEnrichmentInput (Some "Test") (Some []) None None
                         (Some 1.5%float) (Some [])) = None.
Proof. reflexivity. Qed.

Example schema_accepts_half :
  e_quality_score <$> validate_enrichment (mkEnrichmentInput (Some "Test") (Some [])
                         None None (Some 0.5%float) (Some [])) = Some 0.5%float.
Proof. reflexivity. Qed.

Example schema_rejects_nan :
  validate_enrichment (mkEnrichmentInput (Some "Test") (Some []) None None
                         (Some PrimFloat.nan) (Some [])) = None.
Proof. reflexivity. Qed.

Example schema_normalizes_tags :
  validate_tags ["Python"; "React.js"; "  Machine Learning "; "   "]
  = ["python"; "react.js"; "machine-learning"].
Proof. reflexivity. Qed.

Lemma enrichment_schema_witness : Forall clean_tag ["python"; "react.js"].
Proof.
  exact (proj2 (proj2 (proj2 (proj2 (enrichment_schema
    (mkEnrichmentInput (Some "Test") (Some ["Python"; "React.js"]) None None
       (Some 0.75%float) (Some [])))
    (mkEnrichment "Test" ["python"; "react.js"] None None 0.75%float []) eq_refl)))).
Defined.

End SchemaFacts.

(** ** The enrichment task *)

Section EnrichFacts.

Import Spec Schemas Enrich.
Context `{JsonLib}.

Lemma all_or_nothing_stamp (r : KnowledgeItem) :
  all_or_nothing r → (is_Some (ai_extracted_at r) ↔ ai_set_together r).
Proof.
  intros [(_ & _ & _ & _ & _ & Hat)|Hset].
  - rewrite Hat. split; [by intros [? ?]|]. intros (e & now & Hfrom).
    destruct Hfrom as (_ & _ & _ & _ & _ & Hfrom). congruence.
  - split; [done|]. intros _. destruct Hset as (e & now & Hfrom).
    destruct Hfrom as (_ & _ & _ & _ & _ & ->). by eexists.
Qed.

Lemma apply_enrichment_sets (item : KnowledgeItem) (e : KnowledgeItemEnrichment) (now : Z) :
  ai_set_from (apply_enrichment item e now) e now.
Proof. by repeat split. Qed.

(** C7. A provider error asks for a retry after 60 seconds while the
    queue has made fewer than [max_retries] retries, and fails the task
    after that; a reply that does not parse or validate ends the run with
    an error status or an exception, never with a retry; both leave the
    table as it was. A reply that validates sets all AI fields of the
    item from the one enrichment and stamps [ai_extracted_at]. So rows
    whose AI fields were all unset or set together stay so, and on those
    [ai_extracted_at] is there exactly when the fields were set together. *)
Theorem enrichment_failure_semantics (env : Env) (db : list KnowledgeItem) (item_id : N) :
  let r := enrich_knowledge_item env db item_id in
  (∀ i item, list_find (λ row, id row = Some item_id) db = Some (i, item) →
     provider_available env = true →
     (∀ e, call_result env = inl e →
        r.2 = db
        ∧ (retries env < max_retries → r.1 = Retry 60)
        ∧ (max_retries ≤ retries env → r.1 = Raise e))
     ∧ (∀ text e, call_result env = inr text → parse_enrichment text = inl e →
          r.2 = db
          ∧ (r.1 = Return (StatusError "Failed to parse AI response") ∨ r.1 = Raise e)
          ∧ ∀ countdown, r.1 ≠ Retry countdown)
     ∧ (∀ text e, call_result env = inr text → parse_enrichment text = inr e →
          r.1 = Return (StatusSuccess item_id)
          ∧ ∃ row, r.2 = <[i := row]> db ∧ ai_set_from row e (utcnow env)
                   ∧ id row = id item ∧ dedupe_key row = dedupe_key item
                   ∧ content_hash row = content_hash item))
  ∧ (Forall all_or_nothing db →
     Forall (λ row, all_or_nothing row
                    ∧ (is_Some (ai_extracted_at row) ↔ ai_set_together row)) r.2).
Proof.
  intros r. subst r. unfold enrich_knowledge_item. split.
  - intros i item -> ->. simpl. split; [|split].
    + intros e ->. simpl. unfold retry. split; [done|].
      split; intros Hr; [by rewrite decide_True|by rewrite decide_False by lia].
    + intros text e -> ->. destruct (is_value_error e); simpl; split; try done.
      * split; [by left|done].
      * split; [by right|done].
    + intros text e -> ->. simpl. split; [done|]. eexists. split; [done|].
      split; [apply apply_enrichment_sets|done].
  - intros Hdb.
    assert (Hkeep : Forall (λ row, all_or_nothing row
              ∧ (is_Some (ai_extracted_at row) ↔ ai_set_together row)) db).
    { eapply Forall_impl; [exact Hdb|]. intros row Hrow.
      split; [done|by apply all_or_nothing_stamp]. }
    destruct (list_find _ db) as [[i item]|]; [|done].
    destruct (provider_available env); [|done]. simpl.
    destruct (call_result env) as [e|text]; [done|].
    destruct (parse_enrichment text) as [e|e]; [by destruct (is_value_error e)|].
    simpl. apply Forall_insert; [done|].
    assert (Hrow : all_or_nothing (apply_enrichment item e (utcnow env))).
    { right. exists e, (utcnow env). apply apply_enrichment_sets. }
    split; [done|by apply all_or_nothing_stamp].
Qed.

End EnrichFacts.

Section EnrichExamples.

Import Spec Schemas Enrich.

Lemma enrichment_failure_semantics_witness :
  (@enrich_knowledge_item Replies.lib (mkEnv true (inl (OtherError "timeout")) 50 0)
     [Replies.stored_item] 7).1 = Retry 60
  ∧ (@enrich_knowledge_item Replies.lib (mkEnv true (inl (OtherError "timeout")) 50 3)
       [Replies.stored_item] 7).1 = Raise (OtherError "timeout").
Proof.
  split.
  - refine (proj1 (proj2 (proj1 (proj1 (@enrichment_failure_semantics Replies.lib
        (mkEnv true (inl (OtherError "timeout")) 50 0) [Replies.stored_item] 7)
        0%nat Replies.stored_item eq_refl eq_refl) _ eq_refl)) _).
    unfold max_retries. simpl. lia.
  - refine (proj2 (proj2 (proj1 (proj1 (@enrichment_failure_semantics Replies.lib
        (mkEnv true (inl (OtherError "timeout")) 50 3) [Replies.stored_item] 7)
        0%nat Replies.stored_item eq_refl eq_refl) _ eq_refl)) _).
    unfold max_retries. simpl. lia.
Defined.

(** A reply that is no JSON, one that lacks the required fields and one
    that is no object end the run without a write; a good reply sets the
    AI fields. *)
Example enrich_reply_not_json :
  @enrich_knowledge_item Replies.lib (mkEnv true (inr "Sorry, I cannot.") 50 0)
    [Replies.stored_item] 7
  = (Return (StatusError "Failed to parse AI response"), [Replies.stored_item]).
Proof. reflexivity. Qed.

Example enrich_reply_empty_object :
  @enrich_knowledge_item Replies.lib (mkEnv true (inr "{}") 50 0)
    [Replies.stored_item] 7
  = (Return (StatusError "Failed to parse AI response"), [Replies.stored_item]).
Proof. reflexivity. Qed.

Example enrich_reply_array :
  @enrich_knowledge_item Replies.lib (mkEnv true (inr "[]") 50 0)
    [Replies.stored_item] 7
  = (Raise TypeError, [Replies.stored_item]).
Proof. reflexivity. Qed.

Example enrich_reply_good :
  (λ r, (r.1, (λ row, (ai_summary row, ai_tags row, ai_quality_score row,
                       ai_extracted_at row)) <$> r.2))
    (@enrich_knowledge_item Replies.lib (mkEnv true (inr "good") 50 0)
       [Replies.stored_item] 7)
  = (Return (StatusSuccess 7),
     [(Some "Async functions in Python", Some ["python"; "async-io"],
       Some 0.75%float, Some 50%Z)]).
Proof. reflexivity. Qed.

End EnrichExamples.

(** ** Question answering *)

Section AskFacts.

Import Spec Schemas Ask.
Context `{JsonLib} `{Services}.

(** Nothing retrieved: the fixed response, and no text is generated. *)
Lemma ask_without_items (question : string) (filters : option Filters)
    (top_k : nat) (semantic : bool) :
  provider_available = true →
  (∀ p, search_knowledge_items p = inr []) →
  let r := ask_question question filters top_k semantic in
  r.2 = inr (mkAnswer no_information 0 [] [])
  ∧ Forall (λ e, is_generate e = false) r.1.
Proof.
  intros Hp Hs r. subst r. unfold ask_question. rewrite Hp. simpl.
  destruct semantic; [destruct (generate_embedding question)|];
    rewrite Hs; simpl; split; try done; by repeat constructor.
Qed.

(** What [ask_question] does with the reply once items were retrieved. *)
Lemma ask_with_reply (question : string) (filters : option Filters)
    (top_k : nat) (semantic : bool) (item : Hit) (items : list Hit) (text : string) :
  provider_available = true →
  (∀ p, search_knowledge_items p = inr (item :: items)) →
  (∀ p, generate_text p = inr text) →
  (ask_question question filters top_k semantic).2
  = match parse_ask text with
    | inr a =>
        inr (mkAnswer (answer a) (confidence a) (build_citations 1 (item :: items))
               (firstn top_k (item :: items)))
    | inl e =>
        if is_value_error e then
          inr (mkAnswer formatting_error 0.5 (build_citations 1 (item :: items))
                 (firstn top_k (item :: items)))
        else inl e
    end.
Proof.
  intros Hp Hs Hg. unfold ask_question. rewrite Hp. simpl.
  destruct semantic; [destruct (generate_embedding question)|];
    rewrite Hs, Hg; (destruct (parse_ask text) as [err|a]; [|done]);
    by destruct (is_value_error err).
Qed.

(** A reply that is no JSON, or an object that does not validate, is
    replaced by the fallback answer with confidence 0.5. *)
Lemma ask_fallback (question : string) (filters : option Filters)
    (top_k : nat) (semantic : bool) (item : Hit) (items : list Hit) (text : string) :
  provider_available = true →
  (∀ p, search_knowledge_items p = inr (item :: items)) →
  (∀ p, generate_text p = inr text) →
  json_loads (strip_fences text) = None
  ∨ (∃ members, json_loads (strip_fences text) = Some (JObj members)
                ∧ ask_kwargs members ≫= validate_ask = None) →
  ∃ a, (ask_question question filters top_k semantic).2 = inr a
       ∧ a_answer a = formatting_error ∧ a_confidence a = 0.5%float
       ∧ citations a = build_citations 1 (item :: items).
Proof.
  intros Hp Hs Hg Hbad. rewrite (ask_with_reply _ _ _ _ item items text) by done.
  unfold parse_ask, construct.
  destruct Hbad as [->|(members & -> & ->)]; simpl; by eexists.
Qed.

(** A reply that is JSON but no object is not caught: the [TypeError] of
    the unpacking leaves [ask_question]. *)
Lemma ask_non_object_raises (question : string) (filters : option Filters)
    (top_k : nat) (semantic : bool) (item : Hit) (items : list Hit) (text : string)
    (j : Json) :
  provider_available = true →
  (∀ p, search_knowledge_items p = inr (item :: items)) →
  (∀ p, generate_text p = inr text) →
  json_loads (strip_fences text) = Some j →
  (∀ members, j ≠ JObj members) →
  (ask_question question filters top_k semantic).2 = inl TypeError.
Proof.
  intros Hp Hs Hg Hj Hno. rewrite (ask_with_reply _ _ _ _ item items text) by done.
  unfold parse_ask, construct. rewrite Hj.
  destruct j; try done. by destruct (Hno members).
Qed.

End AskFacts.

Section AskExamples.

Import Schemas Ask.

Example ask_nothing_found :
  @ask_question Replies.lib (Replies.services [] (inr "{}")) "How do I await?" None 5 true
  = ([GenerateEmbedding "How do I await?";
      SearchItems (Search.mkParams (Some "How do I await?") None None None None None
                     false false None 1 5)],
     inr (mkAnswer no_information 0 [] [])).
Proof. reflexivity. Qed.

Example ask_reply_not_json :
  (@ask_question Replies.lib (Replies.services [Replies.hit] (inr "It depends."))
     "How do I await?" None 5 false).2
  = inr (mkAnswer formatting_error 0.5
           [mkCitation 1 "A post" "http://x.com/a" "Feed" "7"] [Replies.hit]).
Proof. reflexivity. Qed.

(** C9 at its failing input: one item is retrieved and the provider
    replies with the JSON array [[]]. The reply parses, it is not an
    answer object, and no fallback is substituted: the [TypeError]
    propagates. *)
Theorem ask_array_reply_propagates :
  (@ask_question Replies.lib (Replies.services [Replies.hit] (inr "[]"))
     "How do I await?" None 5 false).2
  = inl TypeError.
Proof.
  apply (@ask_non_object_raises Replies.lib (Replies.services [Replies.hit] (inr "[]"))
           "How do I await?" None 5 false Replies.hit [] "[]" (JArr [])); try done.
Qed.

End AskExamples.

(** ** Language detection *)

Section LanguageFacts.

Import Spec LanguageDetect.

Lemma lower_char_idem (c : ascii) : PyStr.lower_char (PyStr.lower_char c) = PyStr.lower_char c.
Proof. destruct c as [[] [] [] [] [] [] [] []]; reflexivity. Qed.

Lemma lower_idem (s : string) : PyStr.lower (PyStr.lower s) = PyStr.lower s.
Proof. induction s as [|c s IH]; [done|]. simpl. by rewrite lower_char_idem, IH. Qed.

Lemma lstrip_by_idem (p : ascii → bool) (s : string) :
  PyStr.lstrip_by p (PyStr.lstrip_by p s) = PyStr.lstrip_by p s.
Proof.
  induction s as [|c s IH]; [done|]. simpl. destruct (p c) eqn:Hc; [done|].
  simpl. by rewrite Hc.
Qed.

Lemma rstrip_by_idem (p : ascii → bool) (s : string) :
  PyStr.rstrip_by p (PyStr.rstrip_by p s) = PyStr.rstrip_by p s.
Proof.
  induction s as [|c s IH]; [done|]. simpl.
  destruct (PyStr.rstrip_by p s) as [|c' r] eqn:Hr.
  - destruct (p c) eqn:Hc; [done|]. simpl. by rewrite Hc.
  - change (PyStr.rstrip_by p (String c (String c' r))) with
      (match PyStr.rstrip_by p (String c' r) with
       | EmptyString => if p c then EmptyString else String c EmptyString
       | r' => String c r'
       end).
    by rewrite IH.
Qed.

Lemma rstrip_by_lstrip_fixed (p : ascii → bool) (t : string) :
  PyStr.rstrip_by p t = t → PyStr.rstrip_by p (PyStr.lstrip_by p t) = PyStr.lstrip_by p t.
Proof.
  induction t as [|c t IH]; [done|]. intros Ht. simpl. destruct (p c) eqn:Hc; [|done].
  apply IH. simpl in Ht. destruct (PyStr.rstrip_by p t) as [|c' r].
  - by rewrite Hc in Ht.
  - by injection Ht.
Qed.

Lemma strip_idem (s : string) : PyStr.strip (PyStr.strip s) = PyStr.strip s.
Proof.
  unfold PyStr.strip.
  rewrite (rstrip_by_lstrip_fixed _ _ (rstrip_by_idem _ s)). apply lstrip_by_idem.
Qed.

Lemma first_language_known (f : string → bool) (name : string) :
  first_language f = Some name → name ∈ map fst LANGUAGE_PATTERNS.
Proof.
  unfold first_language. destruct (List.find _ _) as [[n ps]|] eqn:Hf; [|done].
  intros [= <-]. apply List.find_some in Hf as [Hin _].
  apply list_elem_of_In, in_map_iff. by exists (n, ps).
Qed.

Lemma lookup_alias_known (key v : string) (m : list (string * string)) :
  lookup_alias key m = Some v → v ∈ map snd m.
Proof.
  induction m as [|[k w] m IH]; [done|]. simpl.
  destruct (String.eqb k key); [intros [= ->]; left|intros Hv; right; by apply IH].
Qed.

Lemma standard_names_fixed :
  Forall (λ name, normalize_language_name name = name) (map fst LANGUAGE_PATTERNS).
Proof. repeat constructor. Qed.

Lemma alias_targets_fixed :
  Forall (λ name, normalize_language_name name = name) (map snd alias_map).
Proof. repeat constructor. Qed.

Lemma standard_names_lower :
  Forall (free_of PyStr.is_upper) (map fst LANGUAGE_PATTERNS ++ map snd alias_map).
Proof. repeat constructor. Qed.

Lemma normalize_language_name_unfold (lang : string) :
  lang ≠ "" →
  normalize_language_name lang
  = match first_language (String.eqb (PyStr.strip (PyStr.lower lang))) with
    | Some standard_name => standard_name
    | None =>
        default (PyStr.strip (PyStr.lower lang))
          (lookup_alias (PyStr.strip (PyStr.lower lang)) alias_map)
    end.
Proof. by destruct lang. Qed.

(** X1. Normalizing a language name twice gives what normalizing it once
    gives, and the result has no upper-case letter, as long as the name
    is not blank. The empty name becomes [text]; a name of whitespace
    only becomes the empty name, which is not a fixed point. *)
Theorem normalize_language_name_idempotent (lang : string) :
  (PyStr.strip lang ≠ "" →
     normalize_language_name (normalize_language_name lang) = normalize_language_name lang
     ∧ free_of PyStr.is_upper (normalize_language_name lang))
  ∧ (lang ≠ "" → PyStr.strip lang = "" →
     normalize_language_name lang = ""
     ∧ normalize_language_name (normalize_language_name lang) = "text")
  ∧ normalize_language_name "" = "text".
Proof.
  split; [|split; [|done]].
  - intros Hne. assert (Hlang : lang ≠ "") by (by intros ->).
    rewrite (normalize_language_name_unfold lang Hlang).
    set (ll := PyStr.strip (PyStr.lower lang)).
    assert (Hll : ll ≠ "").
    { unfold ll. rewrite lower_strip. by destruct (PyStr.strip lang). }
    destruct (first_language (String.eqb ll)) as [name|] eqn:Hfirst.
    { apply first_language_known in Hfirst as Hin. split.
      - by apply (proj1 (Forall_forall _ _) standard_names_fixed).
      - apply (proj1 (Forall_forall _ _) standard_names_lower).
        apply elem_of_app. by left. }
    destruct (lookup_alias ll alias_map) as [v|] eqn:Halias; cbn [default from_option id].
    { apply lookup_alias_known in Halias as Hin. split.
      - by apply (proj1 (Forall_forall _ _) alias_targets_fixed).
      - apply (proj1 (Forall_forall _ _) standard_names_lower).
        apply elem_of_app. by right. }
    split.
    + rewrite (normalize_language_name_unfold ll Hll).
      assert (Hfix : PyStr.strip (PyStr.lower ll) = ll).
      { unfold ll.
        rewrite (lower_strip lang), lower_idem, (lower_strip (PyStr.strip lang)).
        by rewrite strip_idem. }
      by rewrite Hfix, Hfirst, Halias.
    + by apply strip_all_chars, lower_free_of_upper.
  - intros Hlang Hblank. rewrite (normalize_language_name_unfold lang Hlang).
    rewrite lower_strip, Hblank. split; reflexivity.
Qed.

Lemma normalize_language_name_idempotent_witness :
  normalize_language_name (normalize_language_name " JavaScript ")
  = normalize_language_name " JavaScript "
  ∧ normalize_language_name "  " = "".
Proof.
  split.
  - apply (normalize_language_name_idempotent " JavaScript "). discriminate.
  - apply (normalize_language_name_idempotent "  "); [discriminate|reflexivity].
Defined.

(** The examples of the tests. *)
Example normalize_language_name_tests :
  map normalize_language_name ["JavaScript"; "js"; "py"; "c++"; "unknown"]
  = ["javascript"; "javascript"; "python"; "cpp"; "unknown"].
Proof. reflexivity. Qed.

Section Detected.
Variable json_valid : string → bool.

(** Every name the detection can return. *)
Lemma detect_language_known (code : string) (hint : option string) :
  detect_language_from_code json_valid code hint
  ∈ "text" :: map fst LANGUAGE_PATTERNS.
Proof.
  unfold detect_language_from_code.
  match goal with
  | |- context [match ?h with Some lang => lang | None => _ end] =>
      destruct h as [lang|] eqn:Hh
  end.
  - right. destruct hint as [h|]; [|done]. destruct (PyStr.truthy h); [|done].
    by apply first_language_known in Hh.
  - repeat match goal with
           | |- context [if ?b then _ else _] => destruct b
           end;
      apply list_elem_of_In; simpl; tauto.
Qed.

(** X2. Detection returns [text] or a key of the pattern dictionary, so
    the normalization that [process_item] applies to its result changes
    nothing; and a hint that names a language decides whatever the code
    is. *)
Theorem detect_language_normalized (code code' : string) (hint : option string) :
  normalize_language_name (detect_language_from_code json_valid code hint)
  = detect_language_from_code json_valid code hint
  ∧ (∀ h lang, hint = Some h → h ≠ "" →
       first_language
         (λ pattern,
            String.eqb pattern (PyStr.strip (PyText.strip_dots (PyStr.lower h)))
            || PyText.endswith pattern (PyStr.strip (PyText.strip_dots (PyStr.lower h))))
       = Some lang →
       detect_language_from_code json_valid code hint = lang
       ∧ detect_language_from_code json_valid code' hint = lang).
Proof.
  split.
  - pose proof (detect_language_known code hint) as Hk.
    apply elem_of_cons in Hk as [->|Hk]; [done|].
    by apply (proj1 (Forall_forall _ _) standard_names_fixed).
  - intros h lang -> Hh Hfirst. unfold detect_language_from_code.
    destruct h as [|c h]; [done|]. simpl PyStr.truthy. cbv iota.
    by rewrite Hfirst.
Qed.

End Detected.

Lemma detect_language_normalized_witness :
  detect_language_from_code (λ _, false) "some code" (Some "test.py") = "python"
  ∧ detect_language_from_code (λ _, false) "SELECT 1" (Some "test.py") = "python".
Proof.
  apply (proj2 (detect_language_normalized (λ _, false) "some code" "SELECT 1"
                  (Some "test.py")) "test.py" "python" eq_refl);
    [discriminate|reflexivity].
Defined.

(** The examples of the tests. *)
Example detect_language_tests :
  detect_language_from_code (λ _, false)
    (String "010" "def hello():" +:+ String "010" "    print(x)") None = "python"
  ∧ detect_language_from_code (λ _, false)
      (String "010" "function hello() {" +:+ String "010" "    console.log(x);"
         +:+ String "010" "}") None = "javascript"
  ∧ detect_language_from_code (λ _, false)
      (String "010" "SELECT * FROM users" +:+ String "010" "WHERE id = 1") None = "sql".
Proof. repeat split; vm_compute; reflexivity. Qed.

End LanguageFacts.

(** ** More on ingestion *)

Section IngestRuns.

Import Spec Ingest.
Context `{Connector}.

Lemma item_step_counts (a : KnowledgeItem) (s : Stats) (w : World) :
  let r := item_step (s, w) a in
  fetched r.1 = fetched s ∧ processed r.1 = S (processed s)
  ∧ stored r.1 + skipped r.1 = S (stored s + skipped s)
  ∧ indexed r.1 - indexed s = stored r.1 - stored s
  ∧ stored s ≤ stored r.1 ∧ indexed s ≤ indexed r.1 ∧ skipped s ≤ skipped r.1
  ∧ length (index_docs r.2) = length (index_docs w) + (stored r.1 - stored s)
  ∧ length (rows w) ≤ length (rows r.2)
  ∧ length (rows r.2) ≤ length (rows w) + (stored r.1 - stored s).
Proof.
  unfold item_step, store_item. simpl.
  destruct (find_existing _ _) as [[i ex]|]; [case_decide|];
    simpl; rewrite ?length_app, ?length_insert; simpl; repeat split; lia.
Qed.

Lemma item_steps_balance (items : list KnowledgeItem) (s : Stats) (w : World) :
  let r := fold_left item_step items (s, w) in
  fetched r.1 = fetched s
  ∧ processed r.1 = processed s + length items
  ∧ stored r.1 + skipped r.1 = stored s + skipped s + length items
  ∧ indexed r.1 - indexed s = stored r.1 - stored s
  ∧ stored s ≤ stored r.1 ∧ indexed s ≤ indexed r.1 ∧ skipped s ≤ skipped r.1
  ∧ length (index_docs r.2) = length (index_docs w) + (stored r.1 - stored s)
  ∧ length (rows w) ≤ length (rows r.2)
  ∧ length (rows r.2) ≤ length (rows w) + (stored r.1 - stored s).
Proof.
  revert s w. induction items as [|a items IH]; intros s w.
  - simpl. repeat split; lia.
  - cbn [fold_left]. pose proof (item_step_counts a s w) as Hc. cbv zeta in Hc.
    destruct (item_step (s, w) a) as [s1 w1]. simpl in Hc.
    specialize (IH s1 w1). cbv zeta in IH. simpl.
    destruct (fold_left item_step items (s1, w1)) as [s2 w2]. simpl in *.
    repeat split; lia.
Qed.

Lemma length_omap_le {A B} (f : A → option B) (l : list A) :
  length (omap f l) ≤ length l.
Proof. induction l as [|x l IH]; [done|]. csimpl. destruct (f x); simpl; lia. Qed.

(** X3. The counters of a run balance: every fetched item that
    [process_item] accepts is stored or skipped, every stored item is
    indexed, and the table grows by at most the number stored and never
    shrinks. A fetch that raises gives counters of zero and changes
    nothing. *)
Theorem ingest_stats_balance (w : World) :
  let r := ingest w in
  processed r.1 = stored r.1 + skipped r.1
  ∧ indexed r.1 = stored r.1
  ∧ processed r.1 ≤ fetched r.1
  ∧ fetched r.1 = length (default [] fetch_items)
  ∧ length (index_docs r.2) = length (index_docs w) + stored r.1
  ∧ length (rows w) ≤ length (rows r.2) ≤ length (rows w) + stored r.1
  ∧ (fetch_items = None → r = (mkStats 0 0 0 0 0, w)).
Proof.
  intros r. subst r. unfold ingest. destruct fetch_items as [raw_items|]; simpl.
  - rewrite ingest_steps_items.
    pose proof (item_steps_balance (omap process_item raw_items)
                  (mkStats (length raw_items) 0 0 0 0) w) as Hb.
    pose proof (length_omap_le process_item raw_items) as Hl.
    cbv zeta in Hb.
    destruct (fold_left item_step _ _) as [s2 w2]. simpl in *.
    repeat split; (done || lia).
  - repeat split; (done || lia).
Qed.

Lemma item_step_keys_unique (items : list KnowledgeItem) (acc : Stats * World) :
  NoDup (map dedupe_key (rows acc.2)) →
  NoDup (map dedupe_key (rows (fold_left item_step items acc).2)).
Proof.
  revert acc. induction items as [|a items IH]; intros acc Hnd; [done|].
  simpl. apply IH. unfold item_step. simpl. by apply store_item_keys_unique.
Qed.

Lemma store_item_keeps_rows (item : KnowledgeItem) (w : World) (i : nat)
    (row : KnowledgeItem) :
  rows w !! i = Some row →
  ∃ row', rows (store_item item w).2 !! i = Some row'
          ∧ id row' = id row ∧ dedupe_key row' = dedupe_key row
          ∧ found_at row' = found_at row ∧ ai_extracted_at row' = ai_extracted_at row
          ∧ embedding row' = embedding row.
Proof.
  intros Hi. unfold store_item.
  destruct (find_existing _ _) as [[j ex]|] eqn:Hfind; simpl.
  - case_decide; [by exists row|]. simpl.
    apply find_existing_record in Hfind as (Hj & Hk & _).
    destruct (decide (i = j)) as [->|Hij].
    + rewrite list_lookup_insert_eq by (by eapply lookup_lt_Some).
      eexists. split; [done|]. simpl. rewrite Hi in Hj. injection Hj as ->.
      by repeat split.
    + rewrite list_lookup_insert_ne by done. by exists row.
  - rewrite lookup_app_l by (by eapply lookup_lt_Some). by exists row.
Qed.

Lemma item_steps_keep_rows (items : list KnowledgeItem) (acc : Stats * World)
    (i : nat) (row : KnowledgeItem) :
  rows acc.2 !! i = Some row →
  ∃ row', rows (fold_left item_step items acc).2 !! i = Some row'
          ∧ id row' = id row ∧ dedupe_key row' = dedupe_key row
          ∧ found_at row' = found_at row ∧ ai_extracted_at row' = ai_extracted_at row
          ∧ embedding row' = embedding row.
Proof.
  revert acc row. induction items as [|a items IH]; intros acc row Hi.
  - by exists row.
  - simpl. destruct (store_item_keeps_rows a acc.2 i row Hi)
      as (r1 & H1 & Hid & Hk & Hf & Ha & He).
    destruct (IH (item_step acc a) r1 H1) as (r2 & H2 & Hid2 & Hk2 & Hf2 & Ha2 & He2).
    exists r2. repeat split; congruence.
Qed.

(** X4. A run never gives a dedupe key a second row and never removes or
    moves a row: a table with one row per key stays so, and every row
    stays at its place with its id, its dedupe key, its [found_at], its
    [ai_extracted_at] and its embedding. *)
Theorem ingest_keeps_identity (w : World) :
  (NoDup (map dedupe_key (rows w)) → NoDup (map dedupe_key (rows (ingest w).2)))
  ∧ (∀ i row, rows w !! i = Some row →
       ∃ row', rows (ingest w).2 !! i = Some row'
               ∧ id row' = id row ∧ dedupe_key row' = dedupe_key row
               ∧ found_at row' = found_at row
               ∧ ai_extracted_at row' = ai_extracted_at row
               ∧ embedding row' = embedding row).
Proof.
  unfold ingest. destruct fetch_items as [raw_items|].
  - rewrite ingest_steps_items. split.
    + intros Hnd. by apply item_step_keys_unique.
    + intros i row Hi. by apply item_steps_keep_rows.
  - split; [done|]. intros i row Hi. by exists row.
Qed.

Lemma dedupe_key_length (source_type source_url : string) :
  String.length (Dedupe.generate_dedupe_key source_type source_url) ≤ 500.
Proof.
  unfold Dedupe.generate_dedupe_key. case_decide; [done|].
  rewrite sha256_hex_length. lia.
Qed.

(** X5. What [process_item] accepts: the raw item has a source URL, the
    dedupe key of the item is the key of the connector's source type and
    that URL and fits its column, the content hash has 64 characters,
    the item has no id and no AI field yet, and when the raw item has a
    title the content hash is the hash of the item's own title, body
    text and snippets. Without a source URL nothing is accepted. *)
Theorem process_item_identity (raw_item : RawItem) :
  (raw_source_url raw_item = None → process_item raw_item = None)
  ∧ (∀ item, process_item raw_item = Some item →
       (∃ url, raw_source_url raw_item = Some url ∧ source_url item = url
               ∧ dedupe_key item = Dedupe.generate_dedupe_key conn_source_type url)
       ∧ source_type item = conn_source_type
       ∧ String.length (dedupe_key item) ≤ 500
       ∧ String.length (content_hash item) = 64
       ∧ id item = None ∧ ai_unset item ∧ embedding item = None
       ∧ (raw_title raw_item = Some (title item) →
          content_hash item
          = Dedupe.generate_content_hash (Some (title item)) (body_text item)
              (code_snippets item))).
Proof.
  unfold process_item. split.
  - intros Hurl. destruct (if String.eqb _ _ then _ else _) as [ex|]; [|done]. simpl.
    destruct (mapM relabel _) as [sn|]; [|done]. simpl. by rewrite Hurl.
  - intros item Hitem.
    destruct (if String.eqb _ _ then _ else _) as [ex|]; [|done]. simpl in Hitem.
    destruct (mapM relabel _) as [sn|]; [|done]. simpl in Hitem.
    destruct (raw_source_url raw_item) as [url|]; [|done]. simpl in Hitem.
    injection Hitem as <-. simpl.
    repeat apply conj;
      first [ by exists url | apply dedupe_key_length | exact (sha256_hex_length _)
            | done | (intros Ht; by rewrite Ht) ].
Qed.

End IngestRuns.

Section IngestRunExamples.

Import Spec Ingest.

Lemma ingest_keeps_identity_witness :
  NoDup (map dedupe_key
           (rows (@ingest (Feed.connector Feed.posted_twice)
                    (@ingest (Feed.connector Feed.two_posts) Feed.empty_world).2).2)).
Proof.
  apply (@ingest_keeps_identity (Feed.connector Feed.posted_twice)).
  apply (@ingest_keeps_identity (Feed.connector Feed.two_posts)).
  apply NoDup_nil_2.
Defined.

Lemma process_item_identity_witness :
  ∃ item, @process_item (Feed.connector []) (Feed.entry "http://x.com/a/" "first")
          = Some item
          ∧ dedupe_key item = "rss::http://x.com/a"
          ∧ String.length (content_hash item) = 64.
Proof.
  destruct (@process_item (Feed.connector []) (Feed.entry "http://x.com/a/" "first"))
    as [item|] eqn:Hitem.
  - exists item. split; [done|].
    destruct (proj2 (@process_item_identity (Feed.connector [])
                       (Feed.entry "http://x.com/a/" "first")) item Hitem)
      as ((url & Hurl & _ & Hkey) & _ & _ & Hlen & _).
    split; [|exact Hlen]. injection Hurl as <-. exact Hkey.
  - vm_compute in Hitem. discriminate.
Defined.

End IngestRunExamples.

(** ** More on rate limiting *)

Section AcquireFacts.

#[local] Open Scope Z_scope.

Import Facts AIRateLimiter64.

Variable time : nat → float.

(** X6. When [acquire()] returns, and how many timestamps the limiter
    then holds. A call that returns has not slept and has released the
    lock, and it has returned in one of two ways. Either fewer than
    [max_requests] timestamps were inside the window: it has appended the
    reading it took, and the limiter holds at most [max_requests]
    timestamps. Or the window was full and the wait it computed was not
    positive: it has appended a second reading of the clock, and the
    limiter holds more than [max_requests] timestamps. A full window
    whose computed wait is not positive always ends that way; in
    binary64 a timestamp just inside the window gives one, the sum
    [oldest_request + window_seconds] rounding down to the reading. *)
Theorem acquire_return_cases (fuel : nat) (l l' : Limiter) (reads reads' : nat)
    (slept slept' : list float) :
  locked l = false →
  (acquire time fuel l reads slept = Returned l' reads' slept' →
   slept' = slept ∧ locked l' = false
   ∧ max_requests l' = max_requests l ∧ window_seconds l' = window_seconds l
   ∧ (Z.of_nat (length (kept l (time reads))) < max_requests l
      ∧ requests l' = kept l (time reads) ++ [time reads] ∧ reads' = S reads
      ∧ Z.of_nat (length (requests l')) ≤ max_requests l
      ∨ max_requests l ≤ Z.of_nat (length (kept l (time reads)))
        ∧ (∀ w, computed_wait l (time reads) = Some w → (0 <? w)%float = false)
        ∧ requests l' = kept l (time reads) ++ [time (S reads)] ∧ reads' = S (S reads)
        ∧ max_requests l < Z.of_nat (length (requests l'))))
  ∧ (max_requests l ≤ Z.of_nat (length (kept l (time reads))) →
     (∀ w, computed_wait l (time reads) = Some w → (0 <? w)%float = false) →
     acquire time (S fuel) l reads slept
     = Returned (with_requests l (kept l (time reads) ++ [time (S reads)]))
         (S (S reads)) slept).
Proof.
  intros Hl. unfold computed_wait. split.
  - destruct fuel as [|fuel]; [done|]. cbn [acquire]. rewrite Hl. fold (kept l (time reads)).
    case_decide as Hfree.
    + intros [= <- <- <-]. do 4 (split; [done|]). left. cbn [requests with_requests].
      rewrite length_app. simpl. repeat split; (done || lia).
    + destruct (kept l (time reads)) as [|r rest] eqn:Hkept.
      * intros [= <- <- <-]. do 4 (split; [done|]). right. simpl in *.
        repeat split; (done || lia).
      * destruct (0 <? max 0 (min r rest + window_seconds l - time reads))%float eqn:Hw.
        -- destruct fuel as [|fuel]; done.
        -- intros [= <- <- <-]. do 4 (split; [done|]). right.
           cbn [requests with_requests]. cbn [length] in *. rewrite length_app. simpl.
           repeat split; try (done || lia). by intros w [= <-].
  - intros Hfull Hwait. cbn [acquire]. rewrite Hl. fold (kept l (time reads)).
    rewrite decide_False by lia.
    destruct (kept l (time reads)) as [|r rest]; [done|].
    by rewrite (Hwait _ eq_refl).
Qed.

(** X7. With a full window and a computed wait that is positive
    [acquire()] never returns, on any limiter and at any reading of the
    clock: it sleeps once, for the wait it computed, and is then blocked
    on the lock it holds itself, without reading the clock again. *)
Theorem acquire_positive_wait_never_returns (fuel : nat) (l : Limiter) (reads : nat)
    (slept : list float) (w : float) :
  locked l = false →
  max_requests l ≤ Z.of_nat (length (kept l (time reads))) →
  computed_wait l (time reads) = Some w → (0 <? w)%float = true →
  (∀ l' reads' slept', acquire time fuel l reads slept ≠ Returned l' reads' slept')
  ∧ acquire time (S (S fuel)) l reads slept
    = Blocked (with_lock (with_requests l (kept l (time reads))) true)
        (S reads) (slept ++ [w]).
Proof.
  unfold computed_wait. intros Hl Hfull Hwait Hpos.
  destruct (kept l (time reads)) as [|r rest] eqn:Hkept; [done|].
  injection Hwait as Hwait. split.
  - intros l' reads' slept'. destruct fuel as [|fuel]; [done|].
    cbn [acquire]. rewrite Hl. fold (kept l (time reads)). rewrite Hkept.
    rewrite decide_False by lia. rewrite Hwait, Hpos.
    destruct fuel as [|fuel]; done.
  - cbn [acquire]. rewrite Hl. fold (kept l (time reads)). rewrite Hkept.
    rewrite decide_False by lia. by rewrite Hwait, Hpos.
Qed.

End AcquireFacts.

Section AcquireExamples.

Import Facts AIRateLimiter64.

Lemma acquire_return_cases_witness :
  acquire (λ _, 64%float) 1 (mkLimiter 1 60 [next_up 4] false) 0 []
  = Returned (mkLimiter 1 60 [next_up 4; 64%float] false) 2 []
  ∧ computed_wait (mkLimiter 1 60 [next_up 4] false) 64 = Some 0%float
  ∧ ¬ (Z.of_nat (length (kept (mkLimiter 1 60 [next_up 4] false) 64)) < 1)%Z
  ∧ (1 < Z.of_nat (length [next_up 4; 64%float]))%Z.
Proof.
  destruct (acquire_return_cases (λ _, 64%float) 1 (mkLimiter 1 60 [next_up 4] false)
              (mkLimiter 1 60 [next_up 4; 64%float] false) 0 2 [] [] eq_refl)
    as [Hcases Hover].
  split; [|split; [reflexivity|]].
  - apply Hover.
    + vm_compute. discriminate.
    + intros w [= <-]. reflexivity.
  - destruct (Hcases eq_refl) as (_ & _ & _ & _ & [(_ & _ & Hreads & _)|(Hfull & _ & _ & _ & Hmore)]).
    + discriminate Hreads.
    + split; [|exact Hmore]. intros Hfree. apply (Z.lt_irrefl 1).
      exact (Z.le_lt_trans _ _ _ Hfull Hfree).
Defined.

(** The failing input of C5 in binary64, where its readings are exact:
    the same sleep of 30 seconds, the same wait for the lock, and no
    return however long the call is run. *)
Lemma acquire_second_call_binary64 (time : nat → float) (fuel : nat) :
  time 0 = 130%float →
  acquire time (S (S fuel)) (mkLimiter 1 60 [100%float] false) 0 []
  = Blocked (mkLimiter 1 60 [100%float] true) 1 [30%float]
  ∧ ∀ l reads slept,
      acquire time fuel (mkLimiter 1 60 [100%float] false) 0 [] ≠ Returned l reads slept.
Proof.
  intros Hnow. split.
  - cbn [acquire locked]. rewrite Hnow. reflexivity.
  - intros l reads slept. destruct fuel as [|[|fuel]]; [done| |].
    all: cbn [acquire locked]; rewrite Hnow; discriminate.
Qed.

Lemma acquire_positive_wait_never_returns_witness :
  acquire (λ _, 130%float) 5 (mkLimiter 2 60 [90; 100]%float false) 0 []
  = Blocked (mkLimiter 2 60 [90; 100]%float true) 1 [20%float].
Proof.
  destruct (acquire_positive_wait_never_returns (λ _, 130%float) 3
              (mkLimiter 2 60 [90; 100]%float false) 0 [] 20%float eq_refl)
    as [_ Hblocked].
  - vm_compute. discriminate.
  - reflexivity.
  - reflexivity.
  - exact Hblocked.
Defined.

End AcquireExamples.

Section DomainLimiterFacts.

#[local] Open Scope Z_scope.

Import Facts RateLimiter.
Variable netloc : string → string.

Lemma filter_later (a b : Z) (l : list Z) :
  a ≤ b → filter (λ t, b < t) (filter (λ t, a < t) l) = filter (λ t, b < t) l.
Proof.
  intros Hab. induction l as [|x l IH]; [done|].
  rewrite !filter_cons. repeat case_decide; rewrite ?filter_cons;
    repeat case_decide; try lia; by rewrite IH.
Qed.

Lemma limiter_domains (l : Limiter) (url : string) (now : Z) (other : string) :
  let domain := _get_domain netloc url in
  let checked := (can_make_request netloc l url now).1 in
  let waited := wait_if_needed netloc l url now in
  let recorded := record_request netloc l url now in
  requests checked !! domain = Some (recent l domain now)
  ∧ waited.1 = checked ∧ now ≤ waited.2
  ∧ requests recorded !! domain = Some (default [] (requests l !! domain) ++ [now])
  ∧ (other ≠ domain →
     requests checked !! other = requests l !! other
     ∧ requests recorded !! other = requests l !! other)
  ∧ max_requests checked = max_requests l ∧ window_seconds checked = window_seconds l
  ∧ max_requests recorded = max_requests l ∧ window_seconds recorded = window_seconds l.
Proof.
  intros domain checked waited recorded.
  subst checked waited recorded. unfold wait_if_needed, can_make_request, record_request.
  fold domain. unfold recent.
  set (reqs := filter (λ t, now - window_seconds l < t) (default [] (requests l !! domain))).
  assert (Hcases :
    (if decide (Z.of_nat (length reqs) < max_requests l)
     then (mkLimiter (max_requests l) (window_seconds l) (<[domain:=reqs]> (requests l)),
           (true, 0))
     else match reqs with
          | [] => (mkLimiter (max_requests l) (window_seconds l)
                     (<[domain:=reqs]> (requests l)), (true, 0))
          | r :: rest =>
              (mkLimiter (max_requests l) (window_seconds l)
                 (<[domain:=reqs]> (requests l)),
               (false, Z.max 0 (AIRateLimiter.minimum r rest + window_seconds l - now)))
          end).1
    = mkLimiter (max_requests l) (window_seconds l) (<[domain:=reqs]> (requests l))).
  { case_decide; [done|]. by destruct reqs. }
  rewrite Hcases. simpl. rewrite !lookup_insert_eq.
  split; [done|]. split.
  { case_decide; [done|]. by destruct reqs. }
  split.
  { case_decide; [simpl; lia|]. destruct reqs; simpl; lia. }
  split; [done|]. split; [|done].
  intros Hother. by rewrite !lookup_insert_ne.
Qed.

(** X8. The per-domain limiter keeps its domains apart and records only
    on request: [can_make_request] and [wait_if_needed] leave every
    other domain as it was and reduce the domain of the URL to its
    timestamps inside the window, recording nothing; [record_request]
    appends the clock to the list of the URL's domain and touches
    nothing else. The clock never runs backwards. *)
Theorem rate_limiter_domains_apart (l : Limiter) (url : string) (now : Z) (other : string) :
  let domain := _get_domain netloc url in
  let checked := (can_make_request netloc l url now).1 in
  let waited := wait_if_needed netloc l url now in
  let recorded := record_request netloc l url now in
  requests checked !! domain = Some (recent l domain now)
  ∧ waited.1 = checked ∧ now ≤ waited.2
  ∧ requests recorded !! domain = Some (default [] (requests l !! domain) ++ [now])
  ∧ (other ≠ domain →
     requests checked !! other = requests l !! other
     ∧ requests recorded !! other = requests l !! other)
  ∧ max_requests checked = max_requests l ∧ window_seconds checked = window_seconds l
  ∧ max_requests recorded = max_requests l ∧ window_seconds recorded = window_seconds l.
Proof.
  exact (limiter_domains l url now other).
Qed.

Lemma limiter_verdict (l : Limiter) (url : string) (now : Z) :
  let reqs := recent l (_get_domain netloc url) now in
  let verdict := (can_make_request netloc l url now).2 in
  (Z.of_nat (length reqs) < max_requests l → verdict = (true, 0))
  ∧ (max_requests l ≤ Z.of_nat (length reqs) → reqs ≠ [] →
     ∃ oldest, oldest ∈ reqs ∧ Forall (λ t, oldest ≤ t) reqs
               ∧ now - window_seconds l < oldest
               ∧ verdict = (false, oldest + window_seconds l - now)
               ∧ 0 < oldest + window_seconds l - now).
Proof.
  intros reqs verdict. subst verdict. unfold can_make_request. fold (recent l (_get_domain netloc url) now).
  fold reqs. split.
  - intros Hfree. by rewrite decide_True.
  - intros Hfull Hne. rewrite decide_False by lia.
    pose proof (recent_above (now - window_seconds l)
                  (default [] (requests l !! _get_domain netloc url))) as Hrecent.
    fold (recent l (_get_domain netloc url) now) in Hrecent. fold reqs in Hrecent.
    destruct reqs as [|r rest] eqn:Hreqs; [done|].
    pose proof (minimum_above _ _ _ Hrecent) as Hmin.
    exists (AIRateLimiter.minimum r rest).
    split; [apply minimum_member|]. split; [apply minimum_least|].
    split; [done|]. simpl. rewrite Z.max_r by lia. split; [done|lia].
Qed.

(** X9. The verdict of [can_make_request]: yes, with no wait, when the
    domain has fewer than [max_requests] timestamps inside the window;
    otherwise no, with a wait that is positive and is the time until the
    oldest of them leaves the window. *)
Theorem can_make_request_verdict (l : Limiter) (url : string) (now : Z) :
  let reqs := recent l (_get_domain netloc url) now in
  let verdict := (can_make_request netloc l url now).2 in
  (Z.of_nat (length reqs) < max_requests l → verdict = (true, 0))
  ∧ (max_requests l ≤ Z.of_nat (length reqs) → reqs ≠ [] →
     ∃ oldest, oldest ∈ reqs ∧ Forall (λ t, oldest ≤ t) reqs
               ∧ now - window_seconds l < oldest
               ∧ verdict = (false, oldest + window_seconds l - now)
               ∧ 0 < oldest + window_seconds l - now).
Proof.
  exact (limiter_verdict l url now).
Qed.

(** X10. Used as [fetch_url] uses it, the limiter keeps its bound: if a
    domain has at most [max_requests] timestamps inside the window, then
    after [wait_if_needed] and a [record_request] at any later clock it
    again has at most [max_requests] timestamps inside the window. *)
Theorem rate_limit_bound_kept (l : Limiter) (url : string) (now later : Z) :
  let domain := _get_domain netloc url in
  1 ≤ max_requests l →
  Z.of_nat (length (recent l domain now)) ≤ max_requests l →
  (wait_if_needed netloc l url now).2 ≤ later →
  Z.of_nat (length (recent (record_request netloc (wait_if_needed netloc l url now).1
                              url later) domain later)) ≤ max_requests l.
Proof.
  intros domain Hmax Hbound Hlater.
  pose proof (limiter_domains l url now domain) as Hd. cbv zeta in Hd.
  destruct Hd as (Hchecked & Hwaited & Hnow & _ & _ & Hm & Hw & _).
  fold domain in Hchecked.
  set (waited := wait_if_needed netloc l url now) in *.
  pose proof (limiter_domains waited.1 url later domain) as Hr. cbv zeta in Hr.
  destruct Hr as (_ & _ & _ & Hrec & _ & _ & _ & Hm2 & Hw2).
  fold domain in Hrec.
  unfold recent at 1. rewrite Hrec, Hw2. cbv [from_option Datatypes.id].
  rewrite Hwaited, Hchecked, Hw. cbv [from_option Datatypes.id].
  rewrite filter_app, length_app.
  assert (Hone : (length (filter (λ t, (later - window_seconds l < t)%Z) [later]) ≤ 1)%nat).
  { rewrite filter_cons. case_decide; simpl; lia. }
  unfold recent. rewrite filter_later by lia.
  set (old := default [] (requests l !! domain)) in *.
  destruct (decide (Z.of_nat (length (recent l domain now)) < max_requests l)) as [Hfree|Hfull].
  - pose proof (length_filter (λ t, later - window_seconds l < t)
                  (filter (λ t, now - window_seconds l < t) old)) as Hle.
    rewrite filter_later in Hle by lia. unfold recent in Hfree. fold old in Hfree. lia.
  - assert (Hne : recent l domain now ≠ []).
    { intros Hnil. rewrite Hnil in Hfull. simpl in Hfull. lia. }
    destruct (proj2 (limiter_verdict l url now)) as (oldest & Hin & _ & _ & Hv & Hpos);
      [fold domain; lia|done|].
    fold domain in Hin.
    assert (Hw2' : waited.2 = oldest + window_seconds l).
    { unfold waited, wait_if_needed. rewrite Hv. simpl. lia. }
    pose proof (length_filter_drop (later - window_seconds l) oldest
                  (recent l domain now) Hin) as Hdrop.
    unfold recent in Hdrop at 1. rewrite filter_later in Hdrop by lia. fold old in Hdrop.
    specialize (Hdrop ltac:(lia)). lia.
Qed.

End DomainLimiterFacts.

Section DomainLimiterExamples.

#[local] Open Scope Z_scope.

Import Facts RateLimiter.

Lemma can_make_request_verdict_witness :
  (can_make_request (λ url, url) (mkLimiter 2 60 {["x.com" := [90; 100]]}) "x.com" 130).2
  = (false, 20).
Proof.
  destruct (proj2 (can_make_request_verdict (λ url, url)
              (mkLimiter 2 60 {["x.com" := [90; 100]]}) "x.com" 130))
    as (oldest & Hin & _ & _ & Hv & _).
  - vm_compute. discriminate.
  - vm_compute. discriminate.
  - rewrite Hv. f_equal.
    vm_compute in Hin. apply elem_of_cons in Hin as [->|Hin]; [done|].
    apply list_elem_of_singleton in Hin as ->. exfalso.
    vm_compute in Hv. discriminate.
Defined.

Lemma rate_limit_bound_kept_witness :
  Z.of_nat (length (recent
    (record_request (λ url, url)
       (wait_if_needed (λ url, url) (mkLimiter 2 60 {["x.com" := [90; 100]]})
          "x.com" 130).1 "x.com" 155) "x.com" 155)) ≤ 2.
Proof.
  apply (rate_limit_bound_kept (λ url, url) (mkLimiter 2 60 {["x.com" := [90; 100]]})
           "x.com" 130 155).
  - simpl. lia.
  - vm_compute. discriminate.
  - vm_compute. discriminate.
Defined.

End DomainLimiterExamples.

(** ** More on query construction *)

Section QueryModes.

#[local] Open Scope Z_scope.

Import Facts Search.

(** X11. The filters of a query do not depend on the mode: two requests
    with the same source type, language, framework, tags and date bound
    carry the same filter clauses, whatever their text, flags, embedding
    and page are; the clauses are term, terms and range clauses only;
    and the ordering is always by publication date, then score. *)
Theorem filters_independent_of_mode (p p' : Params) :
  p_source_type p = p_source_type p' → p_primary_language p = p_primary_language p' →
  p_framework p = p_framework p' → p_tags p = p_tags p' → from_date p = from_date p' →
  filter_ (query (build_search_query p)) = filter_ (query (build_search_query p'))
  ∧ Forall (λ c, is_filter_clause c = true)
      (default [] (filter_ (query (build_search_query p))))
  ∧ sort (build_search_query p) = [SortField "published_at" "desc" "_last"; SortScore].
Proof.
  intros H1 H2 H3 H4 H5. unfold build_search_query.
  repeat match goal with
         | |- context [let '(_, _) := ?e in _] => destruct e
         end.
  simpl. rewrite H1, H2, H3, H4, H5. split; [done|]. split; [|done].
  rewrite present_default.
  destruct (given (p_source_type p')), (given (p_primary_language p')),
    (given (p_framework p')), (given_list (p_tags p')), (given (from_date p'));
    simpl; by repeat constructor.
Qed.

Lemma filters_independent_of_mode_witness :
  filter_ (query (build_search_query
    (mkParams (Some "async") (Some "rss") (Some "Python") None (Some ["web"]) None
       false false None 1 20)))
  = filter_ (query (build_search_query
      (mkParams None (Some "rss") (Some "Python") None (Some ["web"]) None
         true true (Some [0.5%float]) 3 10))).
Proof.
  apply (filters_independent_of_mode
    (mkParams (Some "async") (Some "rss") (Some "Python") None (Some ["web"]) None
       false false None 1 20)
    (mkParams None (Some "rss") (Some "Python") None (Some ["web"]) None
       true true (Some [0.5%float]) 3 10)); reflexivity.
Defined.

(** X12. Optional clauses belong to hybrid mode alone: outside it the
    query has no [should] and no [minimum_should_match]; whenever
    [minimum_should_match] is there it is 1, never 0. In hybrid mode the
    optional clauses are the vector clause, when an embedding is given,
    followed by the keyword clause, when a text is given. *)
Theorem should_only_in_hybrid (p : Params) :
  let b := query (build_search_query p) in
  (hybrid p = false → should b = None ∧ minimum_should_match b = None)
  ∧ (∀ n, minimum_should_match b = Some n → n = 1 ∧ hybrid p = true ∧ should b ≠ None)
  ∧ (hybrid p = true →
     default [] (should b)
     = match given_list (query_embedding p) with
       | Some v => [vector_query v] | None => [] end
       ++ match given (q p) with
          | Some text => [keyword_query text] | None => [] end).
Proof.
  intros b. subst b. unfold build_search_query.
  destruct (semantic p), (hybrid p), (given_list (query_embedding p)) as [v|],
    (given (q p)) as [text|]; simpl;
    (split; [done|split; [|done]]); intros k Hk; by simplify_eq.
Qed.

Lemma should_only_in_hybrid_witness :
  should (query (build_search_query
    (mkParams (Some "async") None None None None None true false (Some [0.5%float]) 1 20)))
  = None.
Proof.
  apply (should_only_in_hybrid
    (mkParams (Some "async") None None None None None true false (Some [0.5%float]) 1 20)).
  reflexivity.
Defined.

(** X13. In keyword-only mode the one required clause is the weighted
    multi-field match of the text, or [match_all] when there is no text
    or the text is empty; an embedding that is passed along is not used;
    and matched text is highlighted exactly when there is a text. *)
Theorem keyword_only_query (p : Params) :
  semantic p = false → hybrid p = false →
  let r := build_search_query p in
  must (query r)
  = Some [match given (q p) with
          | Some text =>
              MultiMatch text
                ["title^3"; "title.autocomplete^2"; "body_text"; "code_snippets.code"]
                "best_fields" "AUTO"
          | None => MatchAll
          end]
  ∧ should (query r) = None
  ∧ (highlight r = None ↔ given (q p) = None)
  ∧ from_ r = (page p - 1) * size p ∧ size_ r = size p.
Proof.
  intros Hs Hh r. subst r. unfold build_search_query. rewrite Hs, Hh. simpl.
  destruct (given (q p)) as [text|]; simpl; repeat split; done.
Qed.

Lemma keyword_only_query_witness :
  must (query (build_search_query
    (mkParams (Some "") None None None None None false false (Some [0.5%float]) 2 20)))
  = Some [MatchAll]
  ∧ from_ (build_search_query
      (mkParams (Some "") None None None None None false false (Some [0.5%float]) 2 20))
    = 20.
Proof.
  destruct (keyword_only_query
    (mkParams (Some "") None None None None None false false (Some [0.5%float]) 2 20)
    eq_refl eq_refl) as (Hm & _ & _ & Hf & _).
  split; [exact Hm|exact Hf].
Defined.

End QueryModes.

Section SearchRunFacts.

#[local] Open Scope Z_scope.

Import Search SearchRun.
Context {Doc Highlight : Type}.
Variable es_search : SearchRequest → Exn + Response Doc Highlight.

(** X14. A search that succeeds sends the request that
    [build_search_query] builds and returns one item per hit, in order,
    with the hit's document. For a page size of at least 1 and a total
    that is not negative, [total_pages] is the ceiling of total / size;
    and a page lies within [total_pages] exactly when its offset lies
    before the end of the results. *)
Theorem search_results_paged (p : Params) (r : Results Doc Highlight) :
  search_knowledge_items Doc Highlight es_search p = inr r →
  (∃ response, es_search (build_search_query p) = inr response
     ∧ map Some (map (item_source Doc Highlight) (items Doc Highlight r))
       = map (_source Doc Highlight)
           (default [] (hits_hits Doc Highlight
                          (default (mkHits Doc Highlight None None) response)))
     ∧ total Doc Highlight r
       = total_of Doc Highlight (default (mkHits Doc Highlight None None) response))
  ∧ page Doc Highlight r = Search.page p ∧ size Doc Highlight r = Search.size p
  ∧ Search.size p ≠ 0
  ∧ (1 ≤ Search.size p → 0 ≤ total Doc Highlight r →
     (total_pages Doc Highlight r - 1) * Search.size p < total Doc Highlight r
     ∧ total Doc Highlight r ≤ total_pages Doc Highlight r * Search.size p
     ∧ (1 ≤ Search.page p →
        (Search.page p ≤ total_pages Doc Highlight r
         ↔ from_ (build_search_query p) < total Doc Highlight r))).
Proof.
  unfold search_knowledge_items. intros Hr.
  destruct (es_search (build_search_query p)) as [e|response] eqn:Hes; [done|].
  destruct (mapM _ _) as [its|] eqn:Hits; [|done].
  case_decide as Hsize; [done|]. injection Hr as <-. simpl.
  split; [|split; [done|split; [done|split; [done|]]]].
  - exists response. split; [done|]. split; [|done].
    apply mapM_Some in Hits. clear -Hits.
    induction Hits as [|hit it hs its Hhit _ IH]; [done|]. simpl. rewrite IH.
    f_equal. unfold format_hit in Hhit.
    destruct (_source Doc Highlight hit); [|done]. simpl in Hhit. by injection Hhit as <-.
  - intros Hpos Htotal.
    set (t := total_of Doc Highlight (default (mkHits Doc Highlight None None) response)) in *.
    set (s := Search.size p) in *.
    assert (Hfrom : from_ (build_search_query p) = (Search.page p - 1) * s).
    { unfold build_search_query.
      repeat match goal with
             | |- context [let '(_, _) := ?e in _] => destruct e
             end. done. }
    rewrite Hfrom.
    pose proof (Z.div_mod (t + s - 1) s ltac:(lia)) as Hdm.
    pose proof (Z.mod_pos_bound (t + s - 1) s ltac:(lia)) as Hmod.
    set (n := (t + s - 1) `div` s) in *.
    repeat split; try nia.
Qed.

End SearchRunFacts.

Section SearchRunExamples.

#[local] Open Scope Z_scope.

Import Search SearchRun.

Lemma search_results_paged_witness :
  search_knowledge_items string string
    (λ _, inr (Some (mkHits string string (Some (TotalObject (Some 41)))
                       (Some [mkEsHit string string (Some "doc") None None]))))
    (mkParams None None None None None None false false None 3 20)
  = inr (mkResults string string [mkItem string string "doc" None 0%float] 41 3 20 3)
  ∧ (3 - 1) * 20 < 41 ∧ 41 ≤ 3 * 20.
Proof.
  split; [reflexivity|].
  destruct (search_results_paged
    (λ _, inr (Some (mkHits string string (Some (TotalObject (Some 41)))
                       (Some [mkEsHit string string (Some "doc") None None]))))
    (mkParams None None None None None None false false None 3 20)
    (mkResults string string [mkItem string string "doc" None 0%float] 41 3 20 3)
    eq_refl) as (_ & _ & _ & _ & Hpages).
  destruct Hpages as (H1 & H2 & _); [simpl; lia|simpl; lia|].
  split; [exact H1|exact H2].
Defined.

(** A page size of zero fails after the search has run. *)
Example search_page_size_zero :
  search_knowledge_items string string
    (λ _, inr (Some (mkHits string string (Some (TotalNumber 41)) (Some []))))
    (mkParams None None None None None None false false None 1 0)
  = inl ZeroDivisionError.
Proof. reflexivity. Qed.

End SearchRunExamples.

(** ** More on the enrichment task *)

Section EnrichFrame.

Import Facts Spec Schemas Enrich.
Context `{JsonLib}.

Lemma merge_snippets_source (snippets : list Snippet) (es : list CodeSnippetEnrichment) :
  map snippet_source (merge_snippets snippets es) = map snippet_source snippets.
Proof.
  revert es. induction snippets as [|s ss IH]; intros [|e es]; try done.
  simpl. by rewrite IH.
Qed.

(** X15. Enrichment entries are merged into the snippets by position.
    The merged list has the length of the snippet list; every snippet
    keeps its language, code and context; a snippet that has an entry at
    its position takes the entry's intent, dependencies and pitfalls; a
    snippet beyond the entries stays as it was; entries beyond the
    snippets are dropped. *)
Theorem merge_snippets_by_position (snippets : list Snippet)
    (es : list CodeSnippetEnrichment) :
  length (merge_snippets snippets es) = length snippets
  ∧ map snippet_source (merge_snippets snippets es) = map snippet_source snippets
  ∧ ∀ i s, snippets !! i = Some s →
      match es !! i with
      | Some e =>
          merge_snippets snippets es !! i
          = Some (mkSnippet (language s) (code s) (context s) (Some (e_intent e))
                    (Some (e_dependencies e)) (Some (e_pitfalls e)))
      | None => merge_snippets snippets es !! i = Some s
      end.
Proof.
  split; [|split; [apply merge_snippets_source|]].
  - rewrite <- (length_map snippet_source (merge_snippets snippets es)),
      merge_snippets_source. apply length_map.
  - revert es. induction snippets as [|s0 ss IH]; intros es i s Hi; [done|].
    destruct es as [|e es]; [by rewrite lookup_nil|].
    destruct i as [|i]; simpl in *; [by injection Hi as ->|].
    by apply IH.
Qed.

Lemma merge_snippets_by_position_witness :
  merge_snippets
    [mkSnippet (Some "python") (Some "await f()") None None None None;
     mkSnippet (Some "bash") (Some "ls") None (Some "list") None None]
    [mkSnippetEnrichment "wait for f" ["asyncio"] []] !! 1
  = Some (mkSnippet (Some "bash") (Some "ls") None (Some "list") None None).
Proof.
  exact (proj2 (proj2 (merge_snippets_by_position
    [mkSnippet (Some "python") (Some "await f()") None None None None;
     mkSnippet (Some "bash") (Some "ls") None (Some "list") None None]
    [mkSnippetEnrichment "wait for f" ["asyncio"] []])) 1
    (mkSnippet (Some "bash") (Some "ls") None (Some "list") None None) eq_refl).
Defined.

Lemma apply_enrichment_source (item : KnowledgeItem) (e : KnowledgeItemEnrichment)
    (now : Z) :
  row_source (apply_enrichment item e now) = row_source item.
Proof. unfold row_source. simpl. by rewrite merge_snippets_source. Qed.

Lemma insert_same_image {A B} (f : A → B) (l : list A) (i : nat) (x y : A) :
  l !! i = Some x → f y = f x → map f (<[i := y]> l) = map f l.
Proof.
  intros Hi Hf. rewrite list_fmap_insert, Hf.
  apply list_insert_id. by rewrite list_lookup_fmap, Hi.
Qed.

Lemma enrich_keeps_source (env : Env) (db : list KnowledgeItem) (item_id : N) :
  map row_source (enrich_knowledge_item env db item_id).2 = map row_source db.
Proof.
  unfold enrich_knowledge_item.
  destruct (list_find _ db) as [[i item]|] eqn:Hfind; [|done].
  apply list_find_Some in Hfind as (Hi & _).
  destruct (provider_available env); [|done]. simpl.
  destruct (call_result env) as [e|text]; [done|].
  destruct (parse_enrichment text) as [e|e]; [by destruct (is_value_error e)|].
  simpl. eapply insert_same_image; [done|apply apply_enrichment_source].
Qed.

(** X16. A run of the enrichment task changes at most the one row it
    was asked to enrich, and only that row's AI fields, the enrichment
    keys of its snippets and [updated_at]: every row keeps its place, its
    id, source, title, summary, body text, tags, language, framework,
    dates, content hash, dedupe key and embedding, and each snippet its
    language, code and context; a row with another id is not changed at
    all. Without a row of that id, or without a provider, the run ends
    with an error status and writes nothing, whatever the provider
    would have returned. *)
Theorem enrich_touches_one_row (env : Env) (db : list KnowledgeItem) (item_id : N) :
  let r := enrich_knowledge_item env db item_id in
  map row_source r.2 = map row_source db
  ∧ (∀ j row, db !! j = Some row → id row ≠ Some item_id → r.2 !! j = Some row)
  ∧ (Forall (λ row, id row ≠ Some item_id) db →
     r = (Return (StatusError "Item not found"), db))
  ∧ (provider_available env = false →
     ∃ message, r = (Return (StatusError message), db)).
Proof.
  intros r. subst r. split; [apply enrich_keeps_source|].
  unfold enrich_knowledge_item.
  destruct (list_find _ db) as [[i item]|] eqn:Hfind.
  - apply list_find_Some in Hfind as (Hi & Hid & _).
    split; [|split].
    + intros j row Hj Hne.
      destruct (provider_available env); [|done]. simpl.
      destruct (call_result env) as [e|text]; [done|].
      destruct (parse_enrichment text) as [e|e]; [by destruct (is_value_error e)|].
      simpl. rewrite list_lookup_insert_ne; [done|].
      intros <-. rewrite Hi in Hj. by injection Hj as <-.
    + intros Hall. rewrite Forall_lookup in Hall. by destruct (Hall i item Hi).
    + intros ->. by eexists.
  - split; [done|]. split; [done|].
    intros _. by eexists.
Qed.

Lemma hash_of_source (db db' : list KnowledgeItem) (k : string) :
  map row_source db' = map row_source db → hash_of db' k = hash_of db k.
Proof.
  revert db'. induction db as [|r db IH]; intros [|r' db'] Heq; try done.
  simpl in Heq.
  assert (Hr : row_source r' = row_source r) by congruence.
  assert (Hrest : map row_source db' = map row_source db) by congruence.
  rewrite !hash_of_cons, (IH db' Hrest).
  pose proof (f_equal (λ t, t.1.2) Hr) as Hk.
  pose proof (f_equal (λ t, t.1.1.2) Hr) as Hh. simpl in Hk, Hh.
  by rewrite Hh, Hk.
Qed.

Lemma store_item_decision (item : KnowledgeItem) (w : Ingest.World) :
  (Ingest.store_item item w).1 = decision (hash_of (Ingest.rows w) (dedupe_key item)) item.
Proof.
  unfold Ingest.store_item, hash_of, decision.
  destruct (Ingest.find_existing _ _) as [[i ex]|]; [|done]. simpl. by case_decide.
Qed.

(** X17. Enrichment does not disturb deduplication: after a run of the
    enrichment task every dedupe key has the content hash stored that it
    had before, so ingestion decides for every item as it would have
    before: an item that was skipped as unchanged is still skipped, and
    leaves the enriched table as it is. *)
Theorem enrichment_keeps_ingest_decisions (env : Env) (db : list KnowledgeItem)
    (item_id : N) (item : KnowledgeItem) (w w' : Ingest.World) :
  Ingest.rows w = db →
  Ingest.rows w' = (enrich_knowledge_item env db item_id).2 →
  (∀ k, hash_of (Ingest.rows w') k = hash_of db k)
  ∧ (Ingest.store_item item w').1 = (Ingest.store_item item w).1
  ∧ (Ingest.store_item item w = (Ingest.Skipped, w) →
     Ingest.store_item item w' = (Ingest.Skipped, w')).
Proof.
  intros Hw Hw'.
  assert (Hsame : ∀ k, hash_of (Ingest.rows w') k = hash_of db k).
  { intros k. rewrite Hw'. apply hash_of_source.
    apply enrich_keeps_source. }
  split; [done|]. split.
  - by rewrite !store_item_decision, Hsame, Hw.
  - intros Hskip. apply store_item_skips.
    pose proof (store_item_decision item w) as Hd. rewrite Hskip, Hw in Hd.
    rewrite Hsame. unfold decision in Hd. simpl in Hd.
    destruct (hash_of db (dedupe_key item)) as [h|]; [|done].
    case_decide; [by subst|done].
Qed.

End EnrichFrame.

Section EnrichFrameExamples.

Import Facts Spec Schemas Enrich.

Lemma enrich_touches_one_row_witness :
  @enrich_knowledge_item Replies.lib (mkEnv true (inr "good") 50 0) [Replies.stored_item] 9
  = (Return (StatusError "Item not found"), [Replies.stored_item]).
Proof.
  apply (@enrich_touches_one_row Replies.lib (mkEnv true (inr "good") 50 0)
           [Replies.stored_item] 9).
  repeat constructor. simpl. discriminate.
Defined.

Lemma enrichment_keeps_ingest_decisions_witness :
  Ingest.store_item Replies.stored_item
    (Ingest.mkWorld
       (@enrich_knowledge_item Replies.lib (mkEnv true (inr "good") 50 0)
          [Replies.stored_item] 7).2 8 60 [])
  = (Ingest.Skipped,
     Ingest.mkWorld
       (@enrich_knowledge_item Replies.lib (mkEnv true (inr "good") 50 0)
          [Replies.stored_item] 7).2 8 60 []).
Proof.
  apply (@enrichment_keeps_ingest_decisions Replies.lib (mkEnv true (inr "good") 50 0)
           [Replies.stored_item] 7 Replies.stored_item
           (Ingest.mkWorld [Replies.stored_item] 8 60 [])); reflexivity.
Defined.

End EnrichFrameExamples.

(** ** More on the validation of AI responses *)

Section SchemaMore.

Import Facts Spec Schemas.

Lemma lower_fixed (s : string) : free_of PyStr.is_upper s → PyStr.lower s = s.
Proof.
  unfold free_of. induction s as [|c s IH]; [done|]. simpl.
  intros [Hc Hs]%andb_prop. apply negb_true_iff in Hc.
  unfold PyStr.lower_char. by rewrite Hc, (IH Hs).
Qed.

Lemma rstrip_by_fixed (p : ascii → bool) (s : string) :
  (∀ c, last_char s = Some c → p c = false) → PyStr.rstrip_by p s = s.
Proof.
  induction s as [|a s IH]; [done|]. intros Hlast. simpl.
  destruct s as [|b s].
  - simpl. by rewrite (Hlast a).
  - rewrite IH; [done|]. intros c Hc. by apply Hlast.
Qed.

Lemma lstrip_by_fixed (p : ascii → bool) (s : string) :
  (∀ c, first_char s = Some c → p c = false) → PyStr.lstrip_by p s = s.
Proof. destruct s as [|a s]; [done|]. intros Hfirst. simpl. by rewrite (Hfirst a). Qed.

Lemma strip_fixed (s : string) :
  (∀ c, first_char s = Some c → PyStr.is_space c = false) →
  (∀ c, last_char s = Some c → PyStr.is_space c = false) →
  PyStr.strip s = s.
Proof.
  intros Hfirst Hlast. unfold PyStr.strip.
  by rewrite rstrip_by_fixed, lstrip_by_fixed.
Qed.

Lemma replace_fixed (s : string) :
  free_of (λ c, (PyStr.code c =? 32)%N) s → PyStr.replace_space_hyphen s = s.
Proof.
  unfold free_of. induction s as [|c s IH]; [done|]. simpl.
  intros [Hc Hs]%andb_prop. apply negb_true_iff in Hc. by rewrite Hc, (IH Hs).
Qed.

Lemma clean_tag_fixed (tag : string) :
  clean_tag tag → PyStr.strip tag = tag ∧ normalize_tag tag = tag.
Proof.
  intros (_ & Hup & Hsp & Hfirst & Hlast).
  assert (Hstrip : PyStr.strip tag = tag) by (by apply strip_fixed).
  split; [done|]. unfold normalize_tag.
  by rewrite (lower_fixed tag Hup), Hstrip, replace_fixed.
Qed.

Lemma validate_tags_clean (v : list string) : Forall clean_tag (validate_tags v).
Proof.
  unfold validate_tags. apply Forall_forall. intros tag Htag.
  apply list_elem_of_In, in_map_iff in Htag as (t & <- & Ht).
  apply filter_In in Ht as [_ Ht]. by apply normalize_tag_clean.
Qed.

Lemma validate_tags_fixed (v : list string) : Forall clean_tag v → validate_tags v = v.
Proof.
  unfold validate_tags. induction 1 as [|tag v Htag _ IH]; [done|].
  destruct (clean_tag_fixed tag Htag) as [Hstrip Hnorm].
  simpl. rewrite Hstrip. destruct Htag as (Hne & _).
  destruct tag; [done|]. simpl. by rewrite Hnorm, IH.
Qed.

(** X18. The validator of [tags] is idempotent: validated tags pass the
    validator unchanged. It never adds a tag, and it leaves no tag at
    all exactly when every tag is empty or whitespace. *)
Theorem validate_tags_idempotent (v : list string) :
  validate_tags (validate_tags v) = validate_tags v
  ∧ length (validate_tags v) ≤ length v
  ∧ (validate_tags v = [] ↔ Forall (λ tag, PyStr.strip tag = "") v).
Proof.
  split; [apply validate_tags_fixed, validate_tags_clean|]. split.
  - unfold validate_tags. rewrite length_map. apply List.filter_length_le.
  - unfold validate_tags. induction v as [|tag v IH]; [done|]. simpl.
    destruct (PyStr.strip tag) eqn:Htag; simpl.
    + rewrite IH. split; [by constructor|by inversion 1].
    + split; [done|]. intros Hall. inversion Hall. congruence.
Qed.

Example validate_tags_keeps_duplicates :
  validate_tags ["Python"; " python "; "PYTHON"] = ["python"; "python"; "python"].
Proof. reflexivity. Qed.

Lemma newline_char (c : ascii) : is_newline c = true → c = "010"%char.
Proof. destruct c as [[] [] [] [] [] [] [] []]; done. Qed.

Lemma split_lines_cons (s : string) : ∃ l ls, PyStr.split_lines s = l :: ls.
Proof.
  induction s as [|c s (l & ls & IH)]; [by eexists _, _|]. simpl.
  destruct (PyStr.code c =? 10)%N; [by eexists _, _|]. rewrite IH. by eexists _, _.
Qed.

Lemma split_lines_app (a b : string) :
  PyStr.split_lines (a +:+ newline +:+ b) = PyStr.split_lines a ++ PyStr.split_lines b.
Proof.
  induction a as [|c a IH].
  - by rewrite app_empty.
  - rewrite app_String. simpl. rewrite IH.
    destruct (PyStr.code c =? 10)%N; [done|].
    by destruct (split_lines_cons a) as (l & ls & ->).
Qed.

Lemma split_lines_one (s : string) :
  free_of is_newline s → PyStr.split_lines s = [s].
Proof.
  unfold free_of, is_newline. induction s as [|c s IH]; [done|]. simpl.
  intros [Hc Hs]%andb_prop. apply negb_true_iff in Hc. by rewrite Hc, (IH Hs).
Qed.

Lemma join_split_lines (s : string) : PyStr.join newline (PyStr.split_lines s) = s.
Proof.
  induction s as [|c s IH]; [done|]. simpl.
  destruct (split_lines_cons s) as (l & ls & Hs). rewrite Hs in *.
  destruct (PyStr.code c =? 10)%N eqn:Hc.
  - apply newline_char in Hc as ->. by rewrite join_cons, IH, app_empty.
  - destruct ls as [|l' ls]; [simpl in *; by rewrite IH|].
    rewrite join_cons in *. by rewrite app_String, IH.
Qed.

Lemma prefix_empty (s : string) : String.prefix "" s = true.
Proof. by destruct s. Qed.

Lemma rstrip_by_head (p : ascii → bool) (c : ascii) (s : string) :
  p c = false → ∃ s', PyStr.rstrip_by p (String c s) = String c s'.
Proof.
  intros Hc. simpl. destruct (PyStr.rstrip_by p s); [|by eexists].
  rewrite Hc. by eexists.
Qed.

Lemma fence_line_open (tag : string) : fence_line ("```" +:+ tag) = true.
Proof.
  unfold fence_line, PyStr.strip. rewrite !app_String, app_empty.
  destruct (rstrip_by_head PyStr.is_space "`" (String "`" (String "`" tag)) eq_refl)
    as [s1 Hs1].
  simpl in Hs1. simpl.
  destruct (PyStr.rstrip_by PyStr.is_space tag) eqn:Htag; simpl; done.
Qed.

Lemma all_kept {A} (f : A → bool) (l : list A) :
  Forall (λ x, f x = false) l → List.filter (λ x, negb (f x)) l = l.
Proof. induction 1 as [|x l Hx _ IH]; [done|]. simpl. by rewrite Hx, IH. Qed.

(** X19. The removal of code fences recovers the payload: a response
    that is a payload inside a fence, with any info string after the
    opening backquotes, is reduced to exactly the payload, provided no
    line of the payload itself starts, after stripping, with three
    backquotes. So parsing the fenced response is parsing the payload. *)
Theorem strip_fences_unwraps `{JsonLib} (tag payload : string) :
  free_of is_newline tag →
  Forall (λ l, fence_line l = false) (PyStr.split_lines payload) →
  strip_fences (fenced tag payload) = payload
  ∧ parse_enrichment (fenced tag payload)
    = construct enrichment_kwargs validate_enrichment payload
  ∧ parse_ask (fenced tag payload) = construct ask_kwargs validate_ask payload.
Proof.
  intros Htag Hpayload.
  assert (Hstrip : strip_fences (fenced tag payload) = payload).
  { unfold strip_fences.
    assert (Hfix : PyStr.strip (fenced tag payload) = fenced tag payload).
    { apply strip_fixed.
      - unfold fenced. rewrite !app_String. simpl. by intros c [= <-].
      - unfold fenced.
        replace ("```" +:+ tag +:+ newline +:+ payload +:+ newline +:+ "```")
          with (("```" +:+ tag +:+ newline +:+ payload +:+ newline +:+ "``")
                +:+ String "`" "").
        + rewrite last_char_app. by intros c [= <-].
        + rewrite !app_assoc_str. do 4 f_equal. } 
    rewrite Hfix.
    assert (Hstart : PyStr.startswith "```" (fenced tag payload) = true).
    { unfold fenced, PyStr.startswith. rewrite !app_String. simpl.
      apply prefix_empty. }
    rewrite Hstart. unfold fenced.
    rewrite <- (app_assoc_str "```" tag), split_lines_app, split_lines_app.
    rewrite (split_lines_one ("```" +:+ tag)).
    - rewrite !List.filter_app. simpl.
      change (PyStr.startswith "```" (PyStr.strip ("```" +:+ tag)))
        with (fence_line ("```" +:+ tag)).
      rewrite fence_line_open. simpl.
      rewrite (all_kept fence_line) by done.
      rewrite app_nil_r. apply join_split_lines.
    - unfold free_of in *. rewrite all_chars_app. by rewrite Htag. }
  split; [done|]. unfold parse_enrichment, parse_ask. by rewrite Hstrip.
Qed.

End SchemaMore.

Section SchemaMoreExamples.

Import Facts Spec Schemas.

Lemma strip_fences_unwraps_witness :
  strip_fences (fenced "json" "{}") = "{}".
Proof.
  apply (@strip_fences_unwraps Replies.lib "json" "{}"); [reflexivity|].
  repeat constructor.
Defined.

(** A payload with a fence line of its own loses that line. *)
Example strip_fences_inner_fence :
  strip_fences (fenced "" ("a" +:+ newline +:+ "```" +:+ newline +:+ "b"))
  = "a" +:+ newline +:+ "b".
Proof. reflexivity. Qed.

End SchemaMoreExamples.

(** ** More on question answering *)

Section AskMore.

Import Facts Spec Schemas Ask.
Context `{JsonLib} `{Services}.




(** X21. The one search that [ask_question] makes. It asks for the
    first page of [top_k] results for the question as the query text,
    with the caller's filters and no date bound. It is a hybrid search
    with the question's embedding when [semantic] was asked for and the
    embedding could be generated, and a keyword search without an
    embedding otherwise: a failure to generate the embedding is not an
    error. It is never a semantic-only search. The embedding is
    generated at most once, before the search, and a text is generated
    only after it. *)
Theorem ask_search_mode (question : string) (filters : option Filters)
    (top_k : nat) (semantic : bool) :
  provider_available = true →
  let r := ask_question question filters top_k semantic in
  ∃ p rest,
    r.1 = (if semantic then [GenerateEmbedding question] else [])
          ++ SearchItems p :: rest
    ∧ Forall (λ e, is_generate e = true) rest ∧ length rest ≤ 1
    ∧ Search.q p = Some question ∧ Search.page p = 1%Z
    ∧ Search.size p = Z.of_nat top_k ∧ Search.from_date p = None
    ∧ (Search.p_source_type p, Search.p_primary_language p, Search.p_framework p,
       Search.p_tags p)
      = (λ f, (f_source_type f, f_primary_language f, f_framework f, f_tags f))
          (default (mkFilters None None None None) filters)
    ∧ Search.semantic p = Search.hybrid p
    ∧ Search.query_embedding p
      = (if semantic then
           match generate_embedding question with inr v => Some v | inl _ => None end
         else None)
    ∧ (Search.hybrid p = true ↔ semantic = true ∧ is_Some (Search.query_embedding p)).
Proof.
  intros Hp r. subst r. unfold ask_question. rewrite Hp. simpl.
  destruct semantic; [destruct (generate_embedding question) as [err|v]|];
    (match goal with
     | |- context [search_knowledge_items ?p] =>
         exists p; destruct (search_knowledge_items p) as [err'|[|item items]]
     end;
     [exists []| exists []
     | exists [GenerateText (get_ask_prompt question (item :: items))];
       destruct (generate_text _) as [e1|text];
         [destruct (is_value_error e1)
         |destruct (parse_ask text) as [e1|a0]; [destruct (is_value_error e1)|]]]);
    cbn beta iota; cbn [fst Search.q Search.page Search.size Search.from_date
                        Search.p_tags Search.p_source_type Search.p_primary_language
                        Search.p_framework Search.semantic Search.hybrid
                        Search.query_embedding];
    (split; [by rewrite <- ?app_assoc|]);
    (split; [by repeat constructor|]);
    (split; [simpl; lia|]);
    repeat split; try done; try (by intros [? ?]); by eexists.
Qed.

End AskMore.

Section AskMoreExamples.

Import Facts Spec Schemas Ask.


(** With a provider that has no embeddings, a semantic question is
    answered from a keyword search. *)
Lemma ask_search_mode_witness :
  ∃ p rest,
    (@ask_question Replies.lib (Replies.services [] (inr "{}"))
       "How do I await?" None 5 true).1
    = [GenerateEmbedding "How do I await?"] ++ SearchItems p :: rest
    ∧ Search.hybrid p = false.
Proof.
  destruct (@ask_search_mode Replies.lib (Replies.services [] (inr "{}"))
              "How do I await?" None 5 true eq_refl)
    as (p & rest & Ht & _ & _ & _ & _ & _ & _ & _ & _ & Hemb & Hhy).
  exists p, rest. split; [exact Ht|].
  destruct (Search.hybrid p); [|reflexivity].
  destruct (proj1 Hhy eq_refl) as [_ [v Hv]]. rewrite Hemb in Hv. discriminate.
Defined.

End AskMoreExamples.

(** ** The embedding task *)

Section EmbedFacts.

Import Facts Spec Embed.

Lemma join_head (sep : string) (c : ascii) (x : string) (ps : list string) :
  ∃ rest, PyStr.join sep (String c x :: ps) = String c rest.
Proof.
  destruct ps as [|p ps]; [by eexists|]. rewrite join_cons, app_String. by eexists.
Qed.

Lemma strip_head (c : ascii) (s : string) :
  PyStr.is_space c = false → PyStr.strip (String c s) ≠ "".
Proof.
  intros Hc. unfold PyStr.strip.
  destruct (rstrip_by_head PyStr.is_space c s Hc) as [s' ->]. simpl. by rewrite Hc.
Qed.

Lemma parts_head (item : KnowledgeItem) :
  parts item = []
  ∨ ∃ c x ps, parts item = String c x :: ps ∧ PyStr.is_space c = false.
Proof.
  unfold parts.
  destruct (PyStr.truthy (title item)).
  { right. rewrite app_String. simpl. by eexists _, _, _. }
  destruct (given (ai_summary item)).
  { right. rewrite app_String. simpl. by eexists _, _, _. }
  destruct (given (summary item)).
  { right. rewrite app_String. simpl. by eexists _, _, _. }
  destruct (given (body_text item)).
  { right. rewrite app_String. simpl. by eexists _, _, _. }
  destruct (default [] (code_snippets item)) as [|s l]; [by left|].
  right. simpl. unfold code_part. rewrite app_String. by eexists _, _, _.
Qed.

Lemma parts_nil (item : KnowledgeItem) : parts item = [] ↔ nothing_to_embed item.
Proof.
  unfold parts, nothing_to_embed. split.
  - destruct (title item); [|done].
    destruct (given (ai_summary item)); [done|].
    destruct (given (summary item)); [done|].
    destruct (given (body_text item)); [done|].
    by destruct (default [] (code_snippets item)).
  - intros (-> & -> & -> & -> & ->). done.
Qed.

Lemma embedding_text_blank_strip (item : KnowledgeItem) :
  PyStr.strip (build_embedding_text item) = "" ↔ nothing_to_embed item.
Proof.
  unfold build_embedding_text. split.
  - intros Hblank. apply parts_nil.
    destruct (parts_head item) as [Hnil|(c & x & ps & Hparts & Hc)]; [done|].
    rewrite Hparts in Hblank. destruct (join_head blank_line c x ps) as [rest Hrest].
    rewrite Hrest in Hblank. by destruct (strip_head c rest Hc).
  - intros Hnothing. apply parts_nil in Hnothing. by rewrite Hnothing.
Qed.

(** X22. An item has a blank embedding text exactly when there is
    nothing to embed: its title is empty, it has no summary of either
    kind, no body text and no snippet; the text is then empty. A title
    of whitespace alone is enough for a text that is not blank. *)
Theorem embedding_text_blank (item : KnowledgeItem) :
  (PyStr.strip (build_embedding_text item) = "" ↔ nothing_to_embed item)
  ∧ (nothing_to_embed item → build_embedding_text item = "").
Proof.
  split; [apply embedding_text_blank_strip|].
  unfold build_embedding_text. intros Hnothing. apply parts_nil in Hnothing.
  by rewrite Hnothing.
Qed.

Lemma take_empty (n : nat) (s : string) :
  PyStr.truthy (PyText.take (S n) s) = PyStr.truthy s.
Proof. by destruct s. Qed.

Lemma summary_part (ai s : option string) :
  (if given ai then ["Summary: " +:+ default "" ai]
   else if given s then ["Summary: " +:+ default "" s] else [])
  = let used := if given ai then default "" ai else default "" s in
    if PyStr.truthy used then ["Summary: " +:+ used] else [].
Proof.
  unfold given. cbv zeta. destruct (PyStr.truthy (default "" ai)) eqn:Hai.
  - by rewrite Hai.
  - by destruct (PyStr.truthy (default "" s)).
Qed.

Lemma body_part (b : option string) :
  (if given b then ["Content: " +:+ PyText.take 2000 (default "" b)] else [])
  = if PyStr.truthy (PyText.take 2000 (default "" b))
    then ["Content: " +:+ PyText.take 2000 (default "" b)] else [].
Proof. unfold given. by rewrite take_empty. Qed.

Lemma code_parts (l : list Snippet) :
  map code_part l
  = map (λ p, "Code (" +:+ p.1 +:+ "): " +:+ p.2)
      (map (λ s, (default "" (language s), PyText.take 500 (default "" (code s)))) l).
Proof. by rewrite map_map. Qed.

(** X23. The embedding text reads a bounded part of an item: two items
    with the same title, the same summary in use (the AI summary when
    there is one, the summary otherwise), the same first 2000 characters
    of body text, and the same language and first 500 characters of code
    in their first three snippets have the same embedding text. What
    lies beyond, and every other column, has no influence. *)
Theorem embedding_text_reads_prefix (item item' : KnowledgeItem) :
  embedding_view item = embedding_view item' →
  build_embedding_text item = build_embedding_text item'.
Proof.
  unfold embedding_view. intros Hv.
  pose proof (f_equal (λ t, t.1.1.1) Hv) as Ht.
  pose proof (f_equal (λ t, t.1.1.2) Hv) as Hs.
  pose proof (f_equal (λ t, t.1.2) Hv) as Hb.
  pose proof (f_equal (λ t, t.2) Hv) as Hc.
  cbv beta iota delta [fst snd] in Ht, Hs, Hb, Hc.
  unfold build_embedding_text, parts.
  rewrite !summary_part, !body_part, !code_parts. cbv zeta.
  by rewrite Ht, Hs, Hb, Hc.
Qed.

Lemma with_embedding_frame (item : KnowledgeItem) (v : list float) (now : Z) :
  row_but_embedding (with_embedding item v now) = row_but_embedding item.
Proof. done. Qed.

Lemma embed_keeps_columns (env : Env) (db : list KnowledgeItem) (item_id : N) :
  map row_but_embedding (table (embed_knowledge_item env db item_id))
  = map row_but_embedding db.
Proof.
  unfold embed_knowledge_item.
  destruct (list_find _ db) as [[i item]|] eqn:Hfind; [|done].
  apply list_find_Some in Hfind as (Hi & _).
  destruct (provider_available env); [|done]. simpl.
  destruct (PyStr.truthy _); [|done]. simpl.
  destruct (generate_embedding env _) as [e|v]; [done|].
  simpl. eapply insert_same_image; [done|apply with_embedding_frame].
Qed.

(** X24. The outcomes of the embedding task. It succeeds exactly when
    the row exists, a provider is configured, the row has something to
    embed and the provider returns an embedding of the row's embedding
    text; the row then holds that embedding, one update with it is sent
    to the index, and the status reports its dimension. In every other
    case the table is left as it was and nothing is sent to the index.
    A run never changes another row, nor any column of the row but its
    embedding and [updated_at]. A row with nothing to embed is skipped,
    whatever the provider would have returned; a provider error asks
    for a retry after 60 seconds while the queue has made fewer than
    [max_retries] retries, and fails the task after that. *)
Theorem embed_task_outcomes (env : Env) (db : list KnowledgeItem) (item_id : N) :
  let o := embed_knowledge_item env db item_id in
  map row_but_embedding (table o) = map row_but_embedding db
  ∧ (∀ j row, db !! j = Some row → id row ≠ Some item_id → table o !! j = Some row)
  ∧ (∀ dim, result o = Return (StatusSuccess item_id dim) ↔
       ∃ i item v,
         list_find (λ r, id r = Some item_id) db = Some (i, item)
         ∧ provider_available env = true ∧ ¬ nothing_to_embed item
         ∧ generate_embedding env (build_embedding_text item) = inr v
         ∧ dim = length v)
  ∧ (∀ i item v,
       list_find (λ r, id r = Some item_id) db = Some (i, item) →
       provider_available env = true → ¬ nothing_to_embed item →
       generate_embedding env (build_embedding_text item) = inr v →
       table o = <[i := with_embedding item v (db_now env)]> db
       ∧ index_updates o = [(item_id, v)])
  ∧ ((∀ dim, result o ≠ Return (StatusSuccess item_id dim)) →
     table o = db ∧ index_updates o = [])
  ∧ (∀ i item,
       list_find (λ r, id r = Some item_id) db = Some (i, item) →
       provider_available env = true →
       (nothing_to_embed item → result o = Return (StatusSkipped "No text content"))
       ∧ (∀ e, ¬ nothing_to_embed item →
            generate_embedding env (build_embedding_text item) = inl e →
            (retries env < max_retries → result o = Retry 60)
            ∧ (max_retries ≤ retries env → result o = Raise e))).
Proof.
  intros o. subst o. split; [apply embed_keeps_columns|].
  unfold embed_knowledge_item.
  destruct (list_find _ db) as [[i item]|] eqn:Hfind.
  2:{ split; [done|]. split; [|split; [done|split; [done|done]]].
      intros dim. split; [done|]. by intros (? & ? & ? & ? & _). }
  pose proof Hfind as Hrow. apply list_find_Some in Hrow as (Hi & Hid & _).
  destruct (provider_available env) eqn:Hp; simpl.
  2:{ split; [done|]. split; [|split; [done|split; [done|done]]].
      intros dim. split; [done|]. intros (? & ? & ? & ? & ? & _). done. }
  pose proof (embedding_text_blank_strip item) as Hblank.
  destruct (PyStr.strip (build_embedding_text item)) as [|c s] eqn:Htext; simpl.
  - assert (Hnothing : nothing_to_embed item) by (by apply Hblank).
    split; [done|]. split; [|split; [|split; [done|]]].
    + intros dim. split; [done|]. intros (i' & item' & v & [= <- <-] & _ & Hno & _). done.
    + intros i' item' v [= <- <-] _ Hno. done.
    + intros i' item' [= <- <-] _. split; [done|]. intros e Hno. done.
  - assert (Hsome : ¬ nothing_to_embed item).
    { intros Hno. apply Hblank in Hno. done. }
    destruct (generate_embedding env (build_embedding_text item)) as [e|v] eqn:Hg; simpl.
    + split; [done|]. split; [|split; [|split; [done|]]].
      * intros dim. unfold retry. split; [by case_decide|].
        intros (i' & item' & v & [= <- <-] & _ & _ & Hv & _). congruence.
      * intros i' item' v [= <- <-] _ _ Hv. congruence.
      * intros i' item' [= <- <-] _. split; [done|]. intros e' _ He'.
        assert (e' = e) as -> by congruence. unfold retry. split; intros Hr; [by rewrite decide_True|by rewrite decide_False by lia].
    + split; [|split; [|split; [|split]]].
      * intros j row Hj Hne. rewrite list_lookup_insert_ne; [done|].
        intros <-. rewrite Hi in Hj. by injection Hj as <-.
      * intros dim. split.
        -- intros [= <-]. by exists i, item, v.
        -- intros (i' & item' & v' & [= <- <-] & _ & _ & Hv & ->). congruence.
      * intros i' item' v' [= <- <-] _ _ Hv. split; congruence.
      * intros Hnot. by destruct (Hnot (length v)).
      * intros i' item' [= <- <-] _. split; [done|]. intros e _ He. congruence.
Qed.

End EmbedFacts.

Section EmbedExamples.

Import Facts Spec Embed.

Example build_embedding_text_sample :
  build_embedding_text Replies.stored_item
  = "Title: A post" +:+ blank_line +:+ "Content: first".
Proof. reflexivity. Qed.

Lemma embedding_text_blank_witness :
  build_embedding_text
    (mkItem (Some 1%N) "rss" "Feed" "http://x.com/a" "" None (Some "") (Some []) []
       None None None None None (Some 0%Z) (Some 0%Z) "" "rss::http://x.com/a"
       None None None None None None None)
  = "".
Proof.
  apply embedding_text_blank. by repeat split.
Defined.

Lemma embedding_text_reads_prefix_witness :
  build_embedding_text (with_embedding Replies.stored_item [0.5%float] 9)
  = build_embedding_text Replies.stored_item.
Proof.
  apply (embedding_text_reads_prefix (with_embedding Replies.stored_item [0.5%float] 9)
           Replies.stored_item).
  reflexivity.
Defined.

Lemma embed_task_outcomes_witness :
  table (embed_knowledge_item (mkEnv true (λ _, inr [0.5%float; 0.25%float]) 9 0)
           [Replies.stored_item] 7)
  = [with_embedding Replies.stored_item [0.5%float; 0.25%float] 9]
  ∧ index_updates (embed_knowledge_item
                     (mkEnv true (λ _, inr [0.5%float; 0.25%float]) 9 0)
                     [Replies.stored_item] 7)
    = [(7%N, [0.5%float; 0.25%float])].
Proof.
  destruct (embed_task_outcomes (mkEnv true (λ _, inr [0.5%float; 0.25%float]) 9 0)
              [Replies.stored_item] 7) as (_ & _ & _ & Hsuccess & _).
  apply (Hsuccess 0%nat Replies.stored_item [0.5%float; 0.25%float]);
    try reflexivity.
  intros (Htitle & _). discriminate.
Defined.

End EmbedExamples.

Section MoreExamples.

#[local] Open Scope Z_scope.

Lemma ingest_stats_balance_witness :
  Ingest.processed (@Ingest.ingest (Feed.connector Feed.two_posts) Feed.empty_world).1
  = (Ingest.stored (@Ingest.ingest (Feed.connector Feed.two_posts) Feed.empty_world).1
     + Ingest.skipped (@Ingest.ingest (Feed.connector Feed.two_posts) Feed.empty_world).1)%nat
  ∧ Ingest.fetched (@Ingest.ingest (Feed.connector Feed.two_posts) Feed.empty_world).1
    = 2%nat.
Proof.
  destruct (@ingest_stats_balance (Feed.connector Feed.two_posts) Feed.empty_world)
    as (Hp & _ & _ & Hf & _).
  split; [exact Hp|exact Hf].
Defined.

Lemma rate_limiter_domains_apart_witness :
  RateLimiter.requests
    (RateLimiter.can_make_request (λ url, url)
       (RateLimiter.mkLimiter 2 60 {["x.com" := [10; 100]]}) "x.com" 130).1 !! "y.org"
  = None
  ∧ RateLimiter.requests
      (RateLimiter.can_make_request (λ url, url)
         (RateLimiter.mkLimiter 2 60 {["x.com" := [10; 100]]}) "x.com" 130).1 !! "x.com"
    = Some [100].
Proof.
  destruct (rate_limiter_domains_apart (λ url, url)
              (RateLimiter.mkLimiter 2 60 {["x.com" := [10; 100]]}) "x.com" 130 "y.org")
    as (Hd & _ & _ & _ & Ho & _).
  split.
  - destruct Ho as [Ho _]; [discriminate|].
    etransitivity; [exact Ho|]. vm_compute. reflexivity.
  - etransitivity; [exact Hd|]. vm_compute. reflexivity.
Defined.

End MoreExamples.

(** ** The search route *)

Section RouteFacts.

#[local] Open Scope Z_scope.

Import Facts Spec Routes.

Lemma split_commas_cons (s : string) : ∃ l ls, PyText.split_commas s = l :: ls.
Proof.
  induction s as [|c s (l & ls & IH)]; [by eexists _, _|]. simpl.
  destruct (PyText.is_comma c); [by eexists _, _|]. rewrite IH. by eexists _, _.
Qed.

Lemma split_commas_free (s : string) :
  Forall (free_of PyText.is_comma) (PyText.split_commas s).
Proof.
  induction s as [|c s IH]; [by repeat constructor|]. simpl.
  destruct (PyText.is_comma c) eqn:Hc; [by constructor|].
  destruct (PyText.split_commas s) as [|l ls]; [by repeat constructor; unfold free_of; simpl; rewrite Hc|].
  inversion IH as [|? ? Hl Hls]; subst. constructor; [|done].
  unfold free_of in *. simpl. by rewrite Hc, Hl.
Qed.

Lemma tags_filter (p : Search.Params) (l : list string) :
  Search.Terms "tags" l
    ∈ default [] (Search.filter_ (Search.query (Search.build_search_query p)))
  ↔ Search.given_list (Search.p_tags p) = Some l.
Proof.
  unfold Search.build_search_query.
  repeat match goal with
         | |- context [let '(_, _) := ?e in _] => destruct e
         end.
  simpl. rewrite present_default.
  destruct (Search.given (Search.p_source_type p)),
    (Search.given (Search.p_primary_language p)),
    (Search.given (Search.p_framework p)), (Search.given_list (Search.p_tags p)),
    (Search.given (Search.from_date p)); simpl;
    rewrite ?elem_of_cons, ?elem_of_nil;
    (split; [intros Hin; repeat destruct Hin as [Hin|Hin]; (done || congruence)
            |intros [= ->]; tauto]).
Qed.

(** X25. The [tags] parameter of the search route. Every tag handed to
    the search is a part of the parameter between two commas, stripped:
    it is not empty, holds no comma and has no whitespace at either end.
    The query carries a [terms] filter on [tags] exactly when some part
    of the parameter is not blank, and then it lists the stripped parts
    that are not blank, in order: a parameter of commas and whitespace
    alone filters nothing. *)
Theorem search_tags_parsed (tags : option string) (p : Search.Params) :
  Search.p_tags p = tag_list tags →
  let parts := List.filter names_tag (PyText.split_commas (default "" tags)) in
  (∀ l, tag_list tags = Some l →
     l = map PyStr.strip parts
     ∧ Forall (λ t, t ≠ "" ∧ free_of PyText.is_comma t ∧ PyStr.strip t = t) l)
  ∧ (∀ l, Search.Terms "tags" l
            ∈ default [] (Search.filter_ (Search.query (Search.build_search_query p)))
          ↔ parts ≠ [] ∧ l = map PyStr.strip parts).
Proof.
  intros Hp parts.
  assert (Hparts : Forall (λ t, t ≠ "" ∧ free_of PyText.is_comma t ∧ PyStr.strip t = t)
                     (map PyStr.strip parts)).
  { apply Forall_forall. intros t Ht.
    apply list_elem_of_In, in_map_iff in Ht as (part & <- & Hpart).
    apply filter_In in Hpart as [Hin Hname]. unfold names_tag in Hname.
    split; [by destruct (PyStr.strip part)|]. split; [|apply strip_idem].
    apply strip_all_chars.
    pose proof (split_commas_free (default "" tags)) as Hfree.
    rewrite Forall_forall in Hfree. by apply Hfree, list_elem_of_In. }
  assert (Hlist : ∀ l, tag_list tags = Some l → l = map PyStr.strip parts).
  { intros l. unfold tag_list. destruct tags as [t|]; [|done].
    destruct (PyStr.truthy t); [|done]. by intros [= <-]. }
  split.
  - intros l Hl. apply Hlist in Hl as ->. done.
  - intros l. rewrite tags_filter, Hp. clear Hparts Hlist Hp.
    assert (Hgiven : ∀ m : list string,
              Search.given_list (Some m) = Some l ↔ m ≠ [] ∧ l = m).
    { intros [|x m]; simpl; [by split; [|intros [? _]]|].
      split; [by intros [= <-]|by intros [_ ->]]. }
    unfold tag_list. destruct tags as [t|].
    + destruct t as [|c t].
      * subst parts. simpl. by split; [|intros [? _]].
      * remember (String c t) as text eqn:Htext.
        assert (PyStr.truthy text = true) as -> by (by subst).
        rewrite Hgiven. subst parts. simpl.
        change (λ t0, PyStr.truthy (PyStr.strip t0)) with names_tag.
        destruct (List.filter names_tag (PyText.split_commas text)); simpl;
          (split; intros [Hne Hl]; (split; [done|exact Hl])).
    + subst parts. simpl. by split; [|intros [? _]].
Qed.

Lemma search_tags_parsed_witness :
  Search.Terms "tags" ["web"; "async io"]
  ∈ default [] (Search.filter_ (Search.query (Search.build_search_query
      (Search.mkParams None None None None (tag_list (Some " web, ,async io,"))
         None false false None 1 20)))).
Proof.
  apply (search_tags_parsed (Some " web, ,async io,")
           (Search.mkParams None None None None (tag_list (Some " web, ,async io,"))
              None false false None 1 20) eq_refl).
  split; [discriminate|reflexivity].
Defined.

Example search_tags_blank :
  tag_list (Some " , ,") = Some []
  ∧ Search.filter_ (Search.query (Search.build_search_query
      (Search.mkParams None None None None (tag_list (Some " , ,"))
         None false false None 1 20))) = None.
Proof. split; reflexivity. Qed.

Section Responses.

Context {Doc Highlight : Type}.
Variable provider_available : bool.
Variable generate_embedding : string → Exn + list float.
Variable es_search : Search.SearchRequest → Exn + SearchRun.Response Doc Highlight.

(** X26. What the search route answers. A request whose [page] is below
    1 or whose [size] is outside 1..100 is answered 422 and nothing else
    is. Within the bounds, a request for semantic or hybrid search with
    a text that is not empty is always answered 500, with or without a
    provider: [asyncio.run] raises inside the running loop, the route
    raises a 400 itself when no provider is available, and the handler
    around both turns either into a 500. Every other request is answered
    with the result of [search_knowledge_items] on the route's
    parameters, with the parsed tags and without an embedding, or with
    a 500 when that raises. So an [HTTPException] of the route is always
    a 500, never a 400, and no result is ever computed from a query
    embedding. *)
Theorem search_route_responses (r : Query) :
  let route := search Doc Highlight provider_available generate_embedding es_search in
  let wanted := (semantic r || hybrid r) && PyStr.truthy (default "" (q r)) in
  (route r = RequestValidationError
   ↔ (page r < 1 ∨ size r < 1 ∨ 100 < size r))
  ∧ (within_bounds r = true → wanted = true → route r = HTTPException 500)
  ∧ (within_bounds r = true → wanted = false →
     route r
     = match SearchRun.search_knowledge_items Doc Highlight es_search (params r None) with
       | inr results => Ok results
       | inl _ => HTTPException 500
       end)
  ∧ (∀ status_code, route r = HTTPException status_code → status_code = 500)
  ∧ (∀ results, route r = Ok results →
       within_bounds r = true ∧ wanted = false
       ∧ SearchRun.search_knowledge_items Doc Highlight es_search (params r None)
         = inr results).
Proof.
  intros route wanted. subst route.
  unfold search, embedding_attempt, asyncio_run. fold wanted.
  assert (Hb : within_bounds r = false ↔ (page r < 1 ∨ size r < 1 ∨ 100 < size r)).
  { unfold within_bounds. rewrite !andb_false_iff, !Z.leb_gt. tauto. }
  destruct (within_bounds r).
  - assert (Hin : ¬ (page r < 1 ∨ size r < 1 ∨ 100 < size r)).
    { intros Hout. by apply Hb in Hout. }
    destruct wanted.
    + destruct provider_available.
      all: split; [split; [done|by intros Hout]|].
      all: repeat match goal with |- _ ∧ _ => split end; try done.
      all: by intros ? [= <-].
    + destruct (SearchRun.search_knowledge_items _ _ _ _) as [e|results] eqn:Hs.
      all: split; [split; [done|by intros Hout]|].
      all: repeat match goal with |- _ ∧ _ => split end; try done.
      all: by intros ? [= <-].
  - split; [split; [intros _; by apply Hb|done]|]. repeat split; done.
Qed.

End Responses.

Lemma search_route_responses_witness :
  search string string true (λ _, inr [0.5%float]) (λ _, inr None)
    (mkQuery (Some "async") None None None None None true false 1 20)
  = HTTPException 500
  ∧ search string string true (λ _, inr [0.5%float]) (λ _, inr None)
      (mkQuery (Some "async") None None None None None true false 1 0)
    = RequestValidationError.
Proof.
  destruct (search_route_responses (Doc := string) (Highlight := string) true
              (λ _, inr [0.5%float]) (λ _, inr None)
              (mkQuery (Some "async") None None None None None true false 1 20))
    as (_ & Hwanted & _).
  destruct (search_route_responses (Doc := string) (Highlight := string) true
              (λ _, inr [0.5%float]) (λ _, inr None)
              (mkQuery (Some "async") None None None None None true false 1 0))
    as ([_ Hout] & _).
  split; [by apply Hwanted|]. apply Hout. simpl. lia.
Defined.

End RouteFacts.

(** ** The choice of the provider *)

Section ProviderFacts.

#[local] Open Scope Z_scope.

Import Provider.

(** X27. Which provider is chosen, and which limiter goes with it. The
    Anthropic provider is chosen exactly when the configured name is
    [anthropic] in any letter case and an Anthropic key is set; in every
    other case the OpenAI provider is, available or not. The chosen
    provider is available exactly when an OpenAI key is set or the
    Anthropic provider was chosen. Available does not mean usable: with
    an empty key the provider is available and every generation fails
    with a [ValueError] before the API is called; and whichever provider
    is chosen, an embedding can be asked for only with an OpenAI key
    that is not empty. The limiter follows the configured name alone: it
    is the limiter of the chosen provider exactly when the name is
    [openai], or is [anthropic] with an Anthropic key set; otherwise the
    OpenAI provider runs under the Anthropic limit of 50 requests a
    minute. *)
Theorem provider_selection (settings : Settings) :
  let name := PyStr.lower (ai_provider settings) in
  let provider := get_ai_provider settings in
  (kind provider = Anthropic
   ↔ name = "anthropic" ∧ is_Some (anthropic_api_key settings))
  ∧ (kind provider = Anthropic → api_key provider = anthropic_api_key settings)
  ∧ (kind provider = OpenAI → api_key provider = openai_api_key settings)
  ∧ (is_available provider = true
     ↔ is_Some (openai_api_key settings) ∨ kind provider = Anthropic)
  ∧ (generate_text_guard provider = None
     ↔ ∃ key, api_key provider = Some key ∧ key ≠ "")
  ∧ (api_key provider = Some "" →
     is_available provider = true ∧ generate_text_guard provider = Some ValueError)
  ∧ (generate_embedding_guard settings provider = None
     ↔ ∃ key, openai_api_key settings = Some key ∧ key ≠ "")
  ∧ (rate_limiter_kind settings = kind provider
     ↔ name = "openai" ∨ name = "anthropic" ∧ is_Some (anthropic_api_key settings))
  ∧ (name ≠ "openai" → kind provider = OpenAI →
     AIRateLimiter.max_requests (rate_limiter settings) = 50).
Proof.
  intros name provider. subst provider name.
  destruct settings as [configured openai_key anthropic_key].
  unfold generate_embedding_guard, get_ai_provider, rate_limiter, rate_limiter_kind,
    generate_text_guard, _get_client, is_available, OpenAIProvider, AnthropicProvider.
  cbn [ai_provider openai_api_key anthropic_api_key api_key kind].
  set (name := PyStr.lower configured).
  destruct (String.eqb_spec name "anthropic") as [Ha|Ha];
    destruct (String.eqb_spec name "openai") as [Ho|Ho];
    try (rewrite Ha in Ho; discriminate);
    destruct anthropic_key as [[|c ka]|];
    destruct openai_key as [[|c' ko]|]; simpl;
    repeat split; try done; try tauto; try (by eexists); try (by left);
    try (by right);
    try (intros [? ?]; done); try (intros [[? ?]|?]; done);
    try (intros [?|[? ?]]; done); try (intros [?|[? [? ?]]]; done);
    try (intros (? & ? & ?); congruence); try (by intros _; eexists _).
Qed.

Lemma provider_selection_witness :
  is_available (get_ai_provider (mkSettings "openai" (Some "") None)) = true
  ∧ generate_text_guard (get_ai_provider (mkSettings "openai" (Some "") None))
    = Some ValueError.
Proof.
  apply (provider_selection (mkSettings "openai" (Some "") None)). reflexivity.
Defined.

(** Configured for Anthropic without an Anthropic key: the OpenAI
    provider is chosen and runs under the Anthropic limiter. *)
Example provider_fallback_limiter :
  kind (get_ai_provider (mkSettings "Anthropic" (Some "sk-1") None)) = OpenAI
  ∧ rate_limiter (mkSettings "Anthropic" (Some "sk-1") None) = anthropic_rate_limiter.
Proof. split; reflexivity. Qed.

End ProviderFacts.

(** ** The indexed documents *)

Section IndexFacts.

Import Facts Spec Schemas Index.
Context `{JsonLib}.

Lemma enrich_doc_index_doc (item : KnowledgeItem) :
  enrich_doc item = delete "embedding" (index_doc item).
Proof. reflexivity. Qed.

Lemma index_doc_embedding (item : KnowledgeItem) :
  index_doc item !! "embedding" = Some (of_floats (embedding item)).
Proof. reflexivity. Qed.

Lemma enrich_success_row (env : Enrich.Env) (db : list KnowledgeItem) (item_id : N)
    (status_id : N) :
  (Enrich.enrich_knowledge_item env db item_id).1
  = Enrich.Return (Enrich.StatusSuccess status_id) →
  ∃ i item e,
    list_find (λ row, id row = Some item_id) db = Some (i, item)
    ∧ (Enrich.enrich_knowledge_item env db item_id).2
      = <[i := Enrich.apply_enrichment item e (Enrich.utcnow env)]> db
    ∧ list_find (λ row, id row = Some item_id)
        (Enrich.enrich_knowledge_item env db item_id).2
      = Some (i, Enrich.apply_enrichment item e (Enrich.utcnow env)).
Proof.
  unfold Enrich.enrich_knowledge_item.
  destruct (list_find _ db) as [[i item]|] eqn:Hfind; [|done].
  destruct (Enrich.provider_available env); [|done]. simpl.
  destruct (Enrich.call_result env) as [e|text]; [by unfold Enrich.retry; case_decide|].
  destruct (parse_enrichment text) as [e|e]; [by destruct (is_value_error e)|].
  simpl. intros _. exists i, item, e. split; [done|]. split; [done|].
  apply list_find_Some in Hfind as (Hi & Hid & Hfirst).
  apply list_find_Some. split; [|split; [done|]].
  - apply list_lookup_insert_eq. by eapply lookup_lt_Some.
  - intros j row Hj Hlt. rewrite list_lookup_insert_ne in Hj by lia. by eapply Hfirst.
Qed.

(** X28. The re-index of the enrichment task drops the embedding from
    the index. The document it writes is the document that ingestion
    writes for the row, without the key [embedding]; and the write
    replaces what the index held. So after a run that succeeded, with
    its index write gone through, the document of the row has no
    embedding, whatever it had before, while the row itself keeps the
    embedding it had; a later update of the embedding task that goes
    through sets the key again and leaves the other keys of the document
    as they are. *)
Theorem enrich_reindex_drops_embedding (env : Enrich.Env) (db : list KnowledgeItem)
    (item_id : N) (store : gmap N (gmap string Value)) :
  let r := Enrich.enrich_knowledge_item env db item_id in
  let store' := enrich_reindex true r item_id store in
  r.1 = Enrich.Return (Enrich.StatusSuccess item_id) →
  ∃ i before after,
    db !! i = Some before ∧ r.2 !! i = Some after ∧ id after = Some item_id
    ∧ embedding after = embedding before
    ∧ store' !! item_id = Some (enrich_doc after)
    ∧ enrich_doc after = delete "embedding" (index_doc after)
    ∧ enrich_doc after !! "embedding" = None
    ∧ index_doc after !! "embedding" = Some (of_floats (embedding before))
    ∧ (∀ other, other ≠ item_id → store' !! other = store !! other)
    ∧ (∀ o v, Embed.index_updates o = [(item_id, v)] →
         embed_reindex true o store' !! item_id
         = Some (<["embedding" := VFloats v]> (enrich_doc after))).
Proof.
  intros r store' Hr. subst r store'.
  destruct (enrich_success_row env db item_id item_id Hr) as (i & item & e & Hfind & Hdb & Hfind').
  unfold enrich_reindex. rewrite Hr, Hfind'. cbn beta iota.
  apply list_find_Some in Hfind as (Hi & Hid & _).
  exists i, item, (Enrich.apply_enrichment item e (Enrich.utcnow env)).
  split; [done|]. split.
  { rewrite Hdb. apply list_lookup_insert_eq. by eapply lookup_lt_Some. }
  split; [done|]. split; [done|].
  unfold es_index, es_update. rewrite !lookup_insert_eq.
  split; [done|]. split; [apply enrich_doc_index_doc|].
  split; [by rewrite enrich_doc_index_doc, lookup_delete_eq|].
  split; [by rewrite index_doc_embedding|]. split.
  - intros other Hother. by rewrite lookup_insert_ne by (by intros ->).
  - intros o v Ho. unfold embed_reindex. rewrite Ho. cbn [foldl fst snd].
    unfold es_update. rewrite !lookup_insert_eq. cbv [from_option Datatypes.id].
    unfold embedding_doc. by rewrite <- insert_union_singleton_l.
Qed.

End IndexFacts.

Section IndexExamples.

Import Index.

Lemma enrich_reindex_drops_embedding_witness :
  ∃ after,
    enrich_reindex true
      (@Enrich.enrich_knowledge_item Replies.lib (Enrich.mkEnv true (inr "good") 50 0)
         [Embed.with_embedding Replies.stored_item [0.5%float] 9] 7) 7 ∅ !! 7%N
    = Some (enrich_doc after)
    ∧ embedding after = Some [0.5%float]
    ∧ enrich_doc after !! "embedding" = None.
Proof.
  destruct (@enrich_reindex_drops_embedding Replies.lib
              (Enrich.mkEnv true (inr "good") 50 0)
              [Embed.with_embedding Replies.stored_item [0.5%float] 9] 7 ∅ eq_refl)
    as (i & before & after & Hb & _ & _ & He & Hs & _ & Hn & _).
  exists after. split; [exact Hs|]. split; [|exact Hn].
  destruct i as [|i]; [|discriminate]. injection Hb as <-. exact He.
Defined.

End IndexExamples.

(** ** Fetching with retries *)

Section FetchFacts.

#[local] Open Scope Z_scope.

Import Facts RateLimiter HttpClient.
Variable netloc : string → string.
Variable get : nat → Reply * Z.
Variable backoff : nat → Z.

Lemma wait_if_needed_limiter (l : Limiter) (url : string) (now : Z) :
  let w := wait_if_needed netloc l url now in
  let domain := _get_domain netloc url in
  requests w.1 !! domain = Some (recent l domain now)
  ∧ (∀ other, other ≠ domain → requests w.1 !! other = requests l !! other)
  ∧ now ≤ w.2.
Proof.
  unfold wait_if_needed, can_make_request, recent.
  set (domain := _get_domain netloc url).
  set (reqs := filter (λ t, now - window_seconds l < t) (default [] (requests l !! domain))).
  assert (Hl : ∀ (b : bool * Z) (c : Limiter * (bool * Z)),
            c.1 = mkLimiter (max_requests l) (window_seconds l)
                    (<[domain := reqs]> (requests l)) →
            requests c.1 !! domain = Some reqs
            ∧ ∀ other, other ≠ domain → requests c.1 !! other = requests l !! other).
  { intros _ c ->. simpl. rewrite lookup_insert_eq. split; [done|].
    intros other Hother. by rewrite lookup_insert_ne. }
  cbv zeta. case_decide; simpl.
  - rewrite lookup_insert_eq. split; [done|]. split; [|lia].
    intros other Hother. by rewrite lookup_insert_ne.
  - destruct reqs as [|r rest] eqn:Hreqs; simpl.
    + rewrite lookup_insert_eq. split; [done|]. split; [|lia].
      intros other Hother. by rewrite lookup_insert_ne.
    + rewrite lookup_insert_eq. split; [done|]. split; [|lia].
      intros other Hother. by rewrite lookup_insert_ne.
Qed.

Lemma attempt_limiter (url : string) (n : nat) (l : Limiter) (now : Z) :
  0 ≤ (get n).2 →
  let r := attempt netloc get url n l now in
  let domain := _get_domain netloc url in
  (∀ other, other ≠ domain → requests r.1.2 !! other = requests l !! other)
  ∧ (∃ kept, kept `sublist_of` default [] (requests l !! domain)
       ∧ requests r.1.2 !! domain
         = Some (kept ++ match r.1.1 with inr (Some _) => [r.2] | _ => [] end))
  ∧ now ≤ r.2.
Proof.
  intros Hget r domain. subst r. unfold attempt.
  destruct (wait_if_needed_limiter l url now) as (Hd & Ho & Hc).
  cbv zeta in Hd, Ho, Hc. fold domain in Hd, Ho.
  assert (Hkept : recent l domain now `sublist_of` default [] (requests l !! domain))
    by apply sublist_filter.
  destruct (get n).1 as [status_code| |e]; [destruct (raise_for_status status_code)|..];
    cbn [fst snd].
  2:{ split; [|split; [|lia]].
      - intros other Hother. unfold record_request. fold domain. simpl.
        rewrite lookup_insert_ne by done. by apply Ho.
      - exists (recent l domain now). split; [done|].
        unfold record_request. fold domain. simpl.
        by rewrite lookup_insert_eq, Hd. }
  all: split; [done|]; split; [|lia];
    exists (recent l domain now); split; [done|]; by rewrite Hd, app_nil_r.
Qed.

Lemma retrying_facts (url : string) (remaining n : nat) (l : Limiter) (now : Z) :
  (∀ k, 0 ≤ (get k).2) → (∀ k, 0 ≤ backoff k) →
  let o := retrying netloc get backoff url remaining n l now in
  let domain := _get_domain netloc url in
  (n ≤ attempts o ≤ n + remaining)%nat
  ∧ (∀ k, (n ≤ k < attempts o)%nat → retried get k)
  ∧ match result o with
    | Returned status_code =>
        (get (attempts o)).1 = Response status_code
        ∧ raise_for_status status_code = false
    | RetryError => attempts o = (n + remaining)%nat ∧ retried get (attempts o)
    | Raised e => (get (attempts o)).1 = OtherException e
    end
  ∧ (∀ other, other ≠ domain → requests (limiter o) !! other = requests l !! other)
  ∧ (∃ kept, kept `sublist_of` default [] (requests l !! domain)
       ∧ requests (limiter o) !! domain
         = Some (kept ++ match result o with Returned _ => [clock o] | _ => [] end))
  ∧ now ≤ clock o.
Proof.
  intros Hget Hback. revert n l now.
  induction remaining as [|remaining IH]; intros n l now; cbn [retrying].
  all: pose proof (attempt_limiter url n l now (Hget n)) as (Ho & (kept & Hk & Hd) & Hc);
    cbv zeta in Ho, Hd, Hc; revert Ho Hd Hc; unfold attempt;
    destruct (get n).1 as [status_code| |e] eqn:Hreply;
    [destruct (raise_for_status status_code) eqn:Hstatus|..];
    cbn [fst snd]; intros Ho Hd Hc.
  (* no attempt left *)
  1,3: (split; [cbn [attempts]; lia|]; split; [cbn [attempts]; intros k Hk'; lia|];
        split; [cbn [attempts result]; split; [lia|];
                first [by left | right; by exists status_code]|];
        split; [done|]; split; [by exists kept|done]).
  1,2,4,6: (split; [cbn [attempts]; lia|]; split; [cbn [attempts]; intros k Hk'; lia|];
        split; [done|]; split; [done|]; split; [by exists kept|done]).
  (* attempts left *)
  all: specialize (IH (S n) (wait_if_needed netloc l url now).1
                     ((wait_if_needed netloc l url now).2 + (get n).2 + backoff n));
    cbv zeta in IH;
    destruct IH as (Hn & Hretried & Hresult & Ho' & (kept' & Hk' & Hd') & Hc');
    (split; [lia|]);
    (split; [intros k Hkn; destruct (decide (k = n)) as [->|Hne];
               [first [by left | right; by exists status_code]
               |apply Hretried; lia]|]);
    (split; [destruct (result _); [done| |done];
             destruct Hresult as [Ha Hr]; split; [lia|done]|]);
    (split; [intros other Hother; rewrite Ho' by done; by apply Ho|]);
    (split; [|pose proof (Hback n); lia]);
    exists kept'; (split; [|done]);
    rewrite Hd, app_nil_r in Hk'; simpl in Hk'; by etransitivity.
Qed.

(** X29. A call of [fetch_url] makes at least one and at most three
    requests, and every request before the last failed with a
    [RequestException] or an error status. It returns a response, which
    then has no error status; or, after three such failures, it ends
    with the [RetryError] of the retrying, not with the last
    [RequestException]; or another exception leaves it at once, without
    a retry. The limiter records only the request that succeeded: the
    timestamps of the URL's domain afterwards are timestamps it had
    before, followed by the clock of the response when there is one, and
    no other domain is touched. The clock never runs backwards. *)
Theorem fetch_url_retries (url : string) (l : Limiter) (now : Z) :
  (∀ k, 0 ≤ (get k).2) → (∀ k, 0 ≤ backoff k) →
  let o := fetch_url netloc get backoff url l now in
  let domain := _get_domain netloc url in
  (1 ≤ attempts o ≤ 3)%nat
  ∧ (∀ k, (1 ≤ k < attempts o)%nat → retried get k)
  ∧ match result o with
    | Returned status_code =>
        (get (attempts o)).1 = Response status_code
        ∧ raise_for_status status_code = false
    | RetryError => attempts o = 3%nat ∧ retried get 3
    | Raised e => (get (attempts o)).1 = OtherException e
    end
  ∧ (∀ other, other ≠ domain → requests (limiter o) !! other = requests l !! other)
  ∧ (∃ kept, kept `sublist_of` default [] (requests l !! domain)
       ∧ requests (limiter o) !! domain
         = Some (kept ++ match result o with Returned _ => [clock o] | _ => [] end))
  ∧ now ≤ clock o.
Proof.
  intros Hget Hback o domain. subst o. unfold fetch_url.
  destruct (retrying_facts url 2 1 l now Hget Hback)
    as (Hn & Hretried & Hresult & Ho & Hd & Hc).
  split; [lia|]. split; [done|]. split; [|done].
  destruct (result _); [done| |done]. destruct Hresult as [Ha Hr].
  split; [done|]. by rewrite Ha in Hr.
Qed.

End FetchFacts.

Section FetchExamples.

#[local] Open Scope Z_scope.

Import Facts RateLimiter HttpClient.

(** A server that answers 503 twice and then 200. *)
Lemma fetch_url_retries_witness :
  result (fetch_url (λ url, url)
            (λ n, if decide (n < 3)%nat then (Response 503, 1) else (Response 200, 1))
            (λ _, 2) "x.com" (mkLimiter 60 60 ∅) 100)
  = Returned 200
  ∧ retried
      (λ n, if decide (n < 3)%nat then (Response 503, 1) else (Response 200, 1)) 2.
Proof.
  split; [reflexivity|].
  destruct (fetch_url_retries (λ url, url)
              (λ n, if decide (n < 3)%nat then (Response 503, 1) else (Response 200, 1))
              (λ _, 2) "x.com" (mkLimiter 60 60 ∅) 100) as (_ & Hretried & _).
  - intros k. case_decide; simpl; lia.
  - intros k. lia.
  - apply Hretried. vm_compute. split; apply Nat.le_refl || (repeat constructor).
Defined.

(** Three failures end in the [RetryError]; nothing is recorded. *)
Example fetch_url_gives_up :
  (λ o, (result o, attempts o, requests (limiter o) !! "x.com", clock o))
    (fetch_url (λ url, url) (λ _, (RequestException, 1)) (λ _, 2) "x.com"
       (mkLimiter 60 60 ∅) 100)
  = (RetryError, 3%nat, Some [], 107).
Proof. reflexivity. Qed.

End FetchExamples.

(** ** Saved search alerts *)

Section AlertFacts.

#[local] Open Scope Z_scope.

Import Facts Alerts.
Context {Doc Highlight : Type}.
Variable es_search : Search.SearchRequest → Exn + SearchRun.Response Doc Highlight.
Variable utcnow : nat → Z.

Lemma format_hits_some (hits : list (SearchRun.EsHit Doc Highlight)) :
  is_Some (mapM (SearchRun.format_hit Doc Highlight) hits)
  ↔ Forall (λ hit, is_Some (SearchRun._source Doc Highlight hit)) hits.
Proof.
  rewrite mapM_is_Some. apply Forall_iff. intros hit.
  unfold SearchRun.format_hit. destruct hit as [[source|] highlight score]; simpl.
  - split; by eexists.
  - split; by intros [? ?].
Qed.

Lemma alert_request (s : SavedSearch) :
  let request := Search.build_search_query (search_params s) in
  Search.from_ request = 0 ∧ Search.size_ request = 10
  ∧ Search.must (Search.query request)
    = Some [match query s with
            | Some (String c text) => Search.keyword_query (String c text)
            | _ => Search.MatchAll
            end]
  ∧ Search.should (Search.query request) = None.
Proof.
  unfold Search.build_search_query, search_params. simpl.
  destruct (query s) as [[|c text]|]; simpl; done.
Qed.

(** X30. A run of the saved search alerts keeps every saved search at
    its place with its name, query and filters. Each is run as a keyword
    search for the first ten results: its text is matched when it has
    one, and every document passes when it has none. A saved search
    whose search succeeds gets the total of its own search as its match
    count and the clock as the time of its last run; one whose search
    fails, because the engine raises or a hit comes without its
    document, is left exactly as it was, and the run goes on with the
    next. *)
Theorem alerts_record_matches (saved_searches : list SavedSearch) :
  let after := run_saved_search_alerts Doc Highlight es_search utcnow saved_searches in
  map saved_query after = map saved_query saved_searches
  ∧ ∀ i s, saved_searches !! i = Some s →
      let request := Search.build_search_query (search_params s) in
      (Search.from_ request = 0 ∧ Search.size_ request = 10
       ∧ Search.must (Search.query request)
         = Some [match query s with
                 | Some (String c text) => Search.keyword_query (String c text)
                 | _ => Search.MatchAll
                 end]
       ∧ Search.should (Search.query request) = None)
      ∧ ∃ s', after !! i = Some s'
          ∧ (∀ e, es_search request = inl e → s' = s)
          ∧ (∀ response, es_search request = inr response →
             let hits := default (SearchRun.mkHits Doc Highlight None None) response in
             let found := default [] (SearchRun.hits_hits Doc Highlight hits) in
             (Forall (λ hit, is_Some (SearchRun._source Doc Highlight hit)) found →
              match_count s' = Some (SearchRun.total_of Doc Highlight hits)
              ∧ last_run_at s' = Some (utcnow i))
             ∧ (¬ Forall (λ hit, is_Some (SearchRun._source Doc Highlight hit)) found →
                s' = s)).
Proof.
  intros after. subst after. unfold run_saved_search_alerts. split.
  - apply list_eq. intros i. rewrite !list_lookup_fmap, list_lookup_imap.
    destruct (saved_searches !! i) as [s|]; [|done]. simpl. f_equal.
    unfold run_one. by destruct (SearchRun.search_knowledge_items _ _ _ _).
  - intros i s Hi. set (request := Search.build_search_query (search_params s)).
    split; [apply alert_request|].
    exists (run_one Doc Highlight es_search utcnow i s).
    split; [by rewrite list_lookup_imap, Hi|].
    unfold run_one, SearchRun.search_knowledge_items. fold request.
    destruct (es_search request) as [e|response]; [by split|].
    split; [done|]. intros response' [= <-]. cbv zeta.
    pose proof (format_hits_some
      (default [] (SearchRun.hits_hits Doc Highlight
         (default (SearchRun.mkHits Doc Highlight None None) response)))) as Hsome.
    destruct (mapM _ _) as [items|].
    + split; [|intros Hno; destruct Hno; apply Hsome; by eexists].
      intros _. rewrite decide_False by done. done.
    + split; [|done]. intros Hall. apply Hsome in Hall. by destruct Hall.
Qed.

End AlertFacts.

Section AlertExamples.

#[local] Open Scope Z_scope.

Import Facts Alerts.

Lemma alerts_record_matches_witness :
  ∃ s',
    run_saved_search_alerts string string
      (λ _, inr (Some (SearchRun.mkHits string string
                         (Some (SearchRun.TotalObject (Some 41))) None)))
      (λ i, 100 + Z.of_nat i)
      [mkSaved "async" (Some "await") None None None None None (Some 0)] !! 0%nat
    = Some s'
    ∧ match_count s' = Some 41 ∧ last_run_at s' = Some 100.
Proof.
  destruct (proj2 (alerts_record_matches
              (λ _, inr (Some (SearchRun.mkHits string string
                         (Some (SearchRun.TotalObject (Some 41))) None)))
              (λ i, 100 + Z.of_nat i)
              [mkSaved "async" (Some "await") None None None None None (Some 0)])
            0%nat _ eq_refl) as (_ & s' & Hs' & _ & Hok).
  exists s'. split; [exact Hs'|].
  apply (Hok _ eq_refl). constructor.
Defined.

End AlertExamples.
